(** * propstack-mcp: the request executor, the pagination walks, the fan-out
      tools, the scoring engine and the pipeline aggregation

    A shallow embedding of [PropstackClient.request] (propstack-client.ts) and
    of the composite tools [full_contact_360], [property_performance_report],
    [pipeline_summary] and [match_contacts_to_property] (tools/composites.ts),
    followed by the properties the specification states about them.

    Embedded with them, for properties read off the code itself:
    [PropstackClient.buildUrl], the tool [smart_lead_intake] and [contactName]
    (tools/composites.ts), and [extractIdFromPath], [formatError] and
    [errorResult] (tools/helpers.ts).

    Conventions of the embedding:
    - a value typed [T | null] is an [option T]; where the code tells [null]
      from [undefined] (the bounds of a search profile, the payload of an
      answer), it is a [nullable T];
    - a [number] read from the API and only compared or added is a binary64
      [float], as in JavaScript; counters, scores, identifiers, HTTP statuses
      and times in milliseconds, which stay integers, are in [Z];
    - a timer lasts the whole milliseconds Node gives it: the delay handed to
      [setTimeout], or 1 ms when that is no number from 1 to 2^31 - 1;
    - a promise is the outcome it settles with: [A + error]; a rejection that
      nobody handles ends the process;
    - built-ins whose result depends on tables left out here ([Number] on a
      header, [toLowerCase], [Date] parsing) and helpers that are not among
      the sources ([unwrapNumber], [parse422]) are parameters;
    - the text a tool answers with is kept as the data it is rendered from. *)

From Stdlib Require Import ZArith List String Ascii Bool Lia Setoid.
From Stdlib Require Import Sorting.Sorted Sorting.Permutation.
From Stdlib Require Import Floats.PrimFloat Floats.FloatOps Floats.SpecFloat.
From Stdlib Require Import Numbers.Cyclic.Int63.Uint63.
From Stdlib Require Import DecimalString.
Import ListNotations.

Local Open Scope Z_scope.

(* ------------------------------------------------------------------------- *)
(** ** Shared JavaScript idioms *)

(** Truthiness of a string: every string but the empty one. *)
Definition truthy_string (s : string) : bool :=
  negb (String.eqb s EmptyString).

(** Truthiness of a [string | null] value. *)
Definition truthy_ostring (o : option string) : bool :=
  match o with
  | Some s => truthy_string s
  | None => false
  end.

(** A value the API may leave out altogether: [undefined] when the key is
    not there, [null], or the value. *)
Inductive nullable (A : Type) : Type :=
  | Undefined
  | Null
  | Value (v : A).

Arguments Undefined {A}.
Arguments Null {A}.
Arguments Value {A}.

(** [x !== null]: it holds of a value, and of [undefined]. *)
Definition isnt_null {A : Type} (x : nullable A) : bool :=
  match x with
  | Null => false
  | _ => true
  end.

(** [a ?? b] on a nullable value. *)
Definition nullish {A : Type} (a : option A) (b : A) : A :=
  match a with
  | Some v => v
  | None => b
  end.

(** [`${n}`] for an integer. *)
Definition decimal (n : Z) : string := NilZero.string_of_int (Z.to_int n).

(** The number a property name stands for when it is an array index: a whole
    number from 0 to [2 ** 32 - 2] in decimal digits, without a leading
    zero. *)
Definition digit (c : ascii) : option Z :=
  let n := Z.of_nat (nat_of_ascii c) in
  if (48 <=? n) && (n <=? 57) then Some (n - 48) else None.

Fixpoint whole_number (acc : Z) (s : string) : option Z :=
  match s with
  | EmptyString => Some acc
  | String c s' =>
      match digit c with
      | Some d => whole_number (10 * acc + d) s'
      | None => None
      end
  end.

Definition array_index (key : string) : option Z :=
  match key with
  | EmptyString => None
  | String c rest =>
      if Ascii.eqb c "0" && negb (String.eqb rest EmptyString) then None
      else
        match whole_number 0 key with
        | Some n => if n <=? 4294967294 then Some n else None
        | None => None
        end
  end.

(** An object used as a map is kept as the list of its own properties in the
    order [Object.entries] and [Object.keys] give them: the names that are
    array indices first, by ascending index, then the other names in the order
    in which they were created. [comes_before new old] says that a property
    created under the name [new] is listed in front of the existing one named
    [old]; [place] creates a property. *)
Definition comes_before (new old : string) : bool :=
  match array_index new, array_index old with
  | Some n, Some m => n <? m
  | Some _, None => true
  | None, _ => false
  end.

Fixpoint place {V : Type} (key : string) (v : V) (props : list (string * V))
  : list (string * V) :=
  match props with
  | [] => [(key, v)]
  | kv :: rest =>
      if comes_before key (fst kv) then (key, v) :: props
      else kv :: place key v rest
  end.

(** [key in props], for own properties. *)
Definition has_key {V : Type} (key : string) (props : list (string * V)) : bool :=
  existsb (fun kv => String.eqb (fst kv) key) props.

(** Errors that travel through the tools: a [PropstackError] built from a
    non-2xx response, or any other JavaScript [Error] (a transport failure of
    [fetch], a body that is not JSON, ...), kept with its message. *)
Inductive error : Type :=
  | PropstackError (status : Z) (statusText detail path : string)
  | JsError (message : string).

(* ------------------------------------------------------------------------- *)
(** ** The request executor: [PropstackClient.request] *)

Module Client.

Definition MAX_RETRIES : Z := 3.
Definition RETRY_BASE_MS : Z := 1000.

(** The largest delay a timer takes, [2 ** 31 - 1]. *)
Definition TIMEOUT_MAX : Z := 2147483647.

(** The whole part of the positive number [m * 2 ** e]. *)
Definition whole (m : positive) (e : Z) : Z :=
  if 0 <=? e then Z.pos m * 2 ^ e else Z.pos m / 2 ^ (- e).

(** How long, in milliseconds, the timer of [setTimeout(resolve, delay)]
    lasts in Node: the delay without its fraction when it is a number from 1
    to [TIMEOUT_MAX], and 1 for any other delay ([NaN], a negative number,
    zero, a fraction below 1, a number above [TIMEOUT_MAX]). The bounds,
    being whole, are tested on the whole part of the delay, which decides the
    same. *)
Definition setTimeout (delay : float) : Z :=
  match Prim2SF delay with
  | S754_finite false m e =>
      let ms := whole m e in
      if (1 <=? ms) && (ms <=? TIMEOUT_MAX) then ms else 1
  | _ => 1
  end.

Section Request.

(** The parsed payload of a response body. *)
Variable J : Type.

(** JavaScript's [Number] applied to the text of a [Retry-After] header: a
    binary64 number, [NaN] for a text that is not a numeric literal (a date,
    say). *)
Variable Number : string -> float.

(** What [request] reads from a [Response]: status line, the [Retry-After]
    header ([headers.get] yields [null] when it is missing), the body as
    text, and the body parsed by [res.json()], which throws when the body is
    not JSON ([inr] carries the message of that error). *)
Record Response : Type := mkResponse {
  status : Z;
  statusText : string;
  retryAfter : option string;
  text : string;
  json : J + string
}.

(** [res.ok] *)
Definition ok (res : Response) : bool :=
  (200 <=? status res) && (status res <=? 299).

(** One call of [fetch]: it rejects with an error, or resolves. *)
Inductive fetched : Type :=
  | NetworkFailure (message : string)
  | Responded (res : Response).

(** The transport seen by one call of [request]: the outcome of its [n]-th
    call of [fetch], counted from zero. *)
Definition transport : Type := nat -> fetched.

(** What the caller of [request] observes. [Returned None] is the
    [undefined] of a 204 answer. *)
Inductive outcome : Type :=
  | Returned (payload : option J)
  | Thrown (e : error).

(** The observable steps of one call: timers awaited, each with the time it
    lasts in milliseconds, and calls of [fetch]. *)
Inductive event : Type :=
  | Sleep (ms : Z)
  | Fetch.

Definition run : Type := (outcome * list event)%type.

Definition after (evs : list event) (r : run) : run :=
  (fst r, evs ++ snd r).

(** The timer at the head of the loop body. Its delay is 1000, 2000 or 4000,
    and the timer lasts that long. *)
Definition backoff (attempt : Z) : list event :=
  if 0 <? attempt then [Sleep (RETRY_BASE_MS * 2 ^ (attempt - 1))] else [].

(** The timer of the 429 branch:
    [setTimeout(resolve, Number(retryAfter) * 1000)]. *)
Definition retry_after_wait (res : Response) : list event :=
  match retryAfter res with
  | Some s =>
      if truthy_string s then [Sleep (setTimeout (PrimFloat.mul (Number s) 1000))] else []
  | None => []
  end.

(** The [for] loop of [request], by recursion over the values [attempt] still
    has to take; [path] is the request path kept in a [PropstackError]. *)
Fixpoint attempts (path : string) (w : transport) (todo : list Z)
         (lastError : option error) : run :=
  match todo with
  | [] =>
      (Thrown (nullish lastError
                 (JsError ("Request to " ++ path ++ " failed after "
                           ++ decimal MAX_RETRIES ++ " retries")%string)),
       [])
  | attempt :: rest =>
      match w (Z.to_nat attempt) with
      | NetworkFailure m =>
          after (backoff attempt ++ [Fetch])
                (attempts path w rest (Some (JsError m)))
      | Responded res =>
          if (status res =? 429) && (attempt <? MAX_RETRIES) then
            after (backoff attempt ++ [Fetch] ++ retry_after_wait res)
                  (attempts path w rest lastError)
          else if negb (ok res) then
            (Thrown (PropstackError (status res) (statusText res) (text res) path),
             backoff attempt ++ [Fetch])
          else if status res =? 204 then
            (Returned None, backoff attempt ++ [Fetch])
          else
            match json res with
            | inl v => (Returned (Some v), backoff attempt ++ [Fetch])
            | inr m => (Thrown (JsError m), backoff attempt ++ [Fetch])
            end
      end
  end.

(** [attempt = 0; attempt <= MAX_RETRIES; attempt++] *)
Definition attempt_range : list Z :=
  map Z.of_nat (seq 0 (Z.to_nat (MAX_RETRIES + 1))).

Definition request (path : string) (w : transport) : run :=
  attempts path w attempt_range None.

(** *** Reading a run *)

(** Number of calls of [fetch]. *)
Fixpoint fetches (evs : list event) : nat :=
  match evs with
  | [] => O
  | Fetch :: evs' => S (fetches evs')
  | Sleep _ :: evs' => fetches evs'
  end.

(** Total time spent in timers. *)
Fixpoint slept (evs : list event) : Z :=
  match evs with
  | [] => 0
  | Sleep ms :: evs' => ms + slept evs'
  | Fetch :: evs' => slept evs'
  end.

(** The time waited in front of each call of [fetch], in order: the [n]-th
    entry is the delay between the end of call [n-1] and the start of call
    [n]. *)
Fixpoint delays_from (waited : Z) (evs : list event) : list Z :=
  match evs with
  | [] => []
  | Sleep ms :: evs' => delays_from (waited + ms) evs'
  | Fetch :: evs' => waited :: delays_from 0 evs'
  end.

Definition delays (evs : list event) : list Z := delays_from 0 evs.

(** The failure classes the loop goes round again for: a rejected [fetch],
    or a 429 answer. *)
Definition transient (f : fetched) : bool :=
  match f with
  | NetworkFailure _ => true
  | Responded res => status res =? 429
  end.

(** A 429 answer that names a [Retry-After] the code acts on. *)
Definition names_retry_after (f : fetched) (s : string) : Prop :=
  exists res, f = Responded res /\ status res = 429 /\
              retryAfter res = Some s /\ truthy_string s = true.

(** A transient failure without a usable [Retry-After]. *)
Definition no_retry_after (f : fetched) : bool :=
  match f with
  | NetworkFailure _ => true
  | Responded res => (status res =? 429) && negb (truthy_ostring (retryAfter res))
  end.

(** The error a failed attempt stands for. *)
Definition error_of (path : string) (f : fetched) : error :=
  match f with
  | NetworkFailure m => JsError m
  | Responded res => PropstackError (status res) (statusText res) (text res) path
  end.

(** *** Vocabulary of the properties *)

(** Every attempt up to and including attempt [n] fails transiently. *)
Definition transient_upto (w : transport) (n : nat) : Prop :=
  forall k, (k <= n)%nat -> transient (w k) = true.

(** The transport that answers the first four calls of [fetch] with the
    given outcomes. *)
Definition first_four (f0 f1 f2 f3 : fetched) : transport :=
  fun n =>
    match n with
    | 0%nat => f0
    | 1%nat => f1
    | 2%nat => f2
    | _ => f3
    end.

(** The claim of the specification about [Retry-After], as it is worded: the
    delay in front of the next attempt is the named duration alone. *)
Definition retry_after_replaces_backoff : Prop :=
  forall (path : string) (w : transport) (n : nat) (s : string),
    (n < 3)%nat ->
    (forall k, (k < n)%nat -> transient (w k) = true) ->
    names_retry_after (w n) s ->
    nth_error (delays (snd (request path w))) (S n)
    = Some (setTimeout (PrimFloat.mul (Number s) 1000)).

End Request.

Arguments setTimeout delay : simpl never.
Arguments mkResponse {J}.
Arguments status {J}.
Arguments statusText {J}.
Arguments retryAfter {J}.
Arguments text {J}.
Arguments json {J}.
Arguments ok {J}.
Arguments NetworkFailure {J}.
Arguments Responded {J}.
Arguments Returned {J}.
Arguments Thrown {J}.
Arguments transient {J}.
Arguments names_retry_after {J}.
Arguments no_retry_after {J}.
Arguments error_of {J}.
Arguments retry_after_wait {J}.
Arguments transient_upto {J}.
Arguments first_four {J}.

End Client.

(* ------------------------------------------------------------------------- *)
(** ** Values shared by the composite tools *)

(** What a tool hands back: [textResult] with a body, or [errorResult] for
    the entity it was working on. The bodies are kept as data; their rendering
    as text is not modelled. *)
Inductive tool_result (R : Type) : Type :=
  | textResult (body : R)
  | errorResult (entity : string) (err : error).

Arguments textResult {R}.
Arguments errorResult {R}.

(** [errorResult] sets [isError] for every error but a [PropstackError], which
    it turns into a plain text message. *)
Definition isError {R : Type} (r : tool_result R) : bool :=
  match r with
  | errorResult _ (JsError _) => true
  | _ => false
  end.

(** [PropstackPaginatedResponse<T>]. [data] is [None] where the code would
    find it nullish, [meta] holds [meta.total_count] when [meta] is there. *)
Record PropstackPaginatedResponse (T : Type) : Type := mkPage {
  data : option (list T);
  meta : option Z
}.

Arguments mkPage {T}.
Arguments data {T}.
Arguments meta {T}.

(** [array.length] as a number. *)
Definition len {A : Type} (l : list A) : Z := Z.of_nat (List.length l).

(** [fmt(value, fallback)] of helpers.ts on a [string | null]. *)
Definition fmt (value : option string) (fallback : string) : string :=
  match value with
  | Some s => if String.eqb s EmptyString then fallback else s
  | None => fallback
  end.

(** A letter from A to Z folded to lower case; any other character as it
    is. *)
Definition lower (c : ascii) : ascii :=
  let n := nat_of_ascii c in
  if (Nat.leb 65 n && Nat.leb n 90)%bool then ascii_of_nat (n + 32) else c.

(** What [String.prototype.toLowerCase] gives for a text of ASCII
    characters. The tools call the built-in itself, which folds the cased
    letters of every script and is a parameter of their models; this is its
    value on the ASCII texts of the worked examples. *)
Fixpoint lower_ascii (s : string) : string :=
  match s with
  | EmptyString => EmptyString
  | String c s' => String (lower c) (lower_ascii s')
  end.

(** [hay.includes(needle)]; a text is its sequence of bytes in UTF-8, and one
    well-formed text occurs in another as bytes exactly when it does as
    characters. *)
Fixpoint includes (hay needle : string) : bool :=
  String.prefix needle hay
  || match hay with
     | EmptyString => false
     | String _ hay' => includes hay' needle
     end.

(** [PropstackProperty], the attributes the tools read. *)
Module Property.
Record PropstackProperty : Type := mk {
  id : Z;
  title : option string;
  marketing_type : option string;
  rs_type : option string;
  city : option string;
  price : option float;
  base_rent : option float;
  living_space : option float;
  number_of_rooms : option float
}.
End Property.

(** [PropstackSearchProfile], the criteria the scoring reads. The bounds of
    the four ranges are declared [number | null]; the scoring tells a bound
    that is [null] from one that is not there, so they are kept three-valued.
    The other criteria are read through truthiness or [?.], which treat
    [null] and [undefined] alike: [None] stands for both. *)
Module SearchProfile.
Record PropstackSearchProfile : Type := mk {
  id : Z;
  client_id : option Z;
  active : option bool;
  marketing_type : option string;
  rs_types : option (list string);
  cities : option (list string);
  price : nullable float;
  price_to : nullable float;
  base_rent : nullable float;
  base_rent_to : nullable float;
  living_space : nullable float;
  living_space_to : nullable float;
  number_of_rooms : nullable float;
  number_of_rooms_to : nullable float
}.
End SearchProfile.

(* ------------------------------------------------------------------------- *)
(** ** The scoring engine and the profile walk: [match_contacts_to_property] *)

Module Match.

Import Property SearchProfile.

(** The scoring dimensions. An entry of [matches] or [mismatches] is kept as
    the dimension it speaks about; the text pushed by the code is not
    modelled. *)
Inductive criterion : Type :=
  | MarketingType
  | City
  | Price
  | Rent
  | Rooms
  | Space
  | RsType.

(** [interface MatchResult] *)
Record MatchResult : Type := mkMatch {
  profileId : Z;
  clientId : option Z;
  score : Z;
  maxScore : Z;
  matches : list criterion;
  mismatches : list criterion
}.

(** The four local variables of one round of the scoring loop. *)
Record tally : Type := mkTally {
  t_score : Z;
  t_maxScore : Z;
  t_matches : list criterion;
  t_mismatches : list criterion
}.

Definition start : tally := mkTally 0 0 [] [].

(** The body shared by all seven blocks: [maxScore += weight], then either
    [score += weight] and a match, or a mismatch. *)
Definition judge (c : criterion) (weight : Z) (pass : bool) (t : tally) : tally :=
  if pass then
    mkTally (t_score t + weight) (t_maxScore t + weight)
            (t_matches t ++ [c]) (t_mismatches t)
  else
    mkTally (t_score t) (t_maxScore t + weight)
            (t_matches t) (t_mismatches t ++ [c]).

(** [x !== null] on what [unwrapNumber] gives back. *)
Definition not_null {A : Type} (x : option A) : bool :=
  match x with
  | Some _ => true
  | None => false
  end.

(** [array?.length] as a condition. *)
Definition has_length {A : Type} (x : option (list A)) : bool :=
  match x with
  | Some (_ :: _) => true
  | _ => false
  end.

(** The [inRange] of the four range blocks,
    [(lo === null || lo === undefined || v >= lo) && (hi === null || hi === undefined || v <= hi)]:
    a bound that is [null] or [undefined] leaves its side open. [v >= lo] is
    [PrimFloat.leb lo v]. *)
Definition inRange (from to : nullable float) (v : float) : bool :=
  match from with
  | Value lo => PrimFloat.leb lo v
  | _ => true
  end
  && match to with
     | Value hi => PrimFloat.leb v hi
     | _ => true
     end.

Section Scoring.

(** [unwrapNumber] is imported from helpers.js, and the helpers file among
    the sources does not define it; it is a parameter here. The code compares
    its result with [null] and then uses it as a number. *)
Variable unwrapNumber : option float -> option float.

(** [String.prototype.toLowerCase] *)
Variable toLowerCase : string -> string.

Variable property : PropstackProperty.
Variable sp : PropstackSearchProfile.

(** Marketing type (weight: 3) *)
Definition marketing_type_block (t : tally) : tally :=
  match SearchProfile.marketing_type sp, Property.marketing_type property with
  | Some wanted, Some actual =>
      if truthy_string wanted && truthy_string actual
      then judge MarketingType 3 (String.eqb wanted actual) t
      else t
  | _, _ => t
  end.

(** City (weight: 3) *)
Definition city_block (t : tally) : tally :=
  let propCity := fmt (Property.city property) EmptyString in
  if has_length (cities sp) && truthy_string propCity then
    judge City 3
          (existsb (fun c => includes (toLowerCase propCity) (toLowerCase c))
                   (nullish (cities sp) []))
          t
  else t.

(** One of the four range blocks,
    [if ((from !== null || to !== null) && prop !== null) ...]. *)
Definition range_block (c : criterion) (weight : Z) (from to : nullable float)
           (raw : option float) (t : tally) : tally :=
  let prop := unwrapNumber raw in
  match prop with
  | Some v =>
      if isnt_null from || isnt_null to
      then judge c weight (inRange from to v) t
      else t
  | None => t
  end.

(** Price range (weight: 2) *)
Definition price_block : tally -> tally :=
  range_block Price 2 (SearchProfile.price sp) (price_to sp) (Property.price property).

(** Rent range (weight: 2) *)
Definition rent_block : tally -> tally :=
  range_block Rent 2 (SearchProfile.base_rent sp) (base_rent_to sp)
              (Property.base_rent property).

(** Rooms (weight: 2) *)
Definition rooms_block : tally -> tally :=
  range_block Rooms 2 (SearchProfile.number_of_rooms sp) (number_of_rooms_to sp)
              (Property.number_of_rooms property).

(** Living space (weight: 1) *)
Definition space_block : tally -> tally :=
  range_block Space 1 (SearchProfile.living_space sp) (living_space_to sp)
              (Property.living_space property).

(** Property type (weight: 2) *)
Definition rs_type_block (t : tally) : tally :=
  let propRsType := fmt (Property.rs_type property) EmptyString in
  if has_length (rs_types sp) && truthy_string propRsType then
    judge RsType 2 (existsb (String.eqb propRsType) (nullish (rs_types sp) [])) t
  else t.

(** The block of a dimension, and the order in which the loop body runs
    them. *)
Definition block (c : criterion) : tally -> tally :=
  match c with
  | MarketingType => marketing_type_block
  | City => city_block
  | Price => price_block
  | Rent => rent_block
  | Rooms => rooms_block
  | Space => space_block
  | RsType => rs_type_block
  end.

(** One round of the loop for an active profile, up to the test on
    [score]. *)
Definition score_profile : tally :=
  rs_type_block
    (space_block
       (rooms_block
          (rent_block
             (price_block
                (city_block
                   (marketing_type_block start)))))).

(** One round of [for (const sp of allProfiles)]: what it pushes on
    [results]. *)
Definition round : list MatchResult :=
  match active sp with
  | Some true =>
      let t := score_profile in
      if 0 <? t_score t then
        [mkMatch (SearchProfile.id sp) (client_id sp) (t_score t) (t_maxScore t)
                 (t_matches t) (t_mismatches t)]
      else []
  | _ => []
  end.

End Scoring.

Definition weight (c : criterion) : Z :=
  match c with
  | MarketingType => 3
  | City => 3
  | Price => 2
  | Rent => 2
  | Rooms => 2
  | Space => 1
  | RsType => 2
  end.

Definition dimensions : list criterion :=
  [MarketingType; City; Price; Rent; Rooms; Space; RsType].

(** The comparator given to [results.sort]:
    [b.score - a.score || a.mismatches.length - b.mismatches.length]. *)
Definition compare (a b : MatchResult) : Z :=
  let d := score b - score a in
  if d =? 0 then len (mismatches a) - len (mismatches b) else d.

(** [Array.prototype.sort] with a comparator: a stable sort, here by
    insertion. An element goes in front of the first one it does not have to
    follow. *)
Fixpoint insert {A : Type} (cmp : A -> A -> Z) (x : A) (l : list A) : list A :=
  match l with
  | [] => [x]
  | y :: l' => if cmp x y <=? 0 then x :: l else y :: insert cmp x l'
  end.

Definition sort {A : Type} (cmp : A -> A -> Z) (l : list A) : list A :=
  fold_right (insert cmp) [] l.

(** The body of the text the tool answers with. *)
Inductive report : Type :=
  | NoProfiles
  | NoMatches (property : PropstackProperty) (checked : nat)
  | Matching (property : PropstackProperty) (found : nat) (checked : nat)
             (top : list MatchResult).

(** Steps 3 and 4 of the tool: score, sort, keep the first twenty. *)
Definition results (unwrapNumber : option float -> option float)
           (toLowerCase : string -> string)
           (property : PropstackProperty)
           (allProfiles : list PropstackSearchProfile) : list MatchResult :=
  flat_map (round unwrapNumber toLowerCase property) allProfiles.

Definition rank (unwrapNumber : option float -> option float)
           (toLowerCase : string -> string)
           (property : PropstackProperty)
           (allProfiles : list PropstackSearchProfile) : report :=
  match allProfiles with
  | [] => NoProfiles
  | _ =>
      let sorted := sort compare (results unwrapNumber toLowerCase property allProfiles) in
      let top := firstn 20 sorted in
      match top with
      | [] => NoMatches property (List.length allProfiles)
      | _ => Matching property (List.length sorted) (List.length allProfiles) top
      end
  end.

(** *** Vocabulary of the properties *)

Section Vocabulary.

Variable unwrapNumber : option float -> option float.
Variable toLowerCase : string -> string.

(** The two bounds of a range dimension. *)
Definition bounds (sp : PropstackSearchProfile) (c : criterion)
  : option (nullable float * nullable float) :=
  match c with
  | Price => Some (SearchProfile.price sp, price_to sp)
  | Rent => Some (SearchProfile.base_rent sp, base_rent_to sp)
  | Rooms => Some (SearchProfile.number_of_rooms sp, number_of_rooms_to sp)
  | Space => Some (SearchProfile.living_space sp, living_space_to sp)
  | _ => None
  end.

(** The attribute of the property a range dimension looks at. *)
Definition attribute (p : PropstackProperty) (c : criterion) : option float :=
  match c with
  | Price => Property.price p
  | Rent => Property.base_rent p
  | Rooms => Property.number_of_rooms p
  | Space => Property.living_space p
  | _ => None
  end.

(** A range names a constraint when one of its bounds is a number. *)
Definition names_a_bound (range : nullable float * nullable float) : Prop :=
  (exists lo, fst range = Value lo) \/ (exists hi, snd range = Value hi).

(** The candidate's criteria-set names a constraint for the dimension. *)
Definition specified (sp : PropstackSearchProfile) (c : criterion) : Prop :=
  match c with
  | MarketingType =>
      exists s, SearchProfile.marketing_type sp = Some s /\ s <> EmptyString
  | City => exists x l, cities sp = Some (x :: l)
  | Price => names_a_bound (SearchProfile.price sp, price_to sp)
  | Rent => names_a_bound (SearchProfile.base_rent sp, base_rent_to sp)
  | Rooms => names_a_bound (SearchProfile.number_of_rooms sp, number_of_rooms_to sp)
  | Space => names_a_bound (SearchProfile.living_space sp, living_space_to sp)
  | RsType => exists x l, rs_types sp = Some (x :: l)
  end.

(** A range leaves a bound out when the profile has no key for it. *)
Definition leaves_out (range : nullable float * nullable float) : Prop :=
  fst range = Undefined \/ snd range = Undefined.

(** The profile declares the bounds of the dimension: each is [null] or a
    number, as [PropstackSearchProfile] types them. *)
Definition declares (sp : PropstackSearchProfile) (c : criterion) : Prop :=
  forall range, bounds sp c = Some range -> ~ leaves_out range.

(** The reference property has a value for the dimension. *)
Definition available (p : PropstackProperty) (c : criterion) : Prop :=
  match c with
  | MarketingType =>
      exists s, Property.marketing_type p = Some s /\ s <> EmptyString
  | City => exists s, city p = Some s /\ s <> EmptyString
  | Price => unwrapNumber (Property.price p) <> None
  | Rent => unwrapNumber (Property.base_rent p) <> None
  | Rooms => unwrapNumber (Property.number_of_rooms p) <> None
  | Space => unwrapNumber (Property.living_space p) <> None
  | RsType => exists s, rs_type p = Some s /\ s <> EmptyString
  end.

(** The guard of each block, as one boolean. *)
Definition guard (p : PropstackProperty) (sp : PropstackSearchProfile)
           (c : criterion) : bool :=
  match c with
  | MarketingType =>
      truthy_ostring (SearchProfile.marketing_type sp)
      && truthy_ostring (Property.marketing_type p)
  | City => has_length (cities sp) && truthy_string (fmt (city p) EmptyString)
  | Price =>
      (isnt_null (SearchProfile.price sp) || isnt_null (price_to sp))
      && not_null (unwrapNumber (Property.price p))
  | Rent =>
      (isnt_null (SearchProfile.base_rent sp) || isnt_null (base_rent_to sp))
      && not_null (unwrapNumber (Property.base_rent p))
  | Rooms =>
      (isnt_null (SearchProfile.number_of_rooms sp) || isnt_null (number_of_rooms_to sp))
      && not_null (unwrapNumber (Property.number_of_rooms p))
  | Space =>
      (isnt_null (SearchProfile.living_space sp) || isnt_null (living_space_to sp))
      && not_null (unwrapNumber (Property.living_space p))
  | RsType => has_length (rs_types sp) && truthy_string (fmt (rs_type p) EmptyString)
  end.

(** The order the comparator stands for: a higher score first, and among
    equal scores the fewer mismatches first. *)
Definition ranks_before (a b : MatchResult) : Prop :=
  score b < score a
  \/ (score a = score b
      /\ (List.length (mismatches a) <= List.length (mismatches b))%nat).

(** The two counters of a tally are in order. *)
Definition within (t : tally) : Prop := 0 <= t_score t <= t_maxScore t.

(** A result is worth listing: it scored, and not more than it could. *)
Definition sound (m : MatchResult) : Prop := 0 < score m <= maxScore m.

(** The test an active profile has to pass to be pushed on [results]. *)
Definition scores (p : PropstackProperty) (sp : PropstackSearchProfile) : bool :=
  match active sp with
  | Some true => 0 <? t_score (score_profile unwrapNumber toLowerCase p sp)
  | _ => false
  end.

End Vocabulary.

Section Walk.

(** [client.get("/saved_queries", { params: { page, per_page } })]: it
    resolves with a page or rejects. *)
Variable get : Z -> Z -> PropstackPaginatedResponse PropstackSearchProfile + error.

(** The [while] loop of step 2. [fuel] bounds the number of rounds; [None]
    means it ran out. *)
Fixpoint walk (fuel : nat) (maxProfiles : Z)
         (allProfiles : list PropstackSearchProfile) (page : Z) (hasMore : bool)
  : option (list PropstackSearchProfile + error) :=
  match fuel with
  | O => None
  | S fuel' =>
      if hasMore && (len allProfiles <? maxProfiles) then
        match get page (Z.min 100 (maxProfiles - len allProfiles)) with
        | inr e => Some (inr e)
        | inl res =>
            match data res with
            | Some (x :: more) =>
                let allProfiles' := allProfiles ++ x :: more in
                let total := nullish (meta res) 0 in
                walk fuel' maxProfiles allProfiles' (page + 1)
                     ((len allProfiles' <? total) && (len allProfiles' <? maxProfiles))
            | _ => walk fuel' maxProfiles allProfiles page false
            end
        end
      else Some (inl allProfiles)
  end.

(** [args.max_profiles ?? 1000] *)
Definition maxProfiles_of (max_profiles : option Z) : Z :=
  nullish max_profiles 1000.

(** Rounds that are always enough: every round but the last two adds a
    profile, and there is room for [maxProfiles] of them. *)
Definition enough (maxProfiles : Z) : nat := S (S (Z.to_nat maxProfiles)).

Definition fetch_profiles (max_profiles : option Z)
  : option (list PropstackSearchProfile + error) :=
  let maxProfiles := maxProfiles_of max_profiles in
  walk (enough maxProfiles) maxProfiles [] 1 true.

(** The upstream never answers with more items than [per_page] asks for. *)
Definition honours_per_page : Prop :=
  forall page per_page res l,
    get page per_page = inl res -> data res = Some l -> len l <= per_page.

End Walk.

(** The tool. [get_property] is [client.get(`/units/${property_id}`)]. *)
Definition match_contacts_to_property
           (unwrapNumber : option float -> option float)
           (toLowerCase : string -> string)
           (get_property : PropstackProperty + error)
           (get : Z -> Z -> PropstackPaginatedResponse PropstackSearchProfile + error)
           (max_profiles : option Z)
  : option (tool_result report) :=
  match get_property with
  | inr e => Some (errorResult "Property matching" e)
  | inl property =>
      match fetch_profiles get max_profiles with
      | None => None
      | Some (inr e) => Some (errorResult "Property matching" e)
      | Some (inl allProfiles) =>
          Some (textResult (rank unwrapNumber toLowerCase property allProfiles))
      end
  end.

End Match.

(* ------------------------------------------------------------------------- *)
(** ** The deal walk and the aggregation: [pipeline_summary] *)

(** [PropstackDeal], the fields the summary reads. *)
Module Deal.
Record PropstackDeal : Type := mk {
  id : Z;
  client_id : option Z;
  property_id : option Z;
  deal_stage_id : option Z;
  sold_price : option float;
  property : option Property.PropstackProperty;
  created_at : option string;
  updated_at : option string
}.
End Deal.

Module DealStage.
Record PropstackDealStage : Type := mk {
  id : Z;
  name : option string
}.
End DealStage.

Module DealPipeline.
Record PropstackDealPipeline : Type := mk {
  id : Z;
  name : option string;
  deal_stages : option (list DealStage.PropstackDealStage)
}.
End DealPipeline.

Module Pipeline.

Import Deal DealStage DealPipeline.

Definition maxDeals : Z := 2000.

(** [14 * 24 * 60 * 60 * 1000] *)
Definition staleThresholdMs : Z := 14 * 24 * 60 * 60 * 1000.

Section Walk.

(** [client.get("/client_properties", { params: { ...dealParams, page } })];
    the filters in [dealParams] are the same for every page. *)
Variable get : Z -> PropstackPaginatedResponse PropstackDeal + error.

(** The state the [do ... while] loop leaves behind; [page] has been
    incremented once for every request made. *)
Record walked : Type := mkWalked {
  allDeals : list PropstackDeal;
  totalCount : option Z;
  page : Z
}.

(** The [do ... while] loop. [fuel] bounds the number of rounds; [None]
    means it ran out. *)
Fixpoint walk (fuel : nat) (allDeals : list PropstackDeal) (page : Z)
  : option (walked + error) :=
  match fuel with
  | O => None
  | S fuel' =>
      match get page with
      | inr e => Some (inr e)
      | inl res =>
          let allDeals' :=
            match data res with
            | Some (d :: more) => allDeals ++ d :: more
            | _ => allDeals
            end in
          let totalCount := meta res in
          let page' := page + 1 in
          if (len allDeals' <? nullish totalCount 0) && (len allDeals' <? maxDeals)
          then walk fuel' allDeals' page'
          else Some (inl (mkWalked allDeals' totalCount page'))
      end
  end.

End Walk.

(** The warning pushed after the walk:
    [`Summary capped at ${maxDeals} deals (${totalCount} total).`] *)
Inductive warning : Type :=
  | Capped (cap total : Z).

Definition warnings_of (w : walked) : list warning :=
  match totalCount w with
  | Some total =>
      if (maxDeals <=? len (allDeals w)) && (maxDeals <? total)
      then [Capped maxDeals total]
      else []
  | None => []
  end.

(** [stageNames]: a later assignment to the same id replaces the earlier
    one, so a lookup finds the last. *)
Definition stageNames (pipelines : list PropstackDealPipeline) : list (Z * string) :=
  flat_map (fun p =>
              match deal_stages p with
              | Some stages =>
                  map (fun s => (DealStage.id s, nullish (DealStage.name s) "Unnamed"%string))
                      stages
              | None => []
              end)
           pipelines.

Definition lookup (names : list (Z * string)) (id : Z) : option string :=
  fold_left (fun found kv => if fst kv =? id then Some (snd kv) else found) names None.

(** [d.deal_stage_id ? (stageNames[d.deal_stage_id] ?? `Stage #${...}`) : "No stage"] *)
Definition stageName (names : list (Z * string)) (d : PropstackDeal) : string :=
  match deal_stage_id d with
  | Some id =>
      if id =? 0 then "No stage"%string
      else nullish (lookup names id) ("Stage #" ++ decimal id)%string
  | None => "No stage"%string
  end.

(** One entry of [stageStats]. *)
Record stats : Type := mkStats {
  count : Z;
  value : float;
  deals : list PropstackDeal
}.

(** The names every object literal inherits from [Object.prototype]. For one
    of them [stageStats[stageName]] is not [undefined] before anything was
    stored: it is the inherited member. *)
Definition inherited_names : list string :=
  ["constructor"; "__defineGetter__"; "__defineSetter__"; "hasOwnProperty";
   "__lookupGetter__"; "__lookupSetter__"; "isPrototypeOf";
   "propertyIsEnumerable"; "toString"; "valueOf"; "__proto__";
   "toLocaleString"]%string.

Definition inherited (key : string) : bool :=
  existsb (String.eqb key) inherited_names.

(** The three updates of an entry: [count++], [value += price],
    [deals.push(d)]. *)
Definition touched (price : float) (d : PropstackDeal) (st : stats) : stats :=
  mkStats (count st + 1) (PrimFloat.add (value st) price) (deals st ++ [d]).

(** The updates done on the entry [stageStats] has under [key]. *)
Fixpoint touch (key : string) (price : float) (d : PropstackDeal)
         (stageStats : list (string * stats)) : list (string * stats) :=
  match stageStats with
  | [] => []
  | (k, st) :: rest =>
      if String.eqb k key
      then (k, touched price d st) :: rest
      else (k, st) :: touch key price d rest
  end.

(** What one round does to [stageStats], an object keyed by stage name, for
    a [key] that is not the name of a member of [Object.prototype]: a missing
    entry is created as [{ count: 0, value: 0, deals: [] }], and the entry is
    updated. *)
Definition bump (key : string) (price : float) (d : PropstackDeal)
           (stageStats : list (string * stats)) : list (string * stats) :=
  if has_key key stageStats
  then touch key price d stageStats
  else place key (touched price d (mkStats 0 0%float [])) stageStats.

Section Aggregate.

(** [unwrapNumber] of helpers.js is not among the sources; it is a parameter.
    Its argument [None] stands for [null], and for the [undefined] of
    [d.property?.price] when the deal has no property. *)
Variable unwrapNumber : option float -> option float.

(** [new Date(s).getTime()]; [None] is the [NaN] of a string that is not a
    date. *)
Variable getTime : string -> option Z.

(** [now.getTime()] *)
Variable now : Z.

Variable names : list (Z * string).

(** [d.property?.price] *)
Definition linked_price (d : PropstackDeal) : option float :=
  match Deal.property d with
  | Some p => Property.price p
  | None => None
  end.

(** [unwrapNumber(d.sold_price) ?? unwrapNumber(d.property?.price) ?? 0] *)
Definition price_of (d : PropstackDeal) : float :=
  match unwrapNumber (sold_price d) with
  | Some v => v
  | None =>
      match unwrapNumber (linked_price d) with
      | Some v => v
      | None => 0%float
      end
  end.

(** [d.updated_at ?? d.created_at] *)
Definition lastUpdate (d : PropstackDeal) : option string :=
  match updated_at d with
  | Some s => Some s
  | None => created_at d
  end.

(** [lastUpdate && (now.getTime() - new Date(lastUpdate).getTime()) > staleThresholdMs];
    a comparison with [NaN] is false. *)
Definition is_stale (d : PropstackDeal) : bool :=
  match lastUpdate d with
  | Some s =>
      truthy_string s
      && match getTime s with
         | Some t => staleThresholdMs <? now - t
         | None => false
         end
  | None => false
  end.

(** The variables the aggregation loop updates. *)
Record aggregate : Type := mkAggregate {
  stageStats : list (string * stats);
  staleDeals : list PropstackDeal;
  totalDeals : Z;
  totalValue : float
}.

Definition empty : aggregate := mkAggregate [] [] 0 0%float.

(** The body of [for (const d of dealList)] for a deal whose stage name is
    not the name of a member of [Object.prototype]. *)
Definition step (a : aggregate) (d : PropstackDeal) : aggregate :=
  let price := price_of d in
  mkAggregate (bump (stageName names d) price d (stageStats a))
              (if is_stale d then staleDeals a ++ [d] else staleDeals a)
              (totalDeals a + 1)
              (PrimFloat.add (totalValue a) price).

(** The loop [for (const d of dealList)]. For a stage name that is the name
    of a member of [Object.prototype] the entry is never created, [count] and
    [value] are written on the inherited member, and [.deals.push(d)] throws,
    [deals] being [undefined] there; the [catch] of the tool turns that into
    its error answer. For any other name the round is [step]. *)
Fixpoint run (a : aggregate) (dealList : list PropstackDeal) : aggregate + error :=
  match dealList with
  | [] => inl a
  | d :: rest =>
      if inherited (stageName names d)
      then inr (JsError "Cannot read properties of undefined (reading 'push')")
      else run (step a d) rest
  end.

(** *** Vocabulary of the properties *)

(** The rounds of [step] one after the other: what the loop has built when
    it comes through, which it does when no stage name is inherited. *)
Definition aggregated (dealList : list PropstackDeal) : aggregate :=
  fold_left step dealList empty.

(** The sum the loop builds: the prices added one after the other, from
    zero. *)
Definition sum_prices (l : list PropstackDeal) : float :=
  fold_left (fun acc d => PrimFloat.add acc (price_of d)) l 0%float.

(** The time of the last update: of [updated_at] if the deal has one, else of
    [created_at]. *)
Definition last_update_time (d : PropstackDeal) : option Z :=
  match updated_at d with
  | Some s => getTime s
  | None =>
      match created_at d with
      | Some s => getTime s
      | None => None
      end
  end.

(** [now] is more than fourteen days past the last update. *)
Definition Stale (d : PropstackDeal) : Prop :=
  exists t, last_update_time d = Some t /\ now - t > 14 * 86400000.

(** An entry of [stageStats] agrees with the deals it holds. *)
Definition consistent (entry : string * stats) : Prop :=
  value (snd entry) = sum_prices (deals (snd entry))
  /\ count (snd entry) = len (deals (snd entry)).

End Aggregate.

(** What the answer is built from: the header's two totals, the rows of the
    stage table as [Object.entries(stageStats)] lists them, the stale deals
    (the text lists the first ten and gives their number), and the
    warnings. *)
Record summary : Type := mkSummary {
  total_deals : Z;
  total_value : float;
  stage_rows : list (string * stats);
  stale : list PropstackDeal;
  warnings : list warning
}.

(** The tool. [get_pipelines] is [client.get("/deal_pipelines")]; what the
    loops throw goes to the [catch] of the handler. *)
Definition pipeline_summary
           (unwrapNumber : option float -> option float)
           (getTime : string -> option Z) (now : Z)
           (get_pipelines : list PropstackDealPipeline + error)
           (get : Z -> PropstackPaginatedResponse PropstackDeal + error)
           (fuel : nat)
  : option (tool_result summary) :=
  match get_pipelines with
  | inr e => Some (errorResult "Pipeline summary" e)
  | inl pipelines =>
      match walk get fuel [] 1 with
      | None => None
      | Some (inr e) => Some (errorResult "Pipeline summary" e)
      | Some (inl w) =>
          match run unwrapNumber getTime now (stageNames pipelines) empty (allDeals w) with
          | inr e => Some (errorResult "Pipeline summary" e)
          | inl a =>
              Some (textResult
                      (mkSummary (nullish (totalCount w) (totalDeals a))
                                 (totalValue a)
                                 (stageStats a)
                                 (staleDeals a)
                                 (warnings_of w)))
          end
      end
  end.

End Pipeline.

(* ------------------------------------------------------------------------- *)
(** ** The fan-out tools: [full_contact_360], [property_performance_report] *)

Module FanOut.

(** One entry of the array [Promise.allSettled] resolves with. *)
Inductive settled (A : Type) : Type :=
  | fulfilled (value : A)
  | rejected (reason : error).

Arguments fulfilled {A}.
Arguments rejected {A}.

(** How one promise settles: a call that resolves with a value or rejects
    with an error. *)
Definition settle {A : Type} (call : A + error) : settled A :=
  match call with
  | inl v => fulfilled v
  | inr e => rejected e
  end.

(** [Promise.allSettled]: every promise is awaited, and each gets its entry,
    in the order given. *)
Definition allSettled {A : Type} (calls : list (A + error)) : list (settled A) :=
  map settle calls.

Section Tools.

(** The payload of an answer: an object of the type the call declares. *)
Variable J : Type.

(** [client.get(path, { params })] as a tool sees it: it rejects, or it
    resolves with what [request] returns, which is [undefined] for a 204
    answer and [null] for a body that says so, and the object otherwise. *)
Variable get : string -> list (string * string) -> nullable J + error.

(** The parts the text of an answer is joined from: a section rendered from
    the data under a heading, a section that says [Failed to load] with the
    reason, and the closing note that lists what failed. *)
Inductive section : Type :=
  | Shown (heading : string) (payload : J)
  | FailedToLoad (heading : string) (reason : error)
  | Note (failed : list string).

(** The first thing a rendering does with a payload is to read a property of
    it, which throws a [TypeError] when the payload is [undefined] or
    [null]. An object is rendered without throwing. *)
Definition read (property : string) (payload : nullable J) : J + error :=
  match payload with
  | Value v => inl v
  | Undefined =>
      inr (JsError ("Cannot read properties of undefined (reading '" ++ property ++ "')"))
  | Null =>
      inr (JsError ("Cannot read properties of null (reading '" ++ property ++ "')"))
  end.

(** Sequencing of steps that may throw. *)
Definition and_then {A B : Type} (x : A + error) (k : A -> B + error) : B + error :=
  match x with
  | inl a => k a
  | inr e => inr e
  end.

(** [try { ... return textResult(...) } catch (err) { return errorResult(entity, err) }] *)
Definition try_catch {R : Type} (entity : string) (body : R + error) : tool_result R :=
  match body with
  | inl r => textResult r
  | inr err => errorResult entity err
  end.

(** The [if (res.status === "fulfilled") ... else ...] of a secondary call:
    the section it pushes, and what it pushes on [warnings]. The fulfilled
    branch starts with [res.value.data]. *)
Definition section_of (heading warning : string) (res : settled (nullable J))
  : (section * list string) + error :=
  match res with
  | fulfilled payload =>
      and_then (read "data" payload) (fun v => inl (Shown heading v, []))
  | rejected e => inl (FailedToLoad heading e, [warning])
  end.

(** [if (warnings.length > 0) sections.push(...)] *)
Definition note_of (warnings : list string) : list section :=
  match warnings with
  | [] => []
  | _ => [Note warnings]
  end.

(** The four calls of [full_contact_360]. *)
Definition contact_calls (contact_id : Z) : list (nullable J + error) :=
  [ get ("/contacts/" ++ decimal contact_id)%string
        [("include", "children,documents,relationships,owned_properties");
         ("expand", "true")]%string;
    get "/saved_queries" [("client", decimal contact_id)]%string;
    get "/client_properties"
        [("client_id", decimal contact_id); ("include", "client,property")]%string;
    get "/activities" [("client_id", decimal contact_id); ("per", "10")]%string ].

(** The handler of [full_contact_360]. The rendering of the contact starts
    with [contactName(contact)], which reads [contact.name]. *)
Definition full_contact_360 (contact_id : Z) : tool_result (list section) :=
  match allSettled (contact_calls contact_id) with
  | [contactRes; searchProfilesRes; dealsRes; activitiesRes] =>
      match contactRes with
      | rejected reason => errorResult "Contact 360" reason
      | fulfilled payload =>
          try_catch "Contact 360"
            (and_then (read "name" payload) (fun contact =>
             and_then (section_of "Search Profiles" "Search profiles" searchProfilesRes)
                      (fun profiles =>
             and_then (section_of "Deals" "Deals" dealsRes) (fun deals =>
             and_then (section_of "Recent Activity" "Activities" activitiesRes)
                      (fun activity =>
             inl ([Shown "Contact" contact; fst profiles; fst deals; fst activity]
                    ++ note_of (snd profiles ++ snd deals ++ snd activity)))))))
      end
  | _ => errorResult "Contact 360" (JsError "Cannot read properties of undefined")
  end.

(** The three calls of [property_performance_report]. *)
Definition property_calls (property_id : Z) : list (nullable J + error) :=
  [ get ("/units/" ++ decimal property_id)%string [("new", "1"); ("expand", "1")]%string;
    get "/client_properties"
        [("property_id", decimal property_id); ("include", "client")]%string;
    get "/activities" [("property_id", decimal property_id); ("per", "50")]%string ].

(** The handler of [property_performance_report]. The rendering of the
    property starts with [property.title]. *)
Definition property_performance_report (property_id : Z) : tool_result (list section) :=
  match allSettled (property_calls property_id) with
  | [propertyRes; dealsRes; activitiesRes] =>
      match propertyRes with
      | rejected reason => errorResult "Property report" reason
      | fulfilled payload =>
          try_catch "Property report"
            (and_then (read "title" payload) (fun property =>
             and_then (section_of "Pipeline Analysis" "Deals" dealsRes) (fun deals =>
             and_then (section_of "Activity Summary" "Activities" activitiesRes)
                      (fun activity =>
             inl ([Shown "Property Report" property; fst deals; fst activity]
                    ++ note_of (snd deals ++ snd activity))))))
      end
  | _ => errorResult "Property report" (JsError "Cannot read properties of undefined")
  end.

(** *** Vocabulary of the properties *)

(** The call a tool cannot do without, and the other ones with the heading
    and the name they go by in the answer. *)
Definition essential (calls : list (nullable J + error)) : option (nullable J + error) :=
  hd_error calls.

Definition contact_secondary (contact_id : Z)
  : list (string * string * (nullable J + error)) :=
  match contact_calls contact_id with
  | _ :: a :: b :: c :: _ =>
      [("Search Profiles", "Search profiles", a); ("Deals", "Deals", b);
       ("Recent Activity", "Activities", c)]%string
  | _ => []
  end.

Definition property_secondary (property_id : Z)
  : list (string * string * (nullable J + error)) :=
  match property_calls property_id with
  | _ :: a :: b :: _ =>
      [("Pipeline Analysis", "Deals", a); ("Activity Summary", "Activities", b)]%string
  | _ => []
  end.

(** The call was answered, but with nothing to render: [undefined] or
    [null]. *)
Definition bare (call : nullable J + error) : Prop :=
  call = inl Undefined \/ call = inl Null.

(** The tool answers with an error. *)
Definition fails (answer : tool_result (list section)) : Prop :=
  exists entity e, answer = errorResult entity e.

(** In an answer, every secondary call that was answered with an object has
    its section, and every one that failed has a section that says so and is
    named in the closing note. *)
Definition all_accounted (secondary : list (string * string * (nullable J + error)))
           (sections : list section) : Prop :=
  forall heading warning call,
    In (heading, warning, call) secondary ->
    match call with
    | inl (Value v) => In (Shown heading v) sections
    | inl _ => True
    | inr e =>
        In (FailedToLoad heading e) sections
        /\ exists failed, In (Note failed) sections /\ In warning failed
    end.

End Tools.

Arguments Shown {J}.
Arguments FailedToLoad {J}.
Arguments Note {J}.
Arguments essential {J}.
Arguments all_accounted {J}.
Arguments bare {J}.
Arguments fails {J}.

(** The claim of the specification about the overall error, as it is worded:
    a fan-out tool answers with an error exactly when its essential call
    fails. *)
Definition error_iff_essential_fails (J : Type) : Prop :=
  forall (get : string -> list (string * string) -> nullable J + error) (id : Z),
    (fails (full_contact_360 J get id)
     <-> exists e, essential (contact_calls J get id) = Some (inr e))
    /\ (fails (property_performance_report J get id)
        <-> exists e, essential (property_calls J get id) = Some (inr e)).

End FanOut.

(* ------------------------------------------------------------------------- *)
(** ** The inputs of the specification's scenarios *)

Module Scenario.

Import Property SearchProfile Deal.

Local Open Scope string_scope.

(** [{marketing_type: "BUY", city: "Berlin", price: 350000}] *)
Definition reference : PropstackProperty :=
  Property.mk 77 None (Some "BUY") None (Some "Berlin") (Some 350000%float)
              None None None.

(** [{marketing_type: "BUY", cities: ["Berlin","Potsdam"], price: 300000,
      price_to: 400000}], an active profile; the bounds it does not write are
    not there. *)
Definition buyer : PropstackSearchProfile :=
  SearchProfile.mk 1 (Some 501) (Some true) (Some "BUY") None
                   (Some ["Berlin"; "Potsdam"])
                   (Value 300000%float) (Value 400000%float)
                   Undefined Undefined Undefined Undefined Undefined Undefined.

(** [{marketing_type: "RENT", cities: ["Munich"]}], an active profile, as
    the specification writes it: no bound is there. *)
Definition renter : PropstackSearchProfile :=
  SearchProfile.mk 2 (Some 502) (Some true) (Some "RENT") None
                   (Some ["Munich"])
                   Undefined Undefined Undefined Undefined
                   Undefined Undefined Undefined Undefined.

(** The same profile with every bound there and [null], as the declared type
    of a profile has it. *)
Definition renter_with_nulls : PropstackSearchProfile :=
  SearchProfile.mk 2 (Some 502) (Some true) (Some "RENT") None
                   (Some ["Munich"])
                   Null Null Null Null Null Null Null Null.

(** A profile that differs from the next one by its number only. *)
Definition nth_profile (n : nat) : PropstackSearchProfile :=
  SearchProfile.mk (Z.of_nat n) (Some (Z.of_nat n + 500)) (Some true) (Some "BUY") None
                   (Some ["Berlin"])
                   Null Null Null Null Null Null Null Null.

(** The profiles numbered 1 to [n]. *)
Definition crowd (n : nat) : list PropstackSearchProfile :=
  map nth_profile (seq 1 n).

(** An upstream that holds a fixed collection, answers a request for page
    [page] of size [per_page] with that window of it, and reports the size of
    the collection as [meta.total_count]. *)
Definition upstream {T : Type} (items : list T) (page per_page : Z)
  : PropstackPaginatedResponse T + error :=
  inl (mkPage (Some (firstn (Z.to_nat per_page)
                            (skipn (Z.to_nat ((page - 1) * per_page)) items)))
              (Some (len items))).

(** [unwrapNumber] on an attribute that is a plain [number | null]. *)
Definition plain (v : option float) : option float := v.

(** A property known by its list price only. *)
Definition listed (id : Z) (price : float) : PropstackProperty :=
  Property.mk id None (Some "BUY") None None (Some price) None None None.

(** The three deals of the aggregation scenario, all in stage 3: two without a
    sold price, linked to properties listed at 200000 and 300000 and last
    updated at [old]; one sold at 500000 and last updated at [recent]. *)
Definition first_deal (old : string) : PropstackDeal :=
  Deal.mk 1 (Some 501) (Some 71) (Some 3) None (Some (listed 71 200000%float))
          (Some old) (Some old).

Definition second_deal (old : string) : PropstackDeal :=
  Deal.mk 2 (Some 502) (Some 72) (Some 3) None (Some (listed 72 300000%float))
          (Some old) (Some old).

Definition third_deal (recent : string) : PropstackDeal :=
  Deal.mk 3 (Some 503) (Some 73) (Some 3) (Some 500000%float) None
          (Some recent) (Some recent).

Definition three_deals (old recent : string) : list PropstackDeal :=
  [first_deal old; second_deal old; third_deal recent].

(** One pipeline whose stage 3 is called "Besichtigung". *)
Definition pipelines : list DealPipeline.PropstackDealPipeline :=
  [DealPipeline.mk 1 (Some "Verkauf")
                   (Some [DealStage.mk 2 (Some "Anfrage");
                          DealStage.mk 3 (Some "Besichtigung")])].

(** A clock for the scenario: it is 2026-11-02T12:00:00Z, and [getTime] knows
    the two dates the deals carry. *)
Definition now : Z := 1793620800000.

Definition getTime (s : string) : option Z :=
  if String.eqb s "2026-10-13T12:00:00.000Z" then Some 1791892800000
  else if String.eqb s "2026-11-01T12:00:00.000Z" then Some 1793534400000
  else None.

(** JavaScript's [Number] on a string of decimal digits, the form a
    [Retry-After] header gives a number of seconds in: the number the digits
    spell. It is not meant for other strings. *)
Fixpoint digits (acc : Z) (s : string) : Z :=
  match s with
  | EmptyString => acc
  | String c s' => digits (10 * acc + (Z.of_nat (nat_of_ascii c) - 48)) s'
  end.

Definition Number (s : string) : float :=
  PrimFloat.of_uint63 (Uint63.of_Z (digits 0 s)).

(** Transports for a payload that is a plain string. The first answers 429
    with [Retry-After: 5] once and 200 from then on. *)
Definition too_many : Client.Response string :=
  Client.mkResponse 429 "Too Many Requests" (Some "5") "" (inr "Unexpected end of JSON input").

Definition fine : Client.Response string :=
  Client.mkResponse 200 "OK" None "[]" (inl "[]").

Definition missing : Client.Response string :=
  Client.mkResponse 404 "Not Found" None "" (inr "Unexpected end of JSON input").

Definition throttled : Client.Response string :=
  Client.mkResponse 429 "Too Many Requests" None "" (inr "Unexpected end of JSON input").

Definition rate_limited_once : Client.transport string :=
  fun n =>
    match n with
    | O => Client.Responded too_many
    | _ => Client.Responded fine
    end.

(** It answers 404. *)
Definition not_found : Client.transport string :=
  fun _ => Client.Responded missing.

(** It answers 429 without a [Retry-After] header, every time. *)
Definition always_throttled : Client.transport string :=
  fun _ => Client.Responded throttled.

(** A [client.get] for the fan-out tools, whose payload is the path asked
    for: the deals cannot be loaded, everything else can. *)
Definition deals_down (path : string) (params : list (string * string))
  : nullable string + error :=
  if String.eqb path "/client_properties"
  then inr (PropstackError 500 "Internal Server Error" "" path)
  else inl (Value path).

(** The same, but the deals are answered with 204 and no body, for which
    [request] returns [undefined]. *)
Definition deals_gone (path : string) (params : list (string * string))
  : nullable string + error :=
  if String.eqb path "/client_properties"
  then inl Undefined
  else inl (Value path).

(** The deal numbered [n], in no stage and without dates. *)
Definition nth_deal (n : nat) : PropstackDeal :=
  Deal.mk (Z.of_nat n) None None None None None None None.

(** The deals numbered 1 to [n]. *)
Definition herd (n : nat) : list PropstackDeal :=
  map nth_deal (seq 1 n).

(** An upstream of [n] deals that serves pages of 100 and reports no
    total. *)
Definition untold (n : nat) (page : Z) : PropstackPaginatedResponse PropstackDeal + error :=
  inl (mkPage (Some (firstn 100 (skipn (Z.to_nat ((page - 1) * 100)) (herd n))))
              None).

End Scenario.


(* ------------------------------------------------------------------------- *)
(** ** Reading a match result *)

Module Verdict.

Import Match.

(** The weights of a list of dimensions, added up. *)
Definition total_weight (l : list criterion) : Z :=
  fold_right (fun c acc => weight c + acc) 0 l.

(** A tally is explained by its two lists: the score is the weight of the
    matches, the maximum the weight of matches and mismatches together. *)
Definition explained (t : tally) : Prop :=
  t_score t = total_weight (t_matches t)
  /\ t_maxScore t = total_weight (t_matches t) + total_weight (t_mismatches t).

(** Two results the comparator does not tell apart. *)
Definition same_rank (a b : MatchResult) : bool :=
  (score a =? score b)
  && Nat.eqb (List.length (mismatches a)) (List.length (mismatches b)).

(** [needle] occurs in [hay]. *)
Definition occurs_in (needle hay : string) : Prop :=
  exists before behind, hay = (before ++ needle ++ behind)%string.

(** The result the loop pushes for a profile. *)
Definition result_of (unwrapNumber : option float -> option float)
           (toLowerCase : string -> string)
           (p : Property.PropstackProperty)
           (sp : SearchProfile.PropstackSearchProfile) : MatchResult :=
  let t := score_profile unwrapNumber toLowerCase p sp in
  mkMatch (SearchProfile.id sp) (SearchProfile.client_id sp)
          (t_score t) (t_maxScore t) (t_matches t) (t_mismatches t).

End Verdict.


(* ------------------------------------------------------------------------- *)
(** ** Upstreams of the two walks *)

Module Walks.

(** The upstream answers a request for [per_page] items, when that is a
    positive number, with at most that many. *)
Definition answers_within {T : Type}
           (get : Z -> Z -> PropstackPaginatedResponse T + error) : Prop :=
  forall page per_page res l,
    0 < per_page ->
    get page per_page = inl res -> data res = Some l -> len l <= per_page.

(** No page of the upstream holds more than [k] items. *)
Definition pages_hold {T : Type}
           (get : Z -> PropstackPaginatedResponse T + error) (k : Z) : Prop :=
  forall page res l, get page = inl res -> data res = Some l -> len l <= k.

(** Every page of the upstream is empty and yet reports a positive total. *)
Definition stalls {T : Type}
           (get : Z -> PropstackPaginatedResponse T + error) : Prop :=
  forall page,
    exists res total,
      get page = inl res
      /\ (data res = None \/ data res = Some [])
      /\ meta res = Some total /\ 0 < total.

(** An upstream that has nothing to give but says it has five items. *)
Definition hollow (page : Z) : PropstackPaginatedResponse Deal.PropstackDeal + error :=
  inl (mkPage (Some []) (Some 5)).

End Walks.


(* ------------------------------------------------------------------------- *)
(** ** The stage table of [pipeline_summary], and the days it shows *)

Module Buckets.

Import Deal Pipeline.

Section Loop.

Variable getTime : string -> option Z.
Variable now : Z.

(** [Math.floor((to.getTime() - new Date(from).getTime()) / (1000 * 60 * 60 * 24))];
    [None] is [NaN]. The times are whole milliseconds, for which the quotient
    and its floor are exact. *)
Definition daysBetween (from : string) (to : Z) : option Z :=
  match getTime from with
  | Some t => Some ((to - t) / (1000 * 60 * 60 * 24))
  | None => None
  end.

(** What a line of the stale list says about the age of a deal:
    [d.updated_at ? daysBetween(d.updated_at, now) : "?"]. *)
Inductive shown_days : Type :=
  | Days (n : Z)
  | NotANumber
  | QuestionMark.

Definition daysStale (d : PropstackDeal) : shown_days :=
  match updated_at d with
  | Some s =>
      if truthy_string s then
        match daysBetween s now with
        | Some n => Days n
        | None => NotANumber
        end
      else QuestionMark
  | None => QuestionMark
  end.

End Loop.

(** *** Vocabulary of the properties *)

(** The counts of a stage table, added up. *)
Definition sum_counts (table : list (string * stats)) : Z :=
  fold_right (fun entry acc => count (snd entry) + acc) 0 table.

(** The deals of [dealList] that belong to the stage called [key], in
    order. *)
Definition of_stage (names : list (Z * string)) (key : string)
           (dealList : list PropstackDeal) : list PropstackDeal :=
  filter (fun d => String.eqb (stageName names d) key) dealList.

(** The entry a stage table has for [key]. *)
Definition entry_of (key : string) (table : list (string * stats)) : option stats :=
  option_map snd (find (fun entry => String.eqb (fst entry) key) table).

(** A stage table sorts the deals of [dealList]: no stage twice, every entry
    holding exactly the deals of its stage, at least one, and counting them,
    and every deal's stage among the entries. *)
Definition sorts (names : list (Z * string)) (dealList : list PropstackDeal)
           (table : list (string * stats)) : Prop :=
  NoDup (map fst table)
  /\ (forall key st, In (key, st) table ->
        deals st = of_stage names key dealList
        /\ count st = len (deals st)
        /\ deals st <> [])
  /\ (forall d, In d dealList -> In (stageName names d) (map fst table)).

End Buckets.


(* ------------------------------------------------------------------------- *)
(** ** Waiting asked for by the upstream *)

Module Waits.

Import Client.

(** The time the answer to an attempt asks the client to wait through its
    [Retry-After] header, as the timer of the 429 branch takes it. *)
Definition asked {J : Type} (Number : string -> float) (f : fetched J) : Z :=
  match f with
  | NetworkFailure _ => 0
  | Responded res => slept (retry_after_wait Number res)
  end.

End Waits.

(* ------------------------------------------------------------------------- *)
(** ** Joining text: [parts.filter(Boolean).join(sep)] *)

(** [.filter(Boolean)] on an array of [string | null]: the strings that are
    not empty stay. *)
Definition filter_Boolean (parts : list (option string)) : list string :=
  flat_map (fun part => if truthy_ostring part then [nullish part EmptyString] else [])
           parts.

(** [Array.prototype.join] *)
Fixpoint join (sep : string) (parts : list string) : string :=
  match parts with
  | [] => EmptyString
  | s :: more =>
      match more with
      | [] => s
      | _ => (s ++ sep ++ join sep more)%string
      end
  end.

(** [PropstackContact], the attributes the composite tools read. *)
Module Contact.
Record PropstackContact : Type := mk {
  id : Z;
  name : option string;
  first_name : option string;
  last_name : option string
}.
End Contact.

(** [contactName] of composites.ts. *)
Definition contactName (c : Contact.PropstackContact) : string :=
  if negb (String.eqb (fmt (Contact.name c) "none") "none") then
    fmt (Contact.name c) "none"
  else
    let joined :=
      join " " (filter_Boolean [Some (fmt (Contact.first_name c) EmptyString);
                                Some (fmt (Contact.last_name c) EmptyString)]) in
    if truthy_string joined then joined else "Unknown"%string.

(** [PropstackTask]; the tools read its [id]. *)
Module Task.
Record PropstackTask : Type := mk {
  id : Z
}.
End Task.

(** [PropstackDealStage] and [PropstackDealPipeline] with the [position]
    that [smart_lead_intake] sorts the stages by, a whole number. *)
Module PositionedStage.
Record PropstackDealStage : Type := mk {
  id : Z;
  position : option Z
}.
End PositionedStage.

Module PositionedPipeline.
Record PropstackDealPipeline : Type := mk {
  id : Z;
  deal_stages : option (list PositionedStage.PropstackDealStage)
}.
End PositionedPipeline.

(* ------------------------------------------------------------------------- *)
(** ** The tool [smart_lead_intake] *)

Module Intake.

Import FanOut.

(** The arguments of the tool; an optional argument left out is [None]. *)
Module Args.
Record args : Type := mk {
  first_name : string;
  last_name : string;
  phone : option string;
  email : option string;
  source_id : option Z;
  broker_id : option Z;
  notes : option string;
  property_interest : option string;
  property_id : option Z
}.
End Args.

(** The [task] object posted to [/tasks]; a key left out or [undefined] is
    [None]. *)
Module TaskBody.
Record task : Type := mk {
  title : string;
  body : option string;
  is_reminder : option bool;
  due_date : option string;
  remind_at : option string;
  done : option bool;
  client_ids : list Z;
  property_ids : option (list Z);
  broker_id : option Z
}.
End TaskBody.

(** The [client_property] object posted to [/client_properties]. *)
Module ClientProperty.
Record client_property : Type := mk {
  client_id : Z;
  property_id : Z;
  deal_stage_id : Z;
  deal_pipeline_id : Z;
  broker_id : option Z
}.
End ClientProperty.

Import Args.

(** Truthiness of an optional number. *)
Definition truthy_number (n : option Z) : bool :=
  match n with
  | Some n => negb (n =? 0)
  | None => false
  end.

(** A value of the [contactData] object. *)
Inductive field : Type :=
  | Text (s : string)
  | Number (n : Z).

(** One key of an object, set under a condition. *)
Definition key_if {V : Type} (cond : bool) (key : string) (value : option V)
  : list (string * V) :=
  match value with
  | Some v => if cond then [(key, v)] else []
  | None => []
  end.

(** [searchParams] of the dedup search. *)
Definition searchParams (a : args) : list (string * string) :=
  key_if (truthy_ostring (phone a)) "phone_number" (phone a)
  ++ key_if (truthy_ostring (email a)) "email" (email a).

(** [contactData], the keys in the order they are set. *)
Definition contactData (a : args) : list (string * field) :=
  [("first_name"%string, Text (first_name a)); ("last_name"%string, Text (last_name a))]
  ++ key_if (truthy_ostring (phone a)) "phone" (option_map Text (phone a))
  ++ key_if (truthy_ostring (email a)) "email" (option_map Text (email a))
  ++ key_if (truthy_number (source_id a)) "client_source_id"
            (option_map Number (source_id a))
  ++ key_if (truthy_number (broker_id a)) "broker_id" (option_map Number (broker_id a)).

(** The calls the handler makes through the client. *)
Inductive call : Type :=
  | GetContacts (params : list (string * string))
  | PutContact (contactId : Z) (client : list (string * field))
  | PostContact (client : list (string * field))
  | PostTask (task : TaskBody.task)
  | GetDealPipelines
  | PostClientProperty (client_property : ClientProperty.client_property).

(** ["created" | "updated"] *)
Inductive action : Type :=
  | created
  | updated.

(** What the lines of the answer are written from. *)
Record report : Type := mkReport {
  did : action;
  contact : Z;
  note : option (settled Task.PropstackTask);
  deal : option (settled Deal.PropstackDeal);
  reminder : settled Task.PropstackTask
}.

(** What the handler has done so far: the calls it made, in order, and the
    rejections of the posts it started that have no handler yet. *)
Record state : Type := mkState {
  log : list call;
  pending : list error
}.

(** How a computation of the handler breaks off: it throws, which the
    [catch] of the handler gets; or a rejection that has no handler comes in
    while the handler is waiting, which ends the process (what Node does with
    an unhandled rejection when, as here, nothing else is set up). *)
Inductive stop : Type :=
  | Throws (e : error)
  | Ends (reason : error).

(** A computation of the handler: it goes on with a value, or breaks off. *)
Definition run (A : Type) : Type := state -> (A + stop) * state.

Definition ret {A : Type} (x : A) : run A :=
  fun st => (inl x, st).

Definition bind {A B : Type} (m : run A) (k : A -> run B) : run B :=
  fun st =>
    match m st with
    | (inl x, st') => k x st'
    | (inr s, st') => (inr s, st')
    end.

Definition thrown {A : Type} (answer : A + error) : A + stop :=
  match answer with
  | inl v => inl v
  | inr e => inr (Throws e)
  end.

Notation "x <- m ;; k" := (bind m (fun x => k))
  (at level 61, m at next level, right associativity).

Section Promises.

(** Whether a post that was started and is rejected is rejected before the
    call awaited after it is answered: the two requests are under way at the
    same time, and which answer comes in first is not the handler's to
    say. *)
Variable early : bool.

(** [await client.get/post/put(...)]: the call is made and the handler waits
    for the answer. A rejection without a handler that comes in first ends
    the process. *)
Definition await {A : Type} (c : call) (answer : A + error) : run A :=
  fun st =>
    let st' := mkState (log st ++ [c]) (pending st) in
    match pending st with
    | reason :: _ => if early then (inr (Ends reason), st') else (thrown answer, st')
    | [] => (thrown answer, st')
    end.

(** [parallelTasks.push(client.post(...))]: the call is made; what becomes of
    it is looked at after [Promise.allSettled], and until then its rejection
    has no handler. *)
Definition push {A : Type} (c : call) (answer : A + error) : run (settled A) :=
  fun st =>
    (inl (settle answer),
     mkState (log st ++ [c])
             (pending st ++ match answer with
                            | inl _ => []
                            | inr reason => [reason]
                            end)).

(** [await Promise.allSettled(parallelTasks)]: from here on every post that
    was started has its handler. *)
Definition all_settled : run unit :=
  fun st => (inl tt, mkState (log st) []).

End Promises.

(** ["\n\n"] *)
Definition blank_line : string :=
  String "010"%char (String "010"%char EmptyString).

(** [noteBody] *)
Definition noteBody (a : args) : string :=
  join blank_line
       (filter_Boolean
          [notes a;
           if truthy_ostring (property_interest a)
           then Some ("Interest: " ++ nullish (property_interest a) EmptyString)%string
           else None]).

(** The comparator of [deal_stages.sort]:
    [(a.position ?? 0) - (b.position ?? 0)]. *)
Definition by_position (a b : PositionedStage.PropstackDealStage) : Z :=
  nullish (PositionedStage.position a) 0 - nullish (PositionedStage.position b) 0.

(** [pipelines[0]] and
    [firstPipeline?.deal_stages?.sort(...)[0]], when there is such a stage. *)
Definition firstStage (pipelines : list PositionedPipeline.PropstackDealPipeline)
  : option (PositionedPipeline.PropstackDealPipeline
            * PositionedStage.PropstackDealStage) :=
  match pipelines with
  | [] => None
  | firstPipeline :: _ =>
      match PositionedPipeline.deal_stages firstPipeline with
      | None => None
      | Some stages =>
          match Match.sort by_position stages with
          | [] => None
          | stage :: _ => Some (firstPipeline, stage)
          end
      end
  end.

(** The bodies of the three posts of step 3. *)
Definition note_task (a : args) (contactId : Z) : TaskBody.task :=
  TaskBody.mk ("Lead intake: " ++ first_name a ++ " " ++ last_name a)%string
              (Some (noteBody a)) None None None None
              [contactId] None (broker_id a).

Definition deal_body (a : args) (contactId : Z)
           (firstPipeline : PositionedPipeline.PropstackDealPipeline)
           (stage : PositionedStage.PropstackDealStage)
  : ClientProperty.client_property :=
  ClientProperty.mk contactId (nullish (property_id a) 0)
                    (PositionedStage.id stage) (PositionedPipeline.id firstPipeline)
                    (broker_id a).

Definition reminder_task (tomorrow : string) (a : args) (contactId : Z)
  : TaskBody.task :=
  TaskBody.mk ("Follow up: " ++ first_name a ++ " " ++ last_name a)%string
              None (Some true) (Some tomorrow) (Some tomorrow) (Some false)
              [contactId]
              (if truthy_number (property_id a)
               then Some [nullish (property_id a) 0] else None)
              (broker_id a).

Section Handler.

(** What the API answers to the calls of the client. *)
Variable get_contacts :
  list (string * string) -> PropstackPaginatedResponse Contact.PropstackContact + error.
Variable put_contact : Z -> list (string * field) -> Contact.PropstackContact + error.
Variable post_contact : list (string * field) -> Contact.PropstackContact + error.
Variable post_task : TaskBody.task -> Task.PropstackTask + error.
Variable get_deal_pipelines : list PositionedPipeline.PropstackDealPipeline + error.
Variable post_client_property :
  ClientProperty.client_property -> Deal.PropstackDeal + error.

(** [tomorrow.toISOString()], tomorrow at nine. *)
Variable tomorrow : string.

(** What comes in first when a post and an awaited call are under way
    together. *)
Variable early : bool.

(** Step 1, the dedup search: [contactId] and [action] after it. *)
Definition dedup (a : args) : run (option Z * action) :=
  if truthy_ostring (phone a) || truthy_ostring (email a) then
    existing <- await early (GetContacts (searchParams a))
                      (get_contacts (searchParams a)) ;;
    match data existing with
    | Some (found :: _) => ret (Some (Contact.id found), updated)
    | _ => ret (None, created)
    end
  else ret (None, created).

(** Step 2: [if (contactId) put else post]; the [contactId] after it. *)
Definition write_contact (a : args) (contactId : option Z) : run Z :=
  if truthy_number contactId then
    let id := nullish contactId 0 in
    _ <- await early (PutContact id (contactData a)) (put_contact id (contactData a)) ;;
    ret id
  else
    made <- await early (PostContact (contactData a)) (post_contact (contactData a)) ;;
    ret (Contact.id made).

(** The note, when there is something to note. *)
Definition log_note (a : args) (contactId : Z)
  : run (option (settled Task.PropstackTask)) :=
  if truthy_string (noteBody a) then
    n <- push (PostTask (note_task a contactId)) (post_task (note_task a contactId)) ;;
    ret (Some n)
  else ret None.

(** The deal, when a property is named and the first pipeline has a stage. *)
Definition open_deal (a : args) (contactId : Z)
  : run (option (settled Deal.PropstackDeal)) :=
  if truthy_number (property_id a) then
    pipelines <- await early GetDealPipelines get_deal_pipelines ;;
    match firstStage pipelines with
    | Some (firstPipeline, stage) =>
        d <- push (PostClientProperty (deal_body a contactId firstPipeline stage))
                  (post_client_property (deal_body a contactId firstPipeline stage)) ;;
        ret (Some d)
    | None => ret None
    end
  else ret None.

(** The body of the [try]. *)
Definition intake (a : args) : run report :=
  found <- dedup a ;;
  contactId <- write_contact a (fst found) ;;
  n <- log_note a contactId ;;
  d <- open_deal a contactId ;;
  r <- push (PostTask (reminder_task tomorrow a contactId))
            (post_task (reminder_task tomorrow a contactId)) ;;
  _ <- all_settled ;;
  ret (mkReport (snd found) contactId n d r).

(** How a run of the handler ends: with the answer the handler returns, if it
    gets to return one, and with the rejection that is left without a
    handler, if there is one; that one ends the process. *)
Record ending : Type := mkEnding {
  answer : option (tool_result report);
  unhandled : option error
}.

(** The handler: how it ends, and the calls it made on the way. *)
Definition smart_lead_intake (a : args) : ending * list call :=
  match intake a (mkState [] []) with
  | (inl r, st) => (mkEnding (Some (textResult r)) (hd_error (pending st)), log st)
  | (inr (Throws e), st) =>
      (mkEnding (Some (errorResult "Lead intake" e)) (hd_error (pending st)), log st)
  | (inr (Ends reason), st) => (mkEnding None (Some reason), log st)
  end.

(** The call [c] was answered with the error [e]. *)
Definition failed_with (c : call) (e : error) : Prop :=
  match c with
  | GetContacts params => get_contacts params = inr e
  | PutContact contactId client => put_contact contactId client = inr e
  | PostContact client => post_contact client = inr e
  | PostTask task => post_task task = inr e
  | GetDealPipelines => get_deal_pipelines = inr e
  | PostClientProperty client_property => post_client_property client_property = inr e
  end.

End Handler.

(** *** Vocabulary *)

Definition is_contact_write (c : call) : bool :=
  match c with
  | PutContact _ _ | PostContact _ => true
  | _ => false
  end.

Definition is_post (c : call) : bool :=
  match c with
  | PostTask _ | PostClientProperty _ => true
  | _ => false
  end.

Definition is_reminder_post (c : call) : bool :=
  match c with
  | PostTask t => nullish (TaskBody.is_reminder t) false
  | _ => false
  end.

(** The contact a post is linked to. *)
Definition linked_contacts (c : call) : list Z :=
  match c with
  | PostTask t => TaskBody.client_ids t
  | PostClientProperty cp => [ClientProperty.client_id cp]
  | _ => []
  end.

End Intake.

(* ------------------------------------------------------------------------- *)
(** ** Error messages: [extractIdFromPath], [formatError], [errorResult] *)

Module Helpers.

(** [\d] *)
Definition is_digit (c : ascii) : bool :=
  let n := nat_of_ascii c in
  (Nat.leb 48 n && Nat.leb n 57)%bool.

(** [\/] *)
Definition is_slash (c : ascii) : bool := Ascii.eqb c "/"%char.

(** [\d*] at the head of [s], as long as it gets, and what follows it. *)
Fixpoint digits (s : string) : string * string :=
  match s with
  | EmptyString => (EmptyString, EmptyString)
  | String c s' =>
      if is_digit c
      then (String c (fst (digits s')), snd (digits s'))
      else (EmptyString, s)
  end.

(** [(?:\/|$)] at the head of [s]. *)
Definition at_boundary (s : string) : bool :=
  match s with
  | EmptyString => true
  | String c _ => is_slash c
  end.

(** The pattern [\/(\d+)(?:\/|$)] tried at the head of [s]; the answer is the
    capture group. The digits are taken greedily, and giving some back cannot
    help: what follows a shorter run is a digit, not a slash or the end. *)
Definition match_here (s : string) : option string :=
  match s with
  | EmptyString => None
  | String c s' =>
      if is_slash c
      then if truthy_string (fst (digits s')) && at_boundary (snd (digits s'))
           then Some (fst (digits s'))
           else None
      else None
  end.

(** [extractIdFromPath]: [exec] tries the pattern at every position from the
    left, [match?.[1] ?? null] is the capture group of the first success. *)
Fixpoint extractIdFromPath (path : string) : option string :=
  match match_here path with
  | Some id => Some id
  | None =>
      match path with
      | EmptyString => None
      | String _ rest => extractIdFromPath rest
      end
  end.

(** What a [catch] may hold, as far as [formatError] tells the cases apart:
    a [PropstackError], a [TypeError], another [Error], or a value that is
    not an [Error], shown by [String(err)]. *)
Inductive caught : Type :=
  | APropstackError (status : Z) (statusText detail path : string)
  | ATypeError (message : string)
  | AnError (message : string)
  | NotAnError (shown : string).

Section Messages.

(** [parse422]; how it reads the JSON of the body is not modelled. *)
Variable parse422 : string -> string.

(** [String.prototype.toLowerCase] *)
Variable toLowerCase : string -> string.

Definition invalid_key : string :=
  "Invalid API key. Check your PROPSTACK_API_KEY. Manage keys at crm.propstack.de/app/admin/api_keys".

Definition no_permission : string :=
  "Insufficient permissions. Check API key permissions in Propstack admin.".

Definition rate_limited : string :=
  "Rate limited by Propstack API. Please try again in a moment.".

(** [formatError] *)
Definition formatError (err : caught) : string :=
  match err with
  | APropstackError status _ detail path =>
      let id := extractIdFromPath path in
      if status =? 401 then invalid_key
      else if status =? 403 then no_permission
      else if status =? 404 then
        if truthy_ostring id
        then ("Not found. The resource with ID " ++ nullish id EmptyString
              ++ " does not exist (" ++ path ++ ").")%string
        else ("Not found (" ++ path ++ ").")%string
      else if status =? 422 then parse422 detail
      else if status =? 429 then rate_limited
      else ("Propstack API error " ++ decimal status ++ ": " ++ detail)%string
  | ATypeError message =>
      if includes message "fetch" || includes message "ECONNREFUSED"
         || includes message "ENOTFOUND"
      then ("Network error: could not reach Propstack API. Check your internet connection. ("
            ++ message ++ ")")%string
      else message
  | AnError message => message
  | NotAnError shown => shown
  end.

(** [errorResult]: the text of the answer, and whether [isError] is set. *)
Definition errorResult (entity : string) (err : caught) : string * bool :=
  match err with
  | APropstackError status _ detail path =>
      let id := extractIdFromPath path in
      if status =? 401 then (invalid_key, false)
      else if status =? 403 then (no_permission, false)
      else if status =? 404 then
        if truthy_ostring id
        then ((entity ++ " not found. No " ++ toLowerCase entity ++ " with ID "
               ++ nullish id EmptyString ++ " exists.")%string, false)
        else ((entity ++ " not found.")%string, false)
      else if status =? 422 then (parse422 detail, false)
      else if status =? 429 then (rate_limited, false)
      else (("Propstack API error " ++ decimal status ++ ": " ++ detail)%string, false)
  | _ => (("Error: " ++ formatError err)%string, true)
  end.

End Messages.

(** *** Vocabulary *)

Fixpoint all_digits (s : string) : bool :=
  match s with
  | EmptyString => true
  | String c s' => is_digit c && all_digits s'
  end.

Fixpoint no_digit (s : string) : bool :=
  match s with
  | EmptyString => true
  | String c s' => negb (is_digit c) && no_digit s'
  end.

(** The head of [s] is not a digit. *)
Definition starts_without_digit (s : string) : bool :=
  match s with
  | EmptyString => true
  | String c _ => negb (is_digit c)
  end.

End Helpers.

(* ------------------------------------------------------------------------- *)
(** ** The query string: [PropstackClient.buildUrl] *)

Module Url.

(** A value of [params], shown as [String(value)] shows it: left
    [undefined], one value, or an array. *)
Inductive value : Type :=
  | Undefined
  | Scalar (shown : string)
  | Array (items : list string).

(** [url.searchParams]: the name-value pairs of the query, in order. *)
Definition query : Type := list (string * string).

(** [URLSearchParams.append] *)
Definition append (q : query) (name v : string) : query :=
  q ++ [(name, v)].

Definition delete (q : query) (name : string) : query :=
  filter (fun kv => negb (String.eqb (fst kv) name)) q.

(** [URLSearchParams.set]: the first pair of that name gets the value and the
    others of that name go; without such a pair, one is appended. *)
Fixpoint set (q : query) (name v : string) : query :=
  match q with
  | [] => [(name, v)]
  | kv :: q' =>
      if String.eqb (fst kv) name
      then (fst kv, v) :: delete q' name
      else kv :: set q' name v
  end.

(** [URLSearchParams.getAll] *)
Definition getAll (q : query) (name : string) : list string :=
  map snd (filter (fun kv => String.eqb (fst kv) name) q).

(** The body of the loop over [Object.entries(params)]. *)
Definition add_param (q : query) (entry : string * value) : query :=
  match snd entry with
  | Undefined => q
  | Array items =>
      fold_left (fun q item => append q (fst entry ++ "[]")%string item) items q
  | Scalar shown => set q (fst entry) shown
  end.

(** [buildUrl]: the query of the URL it builds. [searchParams] is the query
    that [baseUrl] and [path] bring along, [params] the entries of the object
    in the order of [Object.entries]. *)
Definition buildUrl (searchParams : query) (params : option (list (string * value)))
  : query :=
  match params with
  | Some entries => fold_left add_param entries searchParams
  | None => searchParams
  end.

(** *** Vocabulary *)

(** The name an entry writes under, when it writes. *)
Definition target (entry : string * value) : option string :=
  match snd entry with
  | Undefined => None
  | Scalar _ => Some (fst entry)
  | Array _ => Some (fst entry ++ "[]")%string
  end.

Definition is_scalar (entry : string * value) : bool :=
  match snd entry with
  | Scalar _ => true
  | _ => false
  end.

End Url.

(* ------------------------------------------------------------------------- *)
(** ** Inputs of the worked examples *)

Module Examples.

Import Intake.

Local Open Scope string_scope.

(** One pipeline whose only stage is called like a member of
    [Object.prototype]. *)
Definition odd_pipelines : list DealPipeline.PropstackDealPipeline :=
  [DealPipeline.mk 1 (Some "Verkauf") (Some [DealStage.mk 3 (Some "constructor")])].

(** An upstream with a single deal, in stage 3. *)
Definition one_deal (page : Z) : PropstackPaginatedResponse Deal.PropstackDeal + error :=
  Scenario.upstream [Scenario.first_deal "2026-10-13T12:00:00.000Z"] page 100.

(** A lead who called about property 71, for broker 4. *)
Definition caller : Args.args :=
  Args.mk "Ada" "Lovelace" (Some "+49 30 1234") None None (Some 4)
          (Some "Called about the flat") None (Some 71).

(** A pipeline whose stages come in no particular order; the last one has no
    position. *)
Definition sales : PositionedPipeline.PropstackDealPipeline :=
  PositionedPipeline.mk 1 (Some [PositionedStage.mk 5 (Some 2);
                                 PositionedStage.mk 4 (Some 1);
                                 PositionedStage.mk 6 None]).

(** An API that knows nobody, creates contact 9 and accepts everything; and
    one that knows contact 12 under the number of the caller. *)
Definition nobody (params : list (string * string))
  : PropstackPaginatedResponse Contact.PropstackContact + error :=
  inl (mkPage (Some []) None).

Definition known (params : list (string * string))
  : PropstackPaginatedResponse Contact.PropstackContact + error :=
  inl (mkPage (Some [Contact.mk 12 (Some "Ada Lovelace") None None]) (Some 1)).

Definition updates (contactId : Z) (client : list (string * field))
  : Contact.PropstackContact + error :=
  inl (Contact.mk contactId None None None).

Definition creates (client : list (string * field)) : Contact.PropstackContact + error :=
  inl (Contact.mk 9 None None None).

Definition files (task : TaskBody.task) : Task.PropstackTask + error :=
  inl (Task.mk 31).

(** An API that files reminders but turns notes down. *)
Definition unprocessable : error :=
  PropstackError 422 "Unprocessable Entity" "" "/tasks".

Definition files_reminders_only (task : TaskBody.task) : Task.PropstackTask + error :=
  if nullish (TaskBody.is_reminder task) false
  then inl (Task.mk 31)
  else inr unprocessable.

Definition opens (body : ClientProperty.client_property) : Deal.PropstackDeal + error :=
  inl (Deal.mk 77 (Some (ClientProperty.client_id body))
               (Some (ClientProperty.property_id body))
               (Some (ClientProperty.deal_stage_id body)) None None None None).

Definition tomorrow : string := "2026-11-03T08:00:00.000Z".

(** The intake of the caller against that API, with the pipelines as given;
    no answer overtakes another. *)
Definition intake_with
           (contacts : list (string * string)
                       -> PropstackPaginatedResponse Contact.PropstackContact + error)
           (pipelines : list PositionedPipeline.PropstackDealPipeline + error)
  : ending * list call :=
  smart_lead_intake contacts updates creates files pipelines opens tomorrow false caller.

(** The same intake when notes are turned down, and the answer to the note
    comes in before the pipelines do or not. *)
Definition intake_without_notes (early : bool) : ending * list call :=
  smart_lead_intake nobody updates creates files_reminders_only (inl [sales]) opens
                    tomorrow early caller.

Definition server_error : error :=
  PropstackError 500 "Internal Server Error" "" "/deal_pipelines".

(** The parameters of a search: a page, two statuses, and a filter left
    out. *)
Definition search_params : list (string * Url.value) :=
  [("page", Url.Scalar "2"); ("status", Url.Array ["new"; "won"]); ("q", Url.Undefined)].

End Examples.

(* ========================================================================= *)
(** * Properties *)

(* ------------------------------------------------------------------------- *)
(** ** Request executor *)

Section ClientFacts.

Import Client.

Variable J : Type.
Variable Number : string -> float.

Local Abbreviation transport := (transport J).
Local Abbreviation request := (request J Number).

Lemma request_first_four path w :
  request path w = request path (first_four (w 0%nat) (w 1%nat) (w 2%nat) (w 3%nat)).
Proof. reflexivity. Qed.

(** Splits a run along the branches the loop takes. *)
Ltac explore :=
  unfold Client.request, attempt_range;
  change (map Z.of_nat (seq 0 (Z.to_nat (MAX_RETRIES + 1)))) with [0; 1; 2; 3];
  cbn [attempts];
  change (Z.to_nat 0) with 0%nat; change (Z.to_nat 1) with 1%nat;
  change (Z.to_nat 2) with 2%nat; change (Z.to_nat 3) with 3%nat;
  cbn [first_four];
  repeat (unfold after, backoff, retry_after_wait, MAX_RETRIES, RETRY_BASE_MS;
          cbn;
          rewrite ?Bool.andb_true_r, ?Bool.andb_false_r;
          match goal with
          | H : ?b = true |- context [if ?b then _ else _] => rewrite H
          | H : ?b = false |- context [if ?b then _ else _] => rewrite H
          | H : ok ?r = _ |- context [negb (ok ?r)] => rewrite H
          | H : retryAfter ?r = _ |- context [match retryAfter ?r with Some _ => _ | None => _ end] =>
              rewrite H
          | |- context [if ?b then _ else _] => destruct b eqn:?
          | |- context [match json ?r with inl _ => _ | inr _ => _ end] =>
              destruct (json r) eqn:?
          | |- context [match retryAfter ?r with Some _ => _ | None => _ end] =>
              destruct (retryAfter r) eqn:?
          end);
  unfold after, backoff, retry_after_wait, MAX_RETRIES, RETRY_BASE_MS;
  cbn.

(** Closes a leaf of the case analysis. *)
Ltac leaf :=
  cbn [truthy_ostring transient no_retry_after] in *;
  try reflexivity; try congruence; try lia.

(** Names the four outcomes and splits on each being a failure of [fetch] or
    an answer. *)
Ltac four_outcomes w :=
  rewrite (request_first_four _ w);
  destruct (w 0%nat) as [m0|r0] eqn:E0; destruct (w 1%nat) as [m1|r1] eqn:E1;
  destruct (w 2%nat) as [m2|r2] eqn:E2; destruct (w 3%nat) as [m3|r3] eqn:E3.

(** Puts the facts at hand about statuses into the boolean form the code
    tests. *)
Ltac boolify :=
  repeat match goal with
         | H : status _ = 429 |- _ => apply Z.eqb_eq in H
         | H : status _ <> 429 |- _ => apply Z.eqb_neq in H
         | H : names_retry_after _ _ |- _ =>
             let res := fresh "res" in
             let Hf := fresh "Hf" in
             destruct H as (res & Hf & ? & ? & ?);
             first [ discriminate Hf | injection Hf as <- ]
         | H : Responded _ = Responded _ |- _ => injection H as <-
         | H : NetworkFailure _ = Responded _ |- _ => discriminate H
         | H : Responded _ = NetworkFailure _ |- _ => discriminate H
         | H : andb _ _ = true |- _ => apply Bool.andb_true_iff in H; destruct H
         | H : negb _ = true |- _ => apply Bool.negb_true_iff in H
         end.

(** Closes the goal that a returned value stems from the answer to attempt
    [n]. *)
Ltac returned_at n :=
  exists n; eexists; split; [lia |]; split; [eassumption |]; split;
  [ apply Bool.negb_false_iff; assumption
  | first [ assumption | apply Z.eqb_eq; assumption ] ].


(** C7: the loop goes round again only after a transient failure (a rejected
    [fetch] or a 429 answer); any other non-2xx answer is thrown at the attempt
    that receives it, with no further call of [fetch] (so a first attempt that
    fails this way is the only one); when all four attempts fail transiently
    the error of the last one is thrown; and a value is returned only for a
    2xx answer, the empty one only for a 204. *)
Theorem request_retry_policy (path : string) (w : transport) :
  (forall n, (S n < fetches (snd (request path w)))%nat -> transient (w n) = true)
  /\ (forall n res,
        (n <= 3)%nat ->
        (forall k, (k < n)%nat -> transient (w k) = true) ->
        w n = Responded res -> ok res = false -> status res <> 429 ->
        fst (request path w)
        = Thrown (PropstackError (status res) (statusText res) (text res) path)
        /\ fetches (snd (request path w)) = S n)
  /\ (transient_upto w 3 ->
        fst (request path w) = Thrown (error_of path (w 3%nat))
        /\ fetches (snd (request path w)) = 4%nat)
  /\ (forall v, fst (request path w) = Returned v ->
        exists n res,
          (n <= 3)%nat /\ w n = Responded res /\ ok res = true /\
          match v with
          | None => status res = 204
          | Some p => json res = inl p
          end).
Proof.
  split; [| split; [| split]].
  - intros n.
    four_outcomes w; explore; intros Hlt.
    all: destruct n as [|[|[|n]]]; try (exfalso; lia); cbn.
    all: try reflexivity; try assumption; try congruence.
    all: rewrite ?E0, ?E1, ?E2, ?E3; cbn; try reflexivity; try assumption.
  - intros n res Hn Hprev Hw Hok H429.
    assert (H0 : (1 <= n)%nat -> transient (w 0%nat) = true) by (intros; apply Hprev; lia).
    assert (H1 : (2 <= n)%nat -> transient (w 1%nat) = true) by (intros; apply Hprev; lia).
    assert (H2 : (3 <= n)%nat -> transient (w 2%nat) = true) by (intros; apply Hprev; lia).
    clear Hprev.
    destruct n as [|[|[|[|n]]]]; try lia.
    all: repeat match goal with
                | H : (_ <= _)%nat -> _ |- _ =>
                    first [ specialize (H ltac:(lia)) | clear H ]
                end.
    all: four_outcomes w; boolify; cbn [transient] in *; boolify.
    all: explore; split; reflexivity.
  - intros Hall.
    pose proof (Hall 0%nat ltac:(lia)) as H0. pose proof (Hall 1%nat ltac:(lia)) as H1.
    pose proof (Hall 2%nat ltac:(lia)) as H2. pose proof (Hall 3%nat ltac:(lia)) as H3.
    clear Hall.
    four_outcomes w; cbn [transient] in *; explore; split; try reflexivity.
    all: apply Z.eqb_eq in H3; unfold ok in *; lia.
  - intros v.
    four_outcomes w; explore; intros Hv; try discriminate Hv.
    all: injection Hv as <-.
    all: first [ returned_at 0%nat | returned_at 1%nat | returned_at 2%nat
               | returned_at 3%nat ].
Qed.

(** C8: one call of [request] calls [fetch] at most four times (the first
    attempt and three retries); when all four attempts fail transiently and no
    answer carries a [Retry-After] header, all four calls are made and the
    timers awaited add up to 1000 + 2000 + 4000 ms, the three computed
    backoffs. *)
Theorem request_attempt_budget (path : string) (w : transport) :
  (fetches (snd (request path w)) <= 4)%nat
  /\ (transient_upto w 3 ->
      (forall k, (k <= 2)%nat -> no_retry_after (w k) = true) ->
      fetches (snd (request path w)) = 4%nat
      /\ delays (snd (request path w)) = [0; 1000; 2000; 4000]
      /\ slept (snd (request path w)) = 1000 + 2000 + 4000
      /\ 7000 <= slept (snd (request path w))).
Proof.
  split.
  - four_outcomes w; explore; lia.
  - intros Hall Hno.
    pose proof (Hall 3%nat ltac:(lia)) as H3.
    pose proof (Hno 0%nat ltac:(lia)) as H0. pose proof (Hno 1%nat ltac:(lia)) as H1.
    pose proof (Hno 2%nat ltac:(lia)) as H2.
    clear Hall Hno.
    assert (Hrun : snd (request path w)
                   = [Fetch; Sleep 1000; Fetch; Sleep 2000; Fetch; Sleep 4000; Fetch]).
    { four_outcomes w; cbn [transient no_retry_after truthy_ostring] in *; boolify.
      all: explore; leaf. }
    rewrite Hrun. cbn. repeat split; lia.
Qed.

End ClientFacts.



Lemma request_retry_policy_witness :
  fst (Client.request string Scenario.Number "/units/7" Scenario.not_found)
  = Client.Thrown (PropstackError 404 "Not Found" "" "/units/7")
  /\ Client.fetches (snd (Client.request string Scenario.Number "/units/7"
                                         Scenario.not_found)) = 1%nat
  /\ fst (Client.request string Scenario.Number "/units/7" Scenario.always_throttled)
     = Client.Thrown (PropstackError 429 "Too Many Requests" "" "/units/7").
Proof.
  destruct (request_retry_policy string Scenario.Number "/units/7"%string Scenario.not_found)
    as (_ & Hstop & _ & _).
  destruct (Hstop 0%nat Scenario.missing) as (Hthrown & Hcalls).
  - lia.
  - intros k Hk. lia.
  - reflexivity.
  - reflexivity.
  - discriminate.
  - destruct (request_retry_policy string Scenario.Number "/units/7"%string
                Scenario.always_throttled) as (_ & _ & Hexhausted & _).
    destruct Hexhausted as (Hlast & _).
    + intros k Hk. reflexivity.
    + split; [exact Hthrown | split; [exact Hcalls | exact Hlast]].
Defined.

Lemma request_attempt_budget_witness :
  Client.fetches (snd (Client.request string Scenario.Number "/units/7"
                                      Scenario.always_throttled)) = 4%nat
  /\ 7000 <= Client.slept (snd (Client.request string Scenario.Number "/units/7"
                                               Scenario.always_throttled)).
Proof.
  destruct (request_attempt_budget string Scenario.Number "/units/7"%string
              Scenario.always_throttled) as (_ & Hexhausted).
  destruct Hexhausted as (Hcalls & _ & _ & Hslept).
  - intros k Hk. reflexivity.
  - intros k Hk. reflexivity.
  - split; [exact Hcalls | exact Hslept].
Defined.

(* ------------------------------------------------------------------------- *)
(** ** Scoring engine *)

Section ScoringFacts.

Import Property SearchProfile Match.

Variable unwrapNumber : option float -> option float.
Variable toLowerCase : string -> string.

Local Abbreviation available := (available unwrapNumber).
Local Abbreviation guard := (guard unwrapNumber).
Local Abbreviation block := (block unwrapNumber toLowerCase).

Lemma truthy_string_iff (s : string) : truthy_string s = true <-> s <> EmptyString.
Proof.
  unfold truthy_string. rewrite Bool.negb_true_iff.
  destruct (String.eqb_spec s EmptyString); split; congruence.
Qed.

Lemma truthy_fmt_iff (v : option string) :
  truthy_string (fmt v EmptyString) = true <-> exists s, v = Some s /\ s <> EmptyString.
Proof.
  unfold fmt. destruct v as [s|].
  - destruct (String.eqb_spec s EmptyString) as [->|Hne].
    + split; [discriminate | intros (s' & [= <-] & H); congruence].
    + rewrite truthy_string_iff. split; [eauto | intros _; assumption].
  - split; [discriminate | intros (s & H & _); discriminate].
Qed.

Lemma has_length_iff {A : Type} (x : option (list A)) :
  has_length x = true <-> exists a l, x = Some (a :: l).
Proof.
  destruct x as [[|a l]|]; cbn; split; try discriminate; eauto.
  all: intros (a' & l' & H); discriminate.
Qed.

Lemma not_null_iff {A : Type} (x : option A) : not_null x = true <-> x <> None.
Proof. destruct x; cbn; split; congruence. Qed.

(** What [judge] does to the two counters. *)
Lemma judge_counters c w pass t :
  t_maxScore (judge c w pass t) = t_maxScore t + w
  /\ (t_score (judge c w pass t) = t_score t + w
      \/ t_score (judge c w pass t) = t_score t).
Proof. destruct pass; cbn; auto. Qed.

Lemma truthy_ostring_iff (o : option string) :
  truthy_ostring o = true <-> exists s, o = Some s /\ s <> EmptyString.
Proof.
  destruct o as [s|]; cbn.
  - rewrite truthy_string_iff. split; [eauto | intros (s' & [= <-] & H); assumption].
  - split; [discriminate | intros (s & H & _); discriminate].
Qed.

(** [from !== null || to !== null] holds for a range with a number in it, and
    for one with a bound left out. *)
Lemma isnt_null_iff (from to : nullable float) :
  isnt_null from || isnt_null to = true
  <-> names_a_bound (from, to) \/ leaves_out (from, to).
Proof.
  unfold names_a_bound, leaves_out. cbn [fst snd].
  destruct from as [| |lo], to as [| |hi]; cbn; split; intros H;
    try reflexivity; try discriminate;
    try (right; left; reflexivity); try (right; right; reflexivity);
    try (left; left; eexists; reflexivity);
    try (left; right; eexists; reflexivity).
  destruct H as [[(x & H) | (x & H)] | [H | H]]; discriminate.
Qed.

(** A bound left out makes no constraint, it only opens the guard. *)
Lemma inRange_open (from to : nullable float) (v : float) :
  ~ names_a_bound (from, to) -> inRange from to v = true.
Proof.
  unfold names_a_bound. cbn [fst snd]. intros H.
  destruct from, to; cbn; try reflexivity; exfalso; apply H; eauto.
Qed.

(** When the guard of a block holds. *)
Lemma guard_iff p sp c :
  guard p sp c = true
  <-> (specified sp c \/ exists range, bounds sp c = Some range /\ leaves_out range)
      /\ available p c.
Proof.
  destruct c; cbn [guard specified available bounds];
    rewrite Bool.andb_true_iff, ?isnt_null_iff, ?not_null_iff,
      ?truthy_ostring_iff, ?truthy_fmt_iff, ?has_length_iff.
  all: split; intros (H & Hp); (split; [| exact Hp]).
  all: try (left; exact H).
  all: try (destruct H as [H | (range & [=] & _)]; exact H).
  all: try (destruct H as [H | H]; [left; exact H | right; eexists; split; [reflexivity | exact H]]).
  all: destruct H as [H | (range & [= <-] & H)]; [left | right]; exact H.
Qed.

Lemma guard_declared p sp c :
  declares sp c -> (guard p sp c = true <-> specified sp c /\ available p c).
Proof.
  intros Hd. rewrite guard_iff. split; intros (H & Hp); (split; [| exact Hp]).
  - destruct H as [H | (range & Hr & Hl)]; [exact H | destruct (Hd range Hr Hl)].
  - left. exact H.
Qed.

(** Every block is: nothing when its guard fails, [judge] with the weight of
    the dimension when it holds. *)
Lemma block_by_guard p sp c t :
  exists pass,
    block p sp c t
    = if guard p sp c then judge c (weight c) pass t else t.
Proof.
  destruct c; cbn [Match.block Match.guard weight].
  - unfold marketing_type_block.
    destruct (SearchProfile.marketing_type sp) as [a|], (Property.marketing_type p) as [b|];
      cbn [truthy_ostring]; try (exists true; rewrite ?Bool.andb_false_r; reflexivity).
    exists (String.eqb a b). reflexivity.
  - unfold city_block. cbv zeta. eexists. reflexivity.
  - unfold price_block, range_block. cbv zeta.
    destruct (unwrapNumber (Property.price p)) as [v|]; cbn [not_null];
      eexists; rewrite ?Bool.andb_true_r, ?Bool.andb_false_r; reflexivity.
  - unfold rent_block, range_block. cbv zeta.
    destruct (unwrapNumber (Property.base_rent p)) as [v|]; cbn [not_null];
      eexists; rewrite ?Bool.andb_true_r, ?Bool.andb_false_r; reflexivity.
  - unfold rooms_block, range_block. cbv zeta.
    destruct (unwrapNumber (Property.number_of_rooms p)) as [v|]; cbn [not_null];
      eexists; rewrite ?Bool.andb_true_r, ?Bool.andb_false_r; reflexivity.
  - unfold space_block, range_block. cbv zeta.
    destruct (unwrapNumber (Property.living_space p)) as [v|]; cbn [not_null];
      eexists; rewrite ?Bool.andb_true_r, ?Bool.andb_false_r; reflexivity.
  - unfold rs_type_block. cbv zeta. eexists. reflexivity.
  Unshelve. all: exact true.
Qed.

(** The range blocks, by dimension. *)
Lemma range_block_of p sp c t lo hi :
  bounds sp c = Some (lo, hi) ->
  block p sp c t = range_block unwrapNumber c (weight c) lo hi (attribute p c) t.
Proof. destruct c; intros [= <- <-]; reflexivity. Qed.

Lemma weight_pos c : 0 < weight c.
Proof. destruct c; cbn; lia. Qed.

(** C2: for a dimension whose bounds the profile declares (each a number or
    [null]; the dimensions that are no range have none), the dimension adds
    its weight to [maxScore] (and to [score] or not) exactly when the
    criteria-set names a constraint for it and the property has a value for
    it, and a dimension missing on either side leaves the whole tally as it
    was. A range dimension of which the profile leaves a bound out and names
    no number is not specified, yet whenever the property has the value the
    block counts it as a match: [score] and [maxScore] both grow by the
    weight. The tally of a profile is the seven dimensions applied in turn to
    the empty tally. *)
Theorem absent_bounds_are_scored
        (p : PropstackProperty) (sp : PropstackSearchProfile)
        (c : criterion) (t : tally) :
  (declares sp c ->
     (specified sp c /\ available p c ->
        t_maxScore (block p sp c t) = t_maxScore t + weight c
        /\ (t_score (block p sp c t) = t_score t + weight c
            \/ t_score (block p sp c t) = t_score t))
     /\ (~ (specified sp c /\ available p c) -> block p sp c t = t)
     /\ (t_maxScore (block p sp c t) = t_maxScore t + weight c
         <-> specified sp c /\ available p c))
  /\ (forall range v,
        bounds sp c = Some range ->
        leaves_out range ->
        ~ names_a_bound range ->
        unwrapNumber (attribute p c) = Some v ->
        ~ specified sp c
        /\ available p c
        /\ block p sp c t
           = mkTally (t_score t + weight c) (t_maxScore t + weight c)
                     (t_matches t ++ [c]) (t_mismatches t))
  /\ score_profile unwrapNumber toLowerCase p sp
     = fold_left (fun acc d => block p sp d acc) dimensions start.
Proof.
  pose proof (weight_pos c) as Hw.
  split; [| split; [| reflexivity]].
  - intros Hd. rewrite <- (guard_declared p sp c Hd).
    destruct (block_by_guard p sp c t) as (pass & ->).
    destruct (guard p sp c) eqn:Hg.
    + pose proof (judge_counters c (weight c) pass t) as (Hm & Hs).
      repeat split; auto; congruence.
    + repeat split; try congruence; try reflexivity.
      intros H; lia.
  - intros [lo hi] v Hb Hl Hn Hv.
    rewrite (range_block_of p sp c t lo hi Hb).
    unfold range_block. cbv zeta. rewrite Hv.
    assert (Hg : isnt_null lo || isnt_null hi = true)
      by (apply isnt_null_iff; right; exact Hl).
    rewrite Hg, (inRange_open lo hi v Hn).
    split; [| split; [| reflexivity]].
    + destruct c; cbn [bounds] in Hb; try discriminate;
        injection Hb as <- <-; exact Hn.
    + destruct c; cbn [bounds] in Hb; try discriminate;
        cbn [Match.available attribute] in *; congruence.
Qed.

End ScoringFacts.

Lemma absent_bounds_are_scored_witness :
  Match.t_maxScore
    (Match.block Scenario.plain lower_ascii Scenario.reference Scenario.buyer
                 Match.Price Match.start)
  = 2
  /\ Match.block Scenario.plain lower_ascii Scenario.reference Scenario.renter_with_nulls
                 Match.Price Match.start
     = Match.start
  /\ Match.block Scenario.plain lower_ascii Scenario.reference Scenario.renter
                 Match.Price Match.start
     = Match.mkTally 2 2 [Match.Price] [].
Proof.
  destruct (absent_bounds_are_scored Scenario.plain lower_ascii Scenario.reference
              Scenario.buyer Match.Price Match.start) as (Hboth & _).
  destruct (absent_bounds_are_scored Scenario.plain lower_ascii Scenario.reference
              Scenario.renter_with_nulls Match.Price Match.start) as (Hnull & _).
  destruct (absent_bounds_are_scored Scenario.plain lower_ascii Scenario.reference
              Scenario.renter Match.Price Match.start) as (_ & Habsent & _).
  split; [| split].
  - apply Hboth.
    + intros range [= <-] [H | H]; discriminate.
    + split; [left; eexists; reflexivity | discriminate].
  - apply Hnull.
    + intros range [= <-] [H | H]; discriminate.
    + intros ([(x & H) | (x & H)] & _); discriminate.
  - apply (Habsent (Undefined, Undefined) 350000%float).
    + reflexivity.
    + left; reflexivity.
    + intros [(x & H) | (x & H)]; discriminate.
    + reflexivity.
Defined.

Section RankingFacts.

Import Property SearchProfile Match.

Variable unwrapNumber : option float -> option float.
Variable toLowerCase : string -> string.

Local Abbreviation scores := (scores unwrapNumber toLowerCase).

Lemma compare_ranks a b : Match.compare a b <= 0 <-> ranks_before a b.
Proof.
  unfold Match.compare, ranks_before, len.
  destruct (Z.eqb_spec (score b - score a) 0); lia.
Qed.

Lemma compare_total a b : ~ Match.compare a b <= 0 -> Match.compare b a <= 0.
Proof.
  unfold Match.compare, len.
  destruct (Z.eqb_spec (score b - score a) 0), (Z.eqb_spec (score a - score b) 0); lia.
Qed.

Lemma ranks_before_trans a b c : ranks_before a b -> ranks_before b c -> ranks_before a c.
Proof. unfold ranks_before. lia. Qed.

Lemma insert_perm {A : Type} (cmp : A -> A -> Z) x l :
  Permutation (x :: l) (insert cmp x l).
Proof.
  induction l as [|y l IH]; cbn.
  - apply Permutation_refl.
  - destruct (cmp x y <=? 0).
    + apply Permutation_refl.
    + eapply perm_trans; [apply perm_swap | apply perm_skip, IH].
Qed.

Lemma sort_perm {A : Type} (cmp : A -> A -> Z) l : Permutation l (sort cmp l).
Proof.
  induction l as [|x l IH]; cbn.
  - apply perm_nil.
  - eapply perm_trans; [apply perm_skip, IH | apply insert_perm].
Qed.

Lemma insert_sorted x l :
  StronglySorted ranks_before l -> StronglySorted ranks_before (insert Match.compare x l).
Proof.
  induction 1 as [|y l Hs IH Hall]; cbn.
  - repeat constructor.
  - destruct (Z.leb_spec (Match.compare x y) 0) as [Hle|Hgt].
    + apply compare_ranks in Hle.
      constructor; [constructor; assumption |].
      constructor; [assumption |].
      eapply Forall_impl; [| exact Hall].
      intros z Hz. eapply ranks_before_trans; eassumption.
    + assert (Hyx : ranks_before y x) by (apply compare_ranks, compare_total; lia).
      constructor; [assumption |].
      eapply Permutation_Forall; [apply insert_perm |].
      constructor; assumption.
Qed.

Lemma sort_sorted l : StronglySorted ranks_before (sort Match.compare l).
Proof.
  induction l as [|x l IH]; cbn.
  - constructor.
  - apply insert_sorted, IH.
Qed.

Lemma firstn_sorted {A : Type} (R : A -> A -> Prop) n l :
  StronglySorted R l -> StronglySorted R (firstn n l).
Proof.
  intros H. revert n. induction H as [|x l Hs IH Hall]; intros [|n]; cbn;
    try constructor.
  - apply IH.
  - apply Forall_forall. intros y Hy.
    rewrite Forall_forall in Hall. apply Hall.
    rewrite <- (firstn_skipn n l). apply in_or_app. now left.
Qed.

Lemma judge_within c w pass t : 0 <= w -> within t -> within (judge c w pass t).
Proof. unfold within. destruct pass; cbn; lia. Qed.

Lemma block_within p sp c t :
  within t -> within (block unwrapNumber toLowerCase p sp c t).
Proof.
  intros Ht.
  destruct (block_by_guard unwrapNumber toLowerCase p sp c t) as (pass & ->).
  destruct (guard unwrapNumber p sp c); [| assumption].
  apply judge_within; [| assumption].
  pose proof (weight_pos c). lia.
Qed.

Lemma score_profile_within p sp : within (score_profile unwrapNumber toLowerCase p sp).
Proof.
  unfold score_profile.
  change (within (block unwrapNumber toLowerCase p sp RsType
                   (block unwrapNumber toLowerCase p sp Space
                     (block unwrapNumber toLowerCase p sp Rooms
                       (block unwrapNumber toLowerCase p sp Rent
                         (block unwrapNumber toLowerCase p sp Price
                           (block unwrapNumber toLowerCase p sp City
                             (block unwrapNumber toLowerCase p sp MarketingType start)))))))).
  repeat apply block_within.
  unfold within, start; cbn; lia.
Qed.

Lemma round_sound p sp : Forall sound (round unwrapNumber toLowerCase p sp).
Proof.
  unfold round.
  destruct (active sp) as [[|]|]; try constructor.
  destruct (Z.ltb_spec 0 (t_score (score_profile unwrapNumber toLowerCase p sp))); constructor;
    [| constructor].
  pose proof (score_profile_within p sp) as Hw. unfold within in Hw.
  unfold sound; cbn. lia.
Qed.

Lemma round_length p sp :
  List.length (round unwrapNumber toLowerCase p sp) = if scores p sp then 1%nat else 0%nat.
Proof.
  unfold round, scores.
  destruct (active sp) as [[|]|]; try reflexivity.
  now destruct (0 <? t_score (score_profile unwrapNumber toLowerCase p sp)).
Qed.

Lemma results_sound p profiles : Forall sound (results unwrapNumber toLowerCase p profiles).
Proof.
  unfold results. induction profiles as [|sp l IH]; cbn.
  - constructor.
  - apply Forall_app. split; [apply round_sound | exact IH].
Qed.

Lemma results_length p profiles :
  List.length (results unwrapNumber toLowerCase p profiles)
  = List.length (filter (scores p) profiles).
Proof.
  unfold results. induction profiles as [|sp l IH]; cbn.
  - reflexivity.
  - rewrite length_app, round_length, IH.
    now destruct (scores p sp).
Qed.

(** C6: every listed candidate has [0 <= score <= maxScore] and [score > 0];
    the list is ordered by score, highest first, and among equal scores by the
    number of mismatches, fewest first; it has at most twenty entries, which
    are the first twenty of the sorted candidates; and the count given with it
    is the number of all active profiles that scored above zero. When no
    profile scored, no list is given at all. *)
Theorem ranking_invariants (p : PropstackProperty)
        (profiles : list PropstackSearchProfile) :
  match rank unwrapNumber toLowerCase p profiles with
  | Matching _ found checked top =>
      Forall sound top
      /\ StronglySorted ranks_before top
      /\ (List.length top <= 20)%nat
      /\ top = firstn 20 (sort Match.compare (results unwrapNumber toLowerCase p profiles))
      /\ found = List.length (filter (scores p) profiles)
      /\ (List.length top <= found)%nat
      /\ checked = List.length profiles
  | NoMatches _ checked =>
      filter (scores p) profiles = [] /\ checked = List.length profiles
  | NoProfiles => profiles = []
  end.
Proof.
  unfold rank.
  destruct profiles as [|sp0 rest] eqn:Hp; [reflexivity |].
  rewrite <- Hp. clear Hp sp0 rest.
  set (rs := results unwrapNumber toLowerCase p profiles).
  assert (Hlen : List.length (sort Match.compare rs) = List.length (filter (scores p) profiles)).
  { rewrite <- (Permutation_length (sort_perm Match.compare rs)).
    apply results_length. }
  assert (Hsound : Forall sound (sort Match.compare rs)).
  { eapply Permutation_Forall; [apply sort_perm | apply results_sound]. }
  destruct (firstn 20 (sort Match.compare rs)) as [|m top] eqn:Htop.
  - split; [| reflexivity].
    destruct (sort Match.compare rs) as [|m l] eqn:Hs; [| discriminate Htop].
    cbn in Hlen. destruct (filter (scores p) profiles); [reflexivity | discriminate].
  - rewrite <- Htop.
    repeat split.
    + apply Forall_forall. intros x Hx. rewrite Forall_forall in Hsound.
      apply Hsound. rewrite <- (firstn_skipn 20 (sort Match.compare rs)).
      apply in_or_app. now left.
    + apply firstn_sorted, sort_sorted.
    + apply firstn_le_length.
    + assumption.
    + rewrite length_firstn. lia.
Qed.

End RankingFacts.

Section ScenarioFacts.

Import Property SearchProfile Match Scenario.

Local Open Scope string_scope.

(** C5: with [unwrapNumber] giving back a plain number and [null] for
    [null], and [toLowerCase] folding the three city names as it does ASCII
    text, the reference property scores 8 out of 8 against the buyer's
    criteria (type, city and price all match, nothing mismatches). Against
    the renter's criteria as the scenario writes them, with no price bound at
    all, it scores 2 out of 8: type and city mismatch, and the price block
    counts the absent bounds as a match; the renter is listed, second of two.
    Only with every bound of the renter [null] is the score 0 and the renter
    left out. *)
Theorem scenario_renter_is_listed
        (unwrapNumber : option float -> option float)
        (toLowerCase : string -> string) :
  unwrapNumber (Some 350000%float) = Some 350000%float ->
  unwrapNumber None = None ->
  (forall s, In s ["Berlin"; "Potsdam"; "Munich"] -> toLowerCase s = lower_ascii s) ->
  score_profile unwrapNumber toLowerCase reference buyer
  = mkTally 8 8 [MarketingType; City; Price] []
  /\ score_profile unwrapNumber toLowerCase reference renter
     = mkTally 2 8 [Price] [MarketingType; City]
  /\ round unwrapNumber toLowerCase reference renter
     = [mkMatch 2 (Some 502) 2 8 [Price] [MarketingType; City]]
  /\ rank unwrapNumber toLowerCase reference [buyer; renter]
     = Matching reference 2 2
                [mkMatch 1 (Some 501) 8 8 [MarketingType; City; Price] [];
                 mkMatch 2 (Some 502) 2 8 [Price] [MarketingType; City]]
  /\ score_profile unwrapNumber toLowerCase reference renter_with_nulls
     = mkTally 0 6 [] [MarketingType; City]
  /\ round unwrapNumber toLowerCase reference renter_with_nulls = []
  /\ rank unwrapNumber toLowerCase reference [buyer; renter_with_nulls]
     = Matching reference 1 2 [mkMatch 1 (Some 501) 8 8 [MarketingType; City; Price] []].
Proof.
  intros Hnum Hnull Hlower.
  assert (HB : toLowerCase "Berlin" = "berlin") by (rewrite Hlower; cbn; auto).
  assert (HP : toLowerCase "Potsdam" = "potsdam") by (rewrite Hlower; cbn; auto).
  assert (HM : toLowerCase "Munich" = "munich") by (rewrite Hlower; cbn; auto).
  assert (Hb : score_profile unwrapNumber toLowerCase reference buyer
               = mkTally 8 8 [MarketingType; City; Price] []).
  { unfold score_profile, rs_type_block, space_block, rooms_block, rent_block,
      price_block, range_block, city_block.
    cbn [reference buyer Property.price Property.base_rent Property.number_of_rooms
           Property.living_space Property.city cities nullish existsb].
    change (fmt (Some "Berlin") "") with "Berlin".
    rewrite Hnum, Hnull, HB, ?HP. vm_compute. reflexivity. }
  assert (Hr : score_profile unwrapNumber toLowerCase reference renter
               = mkTally 2 8 [Price] [MarketingType; City]).
  { unfold score_profile, rs_type_block, space_block, rooms_block, rent_block,
      price_block, range_block, city_block.
    cbn [reference renter Property.price Property.base_rent Property.number_of_rooms
           Property.living_space Property.city cities nullish existsb].
    change (fmt (Some "Berlin") "") with "Berlin".
    rewrite Hnum, Hnull, HB, HM. vm_compute. reflexivity. }
  assert (Hn : score_profile unwrapNumber toLowerCase reference renter_with_nulls
               = mkTally 0 6 [] [MarketingType; City]).
  { unfold score_profile, rs_type_block, space_block, rooms_block, rent_block,
      price_block, range_block, city_block.
    cbn [reference renter_with_nulls Property.price Property.base_rent
           Property.number_of_rooms Property.living_space Property.city cities
           nullish existsb].
    change (fmt (Some "Berlin") "") with "Berlin".
    rewrite Hnum, Hnull, HB, HM. vm_compute. reflexivity. }
  assert (Hround : round unwrapNumber toLowerCase reference renter
                   = [mkMatch 2 (Some 502) 2 8 [Price] [MarketingType; City]]).
  { unfold round. rewrite Hr. reflexivity. }
  assert (Hnone : round unwrapNumber toLowerCase reference renter_with_nulls = []).
  { unfold round. rewrite Hn. reflexivity. }
  repeat split.
  - exact Hb.
  - exact Hr.
  - exact Hround.
  - unfold rank, results. cbn [flat_map]. rewrite Hround.
    unfold round. rewrite Hb. vm_compute. reflexivity.
  - exact Hn.
  - exact Hnone.
  - unfold rank, results. cbn [flat_map]. rewrite Hnone.
    unfold round. rewrite Hb. vm_compute. reflexivity.
Qed.

End ScenarioFacts.

Lemma scenario_renter_is_listed_witness :
  Match.round Scenario.plain lower_ascii Scenario.reference Scenario.renter
  = [Match.mkMatch 2 (Some 502) 2 8 [Match.Price] [Match.MarketingType; Match.City]]
  /\ Match.round Scenario.plain lower_ascii Scenario.reference Scenario.renter_with_nulls
     = [].
Proof.
  destruct (scenario_renter_is_listed Scenario.plain lower_ascii eq_refl eq_refl
              (fun s _ => eq_refl))
    as (_ & _ & Hr & _ & _ & Hn & _).
  split; [exact Hr | exact Hn].
Defined.

(* ------------------------------------------------------------------------- *)
(** ** The profile walk *)

Section ProfileWalkFacts.

Import Property SearchProfile Match Scenario.

Variable get : Z -> Z -> PropstackPaginatedResponse PropstackSearchProfile + error.

Local Abbreviation honours_per_page := (honours_per_page get).

Lemma len_app {A : Type} (l l' : list A) : len (l ++ l') = len l + len l'.
Proof. unfold len. rewrite length_app. lia. Qed.

Lemma len_nonneg {A : Type} (l : list A) : 0 <= len l.
Proof. unfold len. lia. Qed.

(** The loop ends: with [maxProfiles - allProfiles.length] profiles still
    allowed, that many rounds and two more are enough. *)
Lemma walk_returns (maxProfiles : Z) :
  forall fuel allProfiles page hasMore,
    (Z.to_nat (maxProfiles - len allProfiles) + 2 <= fuel)%nat ->
    exists r, walk get fuel maxProfiles allProfiles page hasMore = Some r.
Proof.
  induction fuel as [|fuel IH]; intros allProfiles page hasMore Hfuel; [lia |].
  cbn [walk].
  destruct (hasMore && (len allProfiles <? maxProfiles)) eqn:Hgo; [| eauto].
  apply Bool.andb_true_iff in Hgo. destruct Hgo as [_ Hlt].
  apply Z.ltb_lt in Hlt.
  destruct (get page _) as [res|e]; [| eauto].
  destruct (data res) as [[|x more]|].
  - destruct fuel as [|fuel']; [lia |]. cbn [walk andb]. eauto.
  - apply IH. rewrite len_app. unfold len at 2. cbn [List.length]. lia.
  - destruct fuel as [|fuel']; [lia |]. cbn [walk andb]. eauto.
Qed.

Lemma fetch_profiles_returns (max_profiles : option Z) :
  exists r, fetch_profiles get max_profiles = Some r.
Proof.
  unfold fetch_profiles, enough. apply walk_returns.
  unfold len. cbn [List.length]. lia.
Qed.

Lemma walk_capped (maxProfiles : Z) :
  honours_per_page ->
  forall fuel allProfiles page hasMore fetched,
    len allProfiles <= maxProfiles ->
    walk get fuel maxProfiles allProfiles page hasMore = Some (inl fetched) ->
    len fetched <= maxProfiles.
Proof.
  intros Hper.
  induction fuel as [|fuel IH]; intros allProfiles page hasMore fetched Hle Hwalk;
    [discriminate |].
  cbn [walk] in Hwalk.
  destruct (hasMore && (len allProfiles <? maxProfiles)) eqn:Hgo;
    [| injection Hwalk as <-; assumption].
  destruct (get page _) as [res|e] eqn:Hget; [| discriminate].
  destruct (data res) as [[|x more]|] eqn:Hdata.
  - eapply IH; eassumption.
  - eapply IH; [| eassumption].
    pose proof (Hper _ _ _ _ Hget Hdata) as Hsize.
    rewrite len_app. lia.
  - eapply IH; eassumption.
Qed.

(** With an upstream that honours [per_page], the walk gathers at most
    [max_profiles] profiles (1000 when the caller names no cap). *)
Lemma fetch_profiles_capped (max_profiles : option Z) (fetched : list PropstackSearchProfile) :
  honours_per_page ->
  0 <= maxProfiles_of max_profiles ->
  fetch_profiles get max_profiles = Some (inl fetched) ->
  len fetched <= maxProfiles_of max_profiles.
Proof.
  intros Hper Hcap Hfetch.
  eapply walk_capped; [exact Hper | | exact Hfetch].
  unfold len. cbn [List.length]. lia.
Qed.

End ProfileWalkFacts.

Section CappedWalk.

Import Property SearchProfile Match Scenario.

(** C3, on the scenario of the specification (an upstream total of 250,
    pages of 100, a cap of 150): the walk of [match_contacts_to_property]
    gathers exactly 150 profiles, and the tool then answers word for word what
    it answers when the upstream holds 150 profiles and nothing is cut off:
    its answer carries no trace of the truncation. With a cap of 260 the same
    upstream makes the walk gather 260 profiles, ten more than it holds. The
    walk of [pipeline_summary], for its part, does push a warning when its
    cap of 2000 cuts off an upstream of 2100 deals. *)
Theorem capped_profile_walk_is_silent
        (unwrapNumber : option float -> option float) (toLowerCase : string -> string) :
  len (crowd 250) = 250
  /\ (exists fetched,
        fetch_profiles (upstream (crowd 250)) (Some 150) = Some (inl fetched)
        /\ len fetched = 150)
  /\ fetch_profiles (upstream (crowd 150)) (Some 150)
     = fetch_profiles (upstream (crowd 250)) (Some 150)
  /\ match_contacts_to_property unwrapNumber toLowerCase (inl reference)
                                (upstream (crowd 250)) (Some 150)
     = match_contacts_to_property unwrapNumber toLowerCase (inl reference)
                                  (upstream (crowd 150)) (Some 150)
  /\ (exists fetched,
        fetch_profiles (upstream (crowd 250)) (Some 260) = Some (inl fetched)
        /\ len fetched = 260)
  /\ (exists w,
        Pipeline.walk (fun page => upstream (herd 2100) page 100) 30 [] 1 = Some (inl w)
        /\ len (Pipeline.allDeals w) = 2000
        /\ Pipeline.warnings_of w = [Pipeline.Capped 2000 2100]).
Proof.
  assert (Hsame : fetch_profiles (upstream (crowd 150)) (Some 150)
                  = fetch_profiles (upstream (crowd 250)) (Some 150))
    by (vm_compute; reflexivity).
  split; [vm_compute; reflexivity |].
  split; [eexists; split; vm_compute; reflexivity |].
  split; [exact Hsame |].
  split; [unfold match_contacts_to_property; now rewrite Hsame |].
  split.
  - eexists. split; vm_compute; reflexivity.
  - eexists. split; [vm_compute; reflexivity |].
    split; vm_compute; reflexivity.
Qed.

End CappedWalk.

(* ------------------------------------------------------------------------- *)
(** ** The deal walk *)

Section DealWalkFacts.

Import Deal Pipeline.

Variable get : Z -> PropstackPaginatedResponse PropstackDeal + error.

(** The loop counts every deal it comes through. *)
Lemma run_counts unwrapNumber getTime now names (ds : list PropstackDeal) a a' :
  run unwrapNumber getTime now names a ds = inl a' ->
  totalDeals a' = totalDeals a + len ds.
Proof.
  revert a. induction ds as [|d ds IH]; intros a; cbn [run].
  - intros [= <-]. unfold len; cbn; lia.
  - destruct (inherited (stageName names d)); [discriminate |].
    intros H. rewrite (IH _ H). cbn [step totalDeals].
    unfold len; cbn [List.length]. lia.
Qed.

(** C10: when the answer to the first page has no [meta.total_count], the
    loop compares the number of deals gathered with 0 and ends after that one
    request, whatever the other pages hold: the deals are those of the first
    page, the total stays undefined, and no warning is pushed. The tool then
    works on the first page alone: where the aggregation loop comes through,
    it answers with a summary of as many deals as that page has and without a
    warning; where the loop throws, it answers with its error. *)
Theorem walk_without_total_is_one_page
        (fuel : nat) (res : PropstackPaginatedResponse PropstackDeal) :
  get 1 = inl res ->
  meta res = None ->
  walk get (S fuel) [] 1 = Some (inl (mkWalked (nullish (data res) []) None 2))
  /\ warnings_of (mkWalked (nullish (data res) []) None 2) = []
  /\ forall unwrapNumber getTime now pipelines,
      match run unwrapNumber getTime now (stageNames pipelines) empty
                (nullish (data res) []) with
      | inl a =>
          pipeline_summary unwrapNumber getTime now (inl pipelines) get (S fuel)
          = Some (textResult
                    (mkSummary (len (nullish (data res) [])) (totalValue a)
                               (stageStats a) (staleDeals a) []))
      | inr e =>
          pipeline_summary unwrapNumber getTime now (inl pipelines) get (S fuel)
          = Some (errorResult "Pipeline summary" e)
      end.
Proof.
  intros Hget Hmeta.
  assert (Hwalk : walk get (S fuel) [] 1
                  = Some (inl (mkWalked (nullish (data res) []) None 2))).
  { cbn [walk]. rewrite Hget, Hmeta. cbn [nullish].
    assert (Hstop : forall l : list PropstackDeal, (len l <? 0) = false)
      by (intros l; apply Z.ltb_ge; unfold len; lia).
    rewrite Hstop. cbn [andb].
    destruct (data res) as [[|d more]|]; reflexivity. }
  split; [exact Hwalk |].
  split; [reflexivity |].
  intros unwrapNumber getTime now pipelines.
  unfold pipeline_summary. rewrite Hwalk.
  cbn [allDeals totalCount].
  destruct (run unwrapNumber getTime now (stageNames pipelines) empty
                (nullish (data res) [])) as [a | e] eqn:Hrun; [| reflexivity].
  apply run_counts in Hrun. cbn [nullish]. rewrite Hrun. reflexivity.
Qed.

End DealWalkFacts.

Lemma walk_without_total_is_one_page_witness :
  exists w,
    Pipeline.walk (Scenario.untold 250) 5 [] 1 = Some (inl w)
    /\ len (Pipeline.allDeals w) = 100
    /\ Pipeline.page w = 2
    /\ Pipeline.warnings_of w = [].
Proof.
  destruct (walk_without_total_is_one_page (Scenario.untold 250) 4
              (mkPage (Some (firstn 100 (Scenario.herd 250))) None)
              eq_refl eq_refl) as (Hwalk & Hwarn & _).
  eexists. split; [exact Hwalk |].
  split; [vm_compute; reflexivity |].
  split; [reflexivity | exact Hwarn].
Defined.

(* ------------------------------------------------------------------------- *)
(** ** Aggregation *)

Section AggregationFacts.

Import Deal Pipeline.

Variable unwrapNumber : option float -> option float.
Variable getTime : string -> option Z.
Variable now : Z.

Local Abbreviation price_of := (price_of unwrapNumber).
Local Abbreviation is_stale := (is_stale getTime now).
Local Abbreviation run := (run unwrapNumber getTime now).
Local Abbreviation step := (step unwrapNumber getTime now).
Local Abbreviation sum_prices := (sum_prices unwrapNumber).
Local Abbreviation consistent := (consistent unwrapNumber).
Local Abbreviation Stale := (Stale getTime now).
Local Abbreviation last_update_time := (last_update_time getTime).

Lemma sum_prices_snoc l d :
  sum_prices (l ++ [d]) = PrimFloat.add (sum_prices l) (price_of d).
Proof. unfold sum_prices. now rewrite fold_left_app. Qed.

Lemma place_all {V : Type} (P : string * V -> Prop) key v props :
  P (key, v) -> Forall P props -> Forall P (place key v props).
Proof.
  intros Hv. induction 1 as [|kv rest Hkv Hrest IH]; cbn [place].
  - constructor; [exact Hv | constructor].
  - destruct (comes_before key (fst kv)); repeat constructor; assumption.
Qed.

Lemma bump_consistent key d table :
  Forall consistent table -> Forall consistent (bump key (price_of d) d table).
Proof.
  intros Htable. unfold bump. destruct (has_key key table).
  - induction Htable as [|[k st] rest [Hv Hc] Hrest IH]; cbn [touch]; [constructor |].
    cbn [snd] in Hv, Hc.
    destruct (String.eqb k key); constructor; try assumption.
    + split; cbn [snd touched value count deals].
      * now rewrite sum_prices_snoc, Hv.
      * rewrite Hc. unfold len. rewrite length_app. cbn [List.length]. lia.
    + split; assumption.
  - apply place_all; [| exact Htable]. split; reflexivity.
Qed.

Lemma fold_step_facts names l :
  forall a,
    let a' := fold_left (step names) l a in
    totalValue a'
    = fold_left (fun acc d => PrimFloat.add acc (price_of d)) l (totalValue a)
    /\ staleDeals a' = staleDeals a ++ filter is_stale l
    /\ (Forall consistent (stageStats a) -> Forall consistent (stageStats a')).
Proof.
  induction l as [|d l IH]; intros a; cbn [fold_left filter].
  - rewrite app_nil_r. auto.
  - destruct (IH (step names a d)) as (Hv & Hs & Hc).
    split; [exact Hv |].
    split.
    + rewrite Hs. cbn [Pipeline.step staleDeals].
      destruct (is_stale d); [now rewrite <- app_assoc | reflexivity].
    + intros Ha. apply Hc. cbn [Pipeline.step stageStats].
      now apply bump_consistent.
Qed.

Lemma is_stale_iff d :
  getTime EmptyString = None -> is_stale d = true <-> Stale d.
Proof.
  intros Hempty.
  unfold Pipeline.is_stale, Stale, last_update_time, lastUpdate, truthy_string,
    staleThresholdMs.
  destruct (updated_at d) as [s|]; [| destruct (created_at d) as [s|]].
  3: { split; [discriminate | intros (t & H & _); discriminate]. }
  all: destruct (String.eqb_spec s EmptyString) as [->|Hne]; cbn [negb andb].
  all: try (rewrite Hempty; split; [discriminate | intros (t & H & _); discriminate]).
  all: destruct (getTime s) as [t|];
    [| split; [discriminate | intros (t & H & _); discriminate]].
  all: rewrite Z.ltb_lt; split;
    [ intros H; exists t; split; [reflexivity | lia]
    | intros (t' & [= <-] & H); lia ].
Qed.

(** The loop comes through when no stage name is inherited, and then it has
    done the rounds of [step] one after the other. *)
Lemma run_is_fold names l :
  forall a,
    (forall d, In d l -> inherited (stageName names d) = false) ->
    run names a l = inl (fold_left (step names) l a).
Proof.
  induction l as [|d l IH]; intros a Hclean; cbn [Pipeline.run fold_left]; [reflexivity |].
  rewrite (Hclean d (or_introl eq_refl)). apply IH.
  intros d' Hd'. apply Hclean. now right.
Qed.

Lemma run_throws names l :
  forall a,
    (exists d, In d l /\ inherited (stageName names d) = true) ->
    exists e, run names a l = inr e.
Proof.
  induction l as [|d l IH]; intros a (d' & Hin & Hd'); [destruct Hin |].
  cbn [Pipeline.run].
  destruct (inherited (stageName names d)) eqn:Hd; [eauto |].
  apply IH. destruct Hin as [-> | Hin]; [congruence | eauto].
Qed.

Lemma run_came_through names l :
  forall a a',
    run names a l = inl a' ->
    a' = fold_left (step names) l a
    /\ forall d, In d l -> inherited (stageName names d) = false.
Proof.
  induction l as [|d l IH]; intros a a'; cbn [Pipeline.run fold_left].
  - intros [= <-]. split; [reflexivity | intros d []].
  - destruct (inherited (stageName names d)) eqn:Hd; [discriminate |].
    intros H. destruct (IH _ _ H) as (-> & Hclean).
    split; [reflexivity |]. intros d' [<- | Hd']; auto.
Qed.

(** C9: a deal counts with its own sold price when it has one, else with the
    list price of its property when that has one, else with zero. The
    aggregation loop comes through exactly when no deal's stage is called
    like a member of [Object.prototype]; when it does, the total and every
    stage's value are these amounts added up in the order of the deals, and a
    deal is listed as stale exactly when [now] is more than fourteen days past
    its last update ([updated_at], else [created_at]), never when it has
    neither date. On the three deals of the scenario, all in one stage, the
    loop comes through, the stage's value is 1000000 and the stale list is
    the first two. *)
Theorem aggregation_value_and_staleness :
  getTime EmptyString = None ->
  (forall v, unwrapNumber (Some v) = Some v) ->
  unwrapNumber None = None ->
  (forall d v, sold_price d = Some v -> price_of d = v)
  /\ (forall d p v,
        sold_price d = None -> Deal.property d = Some p -> Property.price p = Some v ->
        price_of d = v)
  /\ (forall d,
        sold_price d = None ->
        (Deal.property d = None
         \/ exists p, Deal.property d = Some p /\ Property.price p = None) ->
        price_of d = 0%float)
  /\ (forall names dealList,
        (exists a, run names empty dealList = inl a)
        <-> (forall d, In d dealList -> inherited (stageName names d) = false))
  /\ (forall names dealList a,
        run names empty dealList = inl a ->
        totalValue a = sum_prices dealList
        /\ Forall consistent (stageStats a)
        /\ staleDeals a = filter is_stale dealList
        /\ (forall d, In d (staleDeals a) <-> In d dealList /\ Stale d))
  /\ (forall d, updated_at d = None -> created_at d = None ->
                is_stale d = false /\ ~ Stale d)
  /\ (forall old recent,
        getTime old = Some (now - 20 * 86400000) ->
        getTime recent = Some (now - 1 * 86400000) ->
        run (stageNames Scenario.pipelines) empty (Scenario.three_deals old recent)
        = inl (mkAggregate
                 [("Besichtigung"%string,
                   mkStats 3 1000000%float (Scenario.three_deals old recent))]
                 [Scenario.first_deal old; Scenario.second_deal old]
                 3 1000000%float)).
Proof.
  intros Hempty Hnum Hnull.
  split; [| split; [| split; [| split; [| split; [| split]]]]].
  - intros d v Hsold. unfold Pipeline.price_of. now rewrite Hsold, Hnum.
  - intros d p v Hsold Hprop Hprice.
    unfold Pipeline.price_of, linked_price. now rewrite Hsold, Hnull, Hprop, Hprice, Hnum.
  - intros d Hsold Hlinked.
    unfold Pipeline.price_of, linked_price. rewrite Hsold, Hnull.
    destruct Hlinked as [-> | (p & -> & ->)]; now rewrite Hnull.
  - intros names dealList. split.
    + intros (a & Hrun). now destruct (run_came_through names dealList _ _ Hrun).
    + intros Hclean. eexists. now apply run_is_fold.
  - intros names dealList a Hrun.
    destruct (run_came_through names dealList _ _ Hrun) as (-> & _).
    destruct (fold_step_facts names dealList empty) as (Hv & Hs & Hc).
    split; [exact Hv |]. split; [apply Hc; constructor |]. split; [exact Hs |].
    intros d. cbv zeta in Hs. rewrite Hs. cbn [staleDeals empty app].
    rewrite filter_In, (is_stale_iff d Hempty). reflexivity.
  - intros d Hup Hcr. split.
    + unfold Pipeline.is_stale, lastUpdate. now rewrite Hup, Hcr.
    + intros (t & Ht & _). unfold last_update_time in Ht.
      rewrite Hup, Hcr in Ht. discriminate.
  - intros old recent Hold Hrecent.
    assert (Hne_old : truthy_string old = true).
    { unfold truthy_string. destruct (String.eqb_spec old EmptyString) as [->|]; [| reflexivity].
      rewrite Hempty in Hold. discriminate. }
    assert (Hne_recent : truthy_string recent = true).
    { unfold truthy_string. destruct (String.eqb_spec recent EmptyString) as [->|]; [| reflexivity].
      rewrite Hempty in Hrecent. discriminate. }
    assert (Hs1 : is_stale (Scenario.first_deal old) = true).
    { unfold Pipeline.is_stale, lastUpdate, staleThresholdMs; cbn.
      rewrite Hne_old, Hold. apply Z.ltb_lt. lia. }
    assert (Hs2 : is_stale (Scenario.second_deal old) = true).
    { unfold Pipeline.is_stale, lastUpdate, staleThresholdMs; cbn.
      rewrite Hne_old, Hold. apply Z.ltb_lt. lia. }
    assert (Hs3 : is_stale (Scenario.third_deal recent) = false).
    { unfold Pipeline.is_stale, lastUpdate, staleThresholdMs; cbn.
      rewrite Hne_recent, Hrecent. apply Z.ltb_ge. lia. }
    assert (Hp1 : price_of (Scenario.first_deal old) = 200000%float).
    { unfold Pipeline.price_of, linked_price; cbn. now rewrite Hnull, Hnum. }
    assert (Hp2 : price_of (Scenario.second_deal old) = 300000%float).
    { unfold Pipeline.price_of, linked_price; cbn. now rewrite Hnull, Hnum. }
    assert (Hp3 : price_of (Scenario.third_deal recent) = 500000%float).
    { unfold Pipeline.price_of; cbn. now rewrite Hnum. }
    rewrite run_is_fold by (intros d [<- | [<- | [<- | []]]]; vm_compute; reflexivity).
    f_equal. unfold Scenario.three_deals.
    cbn [fold_left]. unfold Pipeline.step.
    rewrite Hs1, Hs2, Hs3, Hp1, Hp2, Hp3.
    vm_compute. reflexivity.
Qed.

End AggregationFacts.

Lemma aggregation_value_and_staleness_witness :
  Pipeline.run Scenario.plain Scenario.getTime Scenario.now
               (Pipeline.stageNames Scenario.pipelines) Pipeline.empty
               (Scenario.three_deals "2026-10-13T12:00:00.000Z" "2026-11-01T12:00:00.000Z")
  = inl (Pipeline.mkAggregate
           [("Besichtigung"%string,
             Pipeline.mkStats 3 1000000%float
               (Scenario.three_deals "2026-10-13T12:00:00.000Z"
                                     "2026-11-01T12:00:00.000Z"))]
           [Scenario.first_deal "2026-10-13T12:00:00.000Z";
            Scenario.second_deal "2026-10-13T12:00:00.000Z"]
           3 1000000%float).
Proof.
  destruct (aggregation_value_and_staleness Scenario.plain Scenario.getTime Scenario.now
              eq_refl (fun v => eq_refl) eq_refl)
    as (_ & _ & _ & _ & _ & _ & Hscenario).
  exact (Hscenario "2026-10-13T12:00:00.000Z"%string "2026-11-01T12:00:00.000Z"%string
           eq_refl eq_refl).
Defined.

(* ------------------------------------------------------------------------- *)
(** ** Fan-out *)

Section FanOutFacts.

Import FanOut.

Variable J : Type.
Variable get : string -> list (string * string) -> nullable J + error.

Local Abbreviation contact_secondary := (contact_secondary J get).
Local Abbreviation property_secondary := (property_secondary J get).

(** Gives a name to the outcome of the call to [path] in the goal. *)
Ltac name_call path c :=
  match goal with
  | |- context [get path ?params] => generalize (get path params); intro c
  end.

Ltac name_contact_calls id c0 c1 c2 c3 :=
  name_call ("/contacts/" ++ decimal id)%string c0;
  name_call "/saved_queries"%string c1;
  name_call "/client_properties"%string c2;
  name_call "/activities"%string c3.

Ltac name_property_calls id c0 c1 c2 :=
  name_call ("/units/" ++ decimal id)%string c0;
  name_call "/client_properties"%string c1;
  name_call "/activities"%string c2.

(** The ways a call can end. *)
Ltac outcomes c := destruct c as [[| |?]|?].

(** Finds the call of the goal's list that is bare. *)
Ltac find_bare :=
  first [ apply Exists_cons_hd; first [left; reflexivity | right; reflexivity]
        | apply Exists_cons_tl; find_bare ].

(** No call of the list in [H] is bare. *)
Ltac none_bare H :=
  repeat match type of H with
         | Exists _ (_ :: _) =>
             apply Exists_cons in H; destruct H as [[H | H] | H]; [discriminate H ..|]
         end;
  try (apply Exists_nil in H; destruct H).

(** Settles [fails answer <-> essential call rejected \/ some call bare] once
    the calls are known by their outcome. *)
Ltac fails_or_not :=
  let H := fresh "H" in
  unfold fails, bare; cbn; split;
  [ intros (? & ? & H);
    first [ discriminate H
          | left; eexists; reflexivity
          | right; find_bare ]
  | intros [(? & H) | H];
    first [ discriminate H
          | do 2 eexists; reflexivity
          | exfalso; none_bare H ] ].

Lemma allSettled_length {A : Type} (calls : list (A + error)) :
  List.length (allSettled calls) = List.length calls.
Proof. apply length_map. Qed.

Lemma allSettled_nth {A : Type} (calls : list (A + error)) (i : nat) :
  nth_error (allSettled calls) i = option_map settle (nth_error calls i).
Proof. apply nth_error_map. Qed.


End FanOutFacts.



(* ------------------------------------------------------------------------- *)
(** ** Request executor: where errors stem from, how long it waits *)

Section RetryFacts.

Import Client.

Variable J : Type.
Variable Number : string -> float.

Local Abbreviation transport := (transport J).
Local Abbreviation request := (request J Number).

Lemma fst_after evs (r : run J) : fst (after J evs r) = fst r.
Proof. reflexivity. Qed.

Lemma slept_app evs evs' : slept (evs ++ evs') = slept evs + slept evs'.
Proof.
  induction evs as [|[ms|] evs IH]; cbn [app slept]; lia.
Qed.

Lemma slept_after evs (r : run J) : slept (snd (after J evs r)) = slept evs + slept (snd r).
Proof. unfold after. cbn [snd]. apply slept_app. Qed.

(** Where the error thrown by the loop over [todo] stems from: an attempt of
    [todo], or else the loop went round for every attempt without a failure of
    [fetch], and throws what it was handed. *)
Lemma attempts_thrown (path : string) (w : transport) :
  forall todo lastError e,
    fst (attempts J Number path w todo lastError) = Thrown e ->
    (exists a,
        In a todo
        /\ ((exists m, w (Z.to_nat a) = NetworkFailure m /\ e = JsError m)
            \/ (exists res,
                   w (Z.to_nat a) = Responded res /\ ok res = false
                   /\ e = PropstackError (status res) (statusText res) (text res) path)
            \/ (exists res m,
                   w (Z.to_nat a) = Responded res /\ ok res = true /\ status res <> 204
                   /\ json res = inr m /\ e = JsError m)))
    \/ (e = nullish lastError
              (JsError ("Request to " ++ path ++ " failed after "
                        ++ decimal MAX_RETRIES ++ " retries")%string)
        /\ forall a, In a todo -> (a <? MAX_RETRIES) = true).
Proof.
  induction todo as [|a rest IH]; intros lastError e Hthrown.
  - cbn [attempts fst] in Hthrown. injection Hthrown as <-.
    right. split; [reflexivity | intros a []].
  - cbn [attempts] in Hthrown.
    destruct (w (Z.to_nat a)) as [m|res] eqn:Hw.
    + rewrite fst_after in Hthrown. left.
      destruct (IH _ _ Hthrown) as [(a' & Hin & Hblame) | (-> & _)].
      * exists a'. split; [now right | exact Hblame].
      * exists a. split; [now left |]. left. exists m. rewrite Hw. now split.
    + destruct ((status res =? 429) && (a <? MAX_RETRIES)) eqn:Hretry.
      * rewrite fst_after in Hthrown.
        destruct (IH _ _ Hthrown) as [(a' & Hin & Hblame) | (-> & Hall)].
        -- left. exists a'. split; [now right | exact Hblame].
        -- right. split; [reflexivity |].
           intros a' [<- | Hin]; [| now apply Hall].
           apply Bool.andb_true_iff in Hretry. tauto.
      * left. exists a. split; [now left |]. rewrite Hw.
        destruct (ok res) eqn:Hok; cbn [negb] in Hthrown.
        -- destruct (Z.eqb_spec (status res) 204) as [|H204];
             [cbn [fst] in Hthrown; discriminate |].
           destruct (json res) as [v|m] eqn:Hjson; cbn [fst] in Hthrown;
             [discriminate |].
           injection Hthrown as <-.
           right. right. exists res, m. repeat split; assumption || reflexivity.
        -- cbn [fst] in Hthrown. injection Hthrown as <-.
           right. left. exists res. repeat split; assumption || reflexivity.
Qed.

(** X1: whatever [request] throws stems from one of its four attempts: the error
    of a rejected [fetch], the [PropstackError] of an answer that is not 2xx,
    or the error of [res.json()] on a 2xx answer. The message of last resort
    after the loop, "Request to ... failed after 3 retries", is never what is
    thrown. *)
Theorem thrown_errors_stem_from_attempts (path : string) (w : transport) (e : error) :
  fst (request path w) = Thrown e ->
  exists n,
    (n <= 3)%nat
    /\ ((exists m, w n = NetworkFailure m /\ e = JsError m)
        \/ (exists res,
               w n = Responded res /\ ok res = false
               /\ e = PropstackError (status res) (statusText res) (text res) path)
        \/ (exists res m,
               w n = Responded res /\ ok res = true /\ status res <> 204
               /\ json res = inr m /\ e = JsError m)).
Proof.
  intros Hthrown.
  destruct (attempts_thrown path w [0; 1; 2; 3] None e Hthrown)
    as [(a & Hin & Hblame) | (_ & Hall)].
  - exists (Z.to_nat a). split; [| exact Hblame].
    cbn [In] in Hin. lia.
  - specialize (Hall 3). cbn in Hall. discriminate Hall. auto.
Qed.

(** A timer lasts at least 1 ms and at most [TIMEOUT_MAX], whatever delay it
    is given. *)
Lemma setTimeout_range (delay : float) : 1 <= setTimeout delay <= TIMEOUT_MAX.
Proof.
  unfold setTimeout, TIMEOUT_MAX.
  destruct (Prim2SF delay) as [sign | sign | | sign m e]; try lia.
  destruct sign; [lia |].
  destruct ((1 <=? whole m e) && (whole m e <=? 2147483647)) eqn:Hin; [| lia].
  apply Bool.andb_true_iff in Hin. destruct Hin as [Hlo Hhi].
  apply Z.leb_le in Hlo, Hhi. lia.
Qed.

(** What an answer asks for is nothing, or one timer. *)
Lemma asked_range (f : fetched J) : 0 <= Waits.asked Number f <= TIMEOUT_MAX.
Proof.
  destruct f as [m|res]; cbn [Waits.asked]; [unfold TIMEOUT_MAX; lia |].
  unfold retry_after_wait.
  destruct (retryAfter res) as [s|]; [| cbn; unfold TIMEOUT_MAX; lia].
  destruct (truthy_string s); cbn [slept]; [| unfold TIMEOUT_MAX; lia].
  pose proof (setTimeout_range (PrimFloat.mul (Number s) 1000)). lia.
Qed.

(** How long the loop over [todo] waits at most. *)
Lemma attempts_slept (path : string) (w : transport) :
  forall todo lastError,
    slept (snd (attempts J Number path w todo lastError))
    <= fold_right (fun a acc =>
                     slept (backoff a)
                     + (if a <? MAX_RETRIES then Waits.asked Number (w (Z.to_nat a)) else 0)
                     + acc)
                  0 todo.
Proof.
  assert (Hasked : forall f : fetched J, 0 <= Waits.asked Number f)
    by (intros f; apply asked_range).
  assert (Hbackoff : forall a, 0 <= slept (backoff a)).
  { intros a. unfold backoff, RETRY_BASE_MS.
    destruct (0 <? a); cbn [slept]; [| lia].
    pose proof (Z.pow_nonneg 2 (a - 1)). lia. }
  induction todo as [|a rest IH]; intros lastError; cbn [attempts fold_right].
  - cbn. lia.
  - pose proof (Hbackoff a). pose proof (Hasked (w (Z.to_nat a))).
    assert (Hrest : 0 <= fold_right
                           (fun a acc =>
                              slept (backoff a)
                              + (if a <? MAX_RETRIES
                                 then Waits.asked Number (w (Z.to_nat a)) else 0)
                              + acc) 0 rest).
    { clear IH. induction rest as [|b rest IHr]; cbn [fold_right]; [lia |].
      pose proof (Hbackoff b). pose proof (Hasked (w (Z.to_nat b))).
      destruct (b <? MAX_RETRIES); lia. }
    destruct (w (Z.to_nat a)) as [m|res] eqn:Hw.
    + rewrite slept_after, slept_app. specialize (IH (Some (JsError m))).
      cbn [slept]. destruct (a <? MAX_RETRIES); lia.
    + destruct ((status res =? 429) && (a <? MAX_RETRIES)) eqn:Hretry.
      * apply Bool.andb_true_iff in Hretry. destruct Hretry as [_ ->].
        rewrite slept_after, !slept_app. specialize (IH lastError).
        cbn [slept Waits.asked] in *. lia.
      * assert (Hstop : forall o : outcome J,
                   slept (snd (o, backoff a ++ [Fetch])) = slept (backoff a))
          by (intros o; cbn [snd]; rewrite slept_app; cbn; lia).
        destruct (negb (ok res)); [| destruct (status res =? 204);
                                      [| destruct (json res)]];
          rewrite Hstop; destruct (a <? MAX_RETRIES); lia.
Qed.

(** X2: the first call of [fetch] waits for nothing, and all the timers of one
    call of [request] together last at most the three backoffs, 7000 ms, and
    what the answers to the first three attempts ask for through
    [Retry-After]; what an answer asks for is a timer of 1 ms to
    [TIMEOUT_MAX], or nothing, whatever its header reads. *)
Theorem waiting_is_bounded (path : string) (w : transport) :
  nth_error (delays (snd (request path w))) 0 = Some 0
  /\ slept (snd (request path w))
     <= 7000 + Waits.asked Number (w 0%nat) + Waits.asked Number (w 1%nat)
        + Waits.asked Number (w 2%nat)
  /\ (forall n, 0 <= Waits.asked Number (w n) <= TIMEOUT_MAX)
  /\ slept (snd (request path w)) <= 7000 + 3 * TIMEOUT_MAX.
Proof.
  assert (Hsum : slept (snd (request path w))
                 <= 7000 + Waits.asked Number (w 0%nat) + Waits.asked Number (w 1%nat)
                    + Waits.asked Number (w 2%nat)).
  { pose proof (attempts_slept path w [0; 1; 2; 3] None) as Hbound.
    cbn [fold_right] in Hbound.
    change (Z.to_nat 0) with 0%nat in Hbound. change (Z.to_nat 1) with 1%nat in Hbound.
    change (Z.to_nat 2) with 2%nat in Hbound.
    change (slept (backoff 0)) with 0 in Hbound.
    change (slept (backoff 1)) with 1000 in Hbound.
    change (slept (backoff 2)) with 2000 in Hbound.
    change (slept (backoff 3)) with 4000 in Hbound.
    change (0 <? MAX_RETRIES) with true in Hbound.
    change (1 <? MAX_RETRIES) with true in Hbound.
    change (2 <? MAX_RETRIES) with true in Hbound.
    change (3 <? MAX_RETRIES) with false in Hbound.
    cbv beta iota in Hbound.
    unfold Client.request. change attempt_range with [0; 1; 2; 3]. lia. }
  split; [| split; [exact Hsum | split]].
  - unfold Client.request.
    change attempt_range with [0; 1; 2; 3]. cbn [attempts].
    change (Z.to_nat 0) with 0%nat.
    destruct (w 0%nat) as [m|res]; [reflexivity |].
    destruct ((status res =? 429) && (0 <? MAX_RETRIES)); [reflexivity |].
    destruct (negb (ok res)); [reflexivity |].
    destruct (status res =? 204); [reflexivity |].
    destruct (json res); reflexivity.
  - intros n. apply asked_range.
  - pose proof (asked_range (w 0%nat)). pose proof (asked_range (w 1%nat)).
    pose proof (asked_range (w 2%nat)). lia.
Qed.

End RetryFacts.


(* ------------------------------------------------------------------------- *)
(** ** Reading a match result *)

Section ExplainFacts.

Import Property SearchProfile Match Verdict.

Variable unwrapNumber : option float -> option float.
Variable toLowerCase : string -> string.

Lemma total_weight_snoc l c : total_weight (l ++ [c]) = total_weight l + weight c.
Proof.
  induction l as [|d l IH]; cbn [app total_weight fold_right].
  - lia.
  - fold (total_weight (l ++ [c])). fold (total_weight l). lia.
Qed.

Lemma judge_explained c pass t :
  explained t -> explained (judge c (weight c) pass t).
Proof.
  unfold explained. intros [Hs Hm].
  destruct pass; cbn [judge t_score t_maxScore t_matches t_mismatches];
    rewrite ?total_weight_snoc; lia.
Qed.

Lemma block_explained p sp c t :
  explained t ->
  explained (block unwrapNumber toLowerCase p sp c t)
  /\ t_maxScore (block unwrapNumber toLowerCase p sp c t) <= t_maxScore t + weight c.
Proof.
  intros Ht.
  destruct (block_by_guard unwrapNumber toLowerCase p sp c t) as (pass & ->).
  pose proof (weight_pos c) as Hw.
  destruct (Match.guard unwrapNumber p sp c).
  - split; [now apply judge_explained |].
    destruct pass; cbn; lia.
  - split; [assumption | lia].
Qed.

Lemma score_profile_explained p sp :
  explained (score_profile unwrapNumber toLowerCase p sp)
  /\ t_maxScore (score_profile unwrapNumber toLowerCase p sp) <= 15.
Proof.
  unfold score_profile.
  change (let t := block unwrapNumber toLowerCase p sp RsType
                     (block unwrapNumber toLowerCase p sp Space
                        (block unwrapNumber toLowerCase p sp Rooms
                           (block unwrapNumber toLowerCase p sp Rent
                              (block unwrapNumber toLowerCase p sp Price
                                 (block unwrapNumber toLowerCase p sp City
                                    (block unwrapNumber toLowerCase p sp MarketingType start))))))
          in explained t /\ t_maxScore t <= 15).
  assert (H0 : explained start) by (split; reflexivity).
  destruct (block_explained p sp MarketingType _ H0) as (H1 & B1).
  destruct (block_explained p sp City _ H1) as (H2 & B2).
  destruct (block_explained p sp Price _ H2) as (H3 & B3).
  destruct (block_explained p sp Rent _ H3) as (H4 & B4).
  destruct (block_explained p sp Rooms _ H4) as (H5 & B5).
  destruct (block_explained p sp Space _ H5) as (H6 & B6).
  destruct (block_explained p sp RsType _ H6) as (H7 & B7).
  cbv zeta. split; [exact H7 |].
  cbn [weight start t_maxScore] in *. lia.
Qed.

Lemma results_are_results_of p profiles :
  results unwrapNumber toLowerCase p profiles
  = map (result_of unwrapNumber toLowerCase p) (filter (Match.scores unwrapNumber toLowerCase p) profiles).
Proof.
  unfold results. induction profiles as [|sp l IH]; cbn [flat_map filter map].
  - reflexivity.
  - rewrite IH. unfold round, Match.scores, result_of.
    destruct (active sp) as [[|]|]; try reflexivity.
    now destruct (0 <? t_score (score_profile unwrapNumber toLowerCase p sp)).
Qed.

(** X5: every result pushed on [results] is explained by its own lists: its score
    is the sum of the weights of its matches, its maximum the sum of the
    weights of its matches and mismatches, the maximum is at most 15 (all seven
    weights), and a result without a mismatch has the full score. *)
Theorem results_are_explained (p : PropstackProperty)
        (profiles : list PropstackSearchProfile) (m : MatchResult) :
  In m (results unwrapNumber toLowerCase p profiles) ->
  score m = total_weight (matches m)
  /\ maxScore m = total_weight (matches m) + total_weight (mismatches m)
  /\ maxScore m <= 15
  /\ (mismatches m = [] -> score m = maxScore m).
Proof.
  rewrite results_are_results_of, in_map_iff.
  intros (sp & <- & _).
  destruct (score_profile_explained p sp) as ((Hs & Hm) & Hb).
  unfold result_of; cbn [score maxScore matches mismatches].
  repeat split; try assumption.
  intros Hnone. rewrite Hs, Hm, Hnone. cbn. lia.
Qed.

(** X6: the results are those of the active profiles that scored, one each and in
    the order of the profiles; so whatever the answer lists stems from an
    active profile among those fetched and carries its id and its client. *)
Theorem listed_results_are_active_profiles (p : PropstackProperty)
        (profiles : list PropstackSearchProfile) :
  results unwrapNumber toLowerCase p profiles
  = map (result_of unwrapNumber toLowerCase p) (filter (Match.scores unwrapNumber toLowerCase p) profiles)
  /\ match rank unwrapNumber toLowerCase p profiles with
     | Matching _ _ _ top =>
         forall m, In m top ->
                   exists sp, In sp profiles /\ active sp = Some true
                              /\ m = result_of unwrapNumber toLowerCase p sp
     | _ => True
     end.
Proof.
  split; [apply results_are_results_of |].
  unfold rank. destruct profiles as [|sp0 rest] eqn:Hp; [exact I |].
  rewrite <- Hp. clear Hp.
  destruct (firstn 20 (sort Match.compare (results unwrapNumber toLowerCase p profiles)))
    as [|m0 top] eqn:Htop; [exact I |].
  rewrite <- Htop. intros m Hm.
  assert (Hin : In m (results unwrapNumber toLowerCase p profiles)).
  { eapply Permutation_in; [apply Permutation_sym, (sort_perm Match.compare) |].
    rewrite <- (firstn_skipn 20 (sort Match.compare _)). apply in_or_app. now left. }
  rewrite results_are_results_of, in_map_iff in Hin.
  destruct Hin as (sp & <- & Hsp). apply filter_In in Hsp. destruct Hsp as (Hsp & Hscores).
  exists sp. repeat split; try assumption.
  unfold Match.scores in Hscores. destruct (active sp) as [[|]|]; congruence.
Qed.

End ExplainFacts.


Section SortFacts.

Import Property SearchProfile Match Verdict.

Lemma same_rank_compare a b : same_rank a b = true <-> Match.compare a b = 0.
Proof.
  unfold same_rank, Match.compare, len.
  rewrite Bool.andb_true_iff, Z.eqb_eq, Nat.eqb_eq.
  destruct (Z.eqb_spec (score b - score a) 0); lia.
Qed.

Lemma same_rank_trans_compare x a y :
  same_rank x a = true -> same_rank x y = true -> Match.compare a y = 0.
Proof.
  rewrite !same_rank_compare. unfold Match.compare, len.
  destruct (Z.eqb_spec (score a - score x) 0), (Z.eqb_spec (score y - score x) 0),
    (Z.eqb_spec (score y - score a) 0); lia.
Qed.

(** Inserting a result moves no result of another rank and puts the new one in
    front of those of its own rank. *)
Lemma insert_keeps_rank_order x a l :
  filter (same_rank x) (insert Match.compare a l)
  = if same_rank x a then a :: filter (same_rank x) l else filter (same_rank x) l.
Proof.
  induction l as [|y l IH]; cbn [insert filter].
  - reflexivity.
  - destruct (Z.leb_spec (Match.compare a y) 0) as [Hle|Hgt]; cbn [filter].
    + reflexivity.
    + rewrite IH.
      destruct (same_rank x a) eqn:Ha, (same_rank x y) eqn:Hy; try reflexivity.
      pose proof (same_rank_trans_compare x a y Ha Hy). lia.
Qed.

(** X7: [results.sort] is stable and loses nothing: the sorted list is a
    permutation of the results, the results of any one rank (same score, same
    number of mismatches) come in the order they had before, and a list that
    is already in order is left as it is. *)
Theorem sort_is_stable (l : list MatchResult) :
  Permutation l (sort Match.compare l)
  /\ (forall x, filter (same_rank x) (sort Match.compare l) = filter (same_rank x) l)
  /\ (StronglySorted (Match.ranks_before) l -> sort Match.compare l = l).
Proof.
  split; [apply sort_perm |]. split.
  - intros x. induction l as [|a l IH]; [reflexivity |].
    cbn [sort fold_right]. fold (sort Match.compare l).
    rewrite insert_keeps_rank_order, IH. cbn [filter]. reflexivity.
  - induction 1 as [|a l Hs IH Hall]; [reflexivity |].
    cbn [sort fold_right]. fold (sort Match.compare l). rewrite IH.
    destruct l as [|y l']; [reflexivity |].
    cbn [insert]. inversion Hall as [|? ? Hay _]; subst.
    apply compare_ranks in Hay.
    destruct (Z.leb_spec (Match.compare a y) 0); [reflexivity | lia].
Qed.

End SortFacts.

Section CityFacts.

Import Property SearchProfile Match Verdict.

Variable toLowerCase : string -> string.

Local Abbreviation city_block := (city_block toLowerCase).

Lemma prefix_occurs needle hay :
  String.prefix needle hay = true <-> exists behind, hay = (needle ++ behind)%string.
Proof.
  revert hay. induction needle as [|c needle IH]; intros [|d hay]; cbn [String.prefix].
  - split; [intros _; exists EmptyString; reflexivity | reflexivity].
  - split; [intros _; exists (String d hay); reflexivity | reflexivity].
  - split; [discriminate | intros (behind & H); discriminate].
  - destruct (Ascii.ascii_dec c d) as [->|Hne].
    + rewrite IH. split; intros (behind & H); exists behind; cbn in *; congruence.
    + split; [discriminate | intros (behind & H); cbn in H; congruence].
Qed.

(** [includes] is the substring test. *)
Lemma includes_occurs hay needle :
  includes hay needle = true <-> occurs_in needle hay.
Proof.
  unfold occurs_in.
  induction hay as [|d hay IH]; cbn [includes]; rewrite Bool.orb_true_iff, prefix_occurs.
  - split.
    + intros [(behind & H) | H]; [| discriminate]. exists EmptyString, behind. exact H.
    + intros ([|c before] & behind & H); [left; exists behind; exact H | discriminate].
  - rewrite IH. split.
    + intros [(behind & H) | (before & behind & H)].
      * exists EmptyString, behind. exact H.
      * exists (String d before), behind. cbn. now rewrite H.
    + intros ([|c before] & behind & H).
      * left. exists behind. exact H.
      * right. cbn in H. injection H as _ H. exists before, behind. exact H.
Qed.

(** X8: when a profile names cities and the property has one, the city is a match
    exactly when one of the named cities, put in lower case by
    [toLowerCase], occurs in the property's city put in lower case: the
    comparison accepts a named city that is only a part of the property's,
    and, [toLowerCase] leaving the empty text empty, an empty name among the
    cities matches every property. *)
Theorem city_matches_by_substring (p : PropstackProperty)
        (sp : PropstackSearchProfile) (t : tally)
        (first : string) (others : list string) (propCity : string) :
  cities sp = Some (first :: others) ->
  city p = Some propCity -> propCity <> EmptyString ->
  (t_score (city_block p sp t) = t_score t + 3
   <-> exists c, In c (first :: others)
                 /\ occurs_in (toLowerCase c) (toLowerCase propCity))
  /\ (t_score (city_block p sp t) = t_score t + 3
      \/ (city_block p sp t
          = mkTally (t_score t) (t_maxScore t + 3) (t_matches t)
                    (t_mismatches t ++ [City])))
  /\ (toLowerCase EmptyString = EmptyString ->
      In EmptyString (first :: others) ->
      t_score (city_block p sp t) = t_score t + 3).
Proof.
  intros Hcities Hcity Hne.
  assert (Hiff : t_score (city_block p sp t) = t_score t + 3
                 <-> exists c, In c (first :: others)
                               /\ occurs_in (toLowerCase c) (toLowerCase propCity)).
  { unfold Match.city_block. rewrite Hcities, Hcity. cbn [has_length nullish fmt].
    destruct (String.eqb_spec propCity EmptyString) as [?|_]; [contradiction |].
    assert (Htruthy : truthy_string propCity = true) by now apply truthy_string_iff.
    rewrite Htruthy. cbn [andb].
    destruct (existsb _ (first :: others)) eqn:Hex; cbn [judge t_score].
    - split; [intros _ | reflexivity].
      apply existsb_exists in Hex. destruct Hex as (c & Hin & Hc).
      exists c. split; [exact Hin | now apply includes_occurs].
    - split; [lia |]. intros (c & Hin & Hc).
      apply includes_occurs in Hc.
      assert (Hex' : existsb (fun c => includes (toLowerCase propCity) (toLowerCase c))
                             (first :: others) = true)
        by (apply existsb_exists; eauto).
      congruence. }
  split; [exact Hiff |]. split.
  - unfold Match.city_block. rewrite Hcities, Hcity. cbn [has_length nullish fmt].
    destruct (String.eqb_spec propCity EmptyString) as [?|_]; [contradiction |].
    assert (Htruthy : truthy_string propCity = true) by now apply truthy_string_iff.
    rewrite Htruthy. cbn [andb].
    destruct (existsb _ (first :: others)); cbn [judge t_score]; auto.
  - intros Hempty Hin. apply Hiff. exists EmptyString. split; [exact Hin |].
    rewrite Hempty. exists EmptyString, (toLowerCase propCity). reflexivity.
Qed.

End CityFacts.


(* ------------------------------------------------------------------------- *)
(** ** The two walks against an upstream *)

Section WindowFacts.

Variable T : Type.

Lemma firstn_window (a b : nat) (l : list T) :
  firstn a l ++ firstn b (skipn a l) = firstn (a + b) l.
Proof.
  revert l. induction a as [|a IH]; intros l; [reflexivity |].
  destruct l as [|x l]; cbn [firstn skipn app Nat.add].
  - now rewrite firstn_nil.
  - now rewrite IH.
Qed.

Lemma len_firstn (a : nat) (l : list T) : len (firstn a l) = Z.min (Z.of_nat a) (len l).
Proof. unfold len. rewrite length_firstn. lia. Qed.

Lemma firstn_beyond (a b : nat) (l : list T) :
  (List.length l <= a)%nat -> (List.length l <= b)%nat -> firstn a l = firstn b l.
Proof. intros Ha Hb. now rewrite !firstn_all2. Qed.

Lemma window_empty (a b : nat) (l : list T) :
  firstn (S b) (skipn a l) = [] -> (List.length l <= a)%nat.
Proof.
  intros H. destruct (skipn a l) as [|x r] eqn:Hs; [| discriminate].
  pose proof (length_skipn a l) as Hlen. rewrite Hs in Hlen. cbn in Hlen. lia.
Qed.

End WindowFacts.

Section ProfileWalkMore.

Import Property SearchProfile Match Scenario Walks.

Variable get : Z -> Z -> PropstackPaginatedResponse PropstackSearchProfile + error.

Lemma walk_within (maxProfiles : Z) :
  answers_within get ->
  forall fuel allProfiles page hasMore fetched,
    len allProfiles <= Z.max 0 maxProfiles ->
    walk get fuel maxProfiles allProfiles page hasMore = Some (inl fetched) ->
    len fetched <= Z.max 0 maxProfiles.
Proof.
  intros Hper.
  induction fuel as [|fuel IH]; intros allProfiles page hasMore fetched Hle Hwalk;
    [discriminate |].
  cbn [walk] in Hwalk.
  destruct (hasMore && (len allProfiles <? maxProfiles)) eqn:Hgo;
    [| injection Hwalk as <-; assumption].
  apply Bool.andb_true_iff in Hgo. destruct Hgo as [_ Hlt]. apply Z.ltb_lt in Hlt.
  destruct (get page _) as [res|e] eqn:Hget; [| discriminate].
  destruct (data res) as [[|x more]|] eqn:Hdata.
  - eapply IH; eassumption.
  - eapply IH; [| eassumption].
    assert (Hpos : 0 < Z.min 100 (maxProfiles - len allProfiles)) by lia.
    pose proof (Hper _ _ _ _ Hpos Hget Hdata) as Hsize.
    rewrite len_app. lia.
  - eapply IH; eassumption.
Qed.

(** X9: the profile walk always comes to an end, whatever the upstream answers;
    and against an upstream that answers within [per_page] it never gathers
    more profiles than the cap (none when the cap is negative). *)
Theorem profile_walk_ends_within_cap (max_profiles : option Z) :
  exists r,
    fetch_profiles get max_profiles = Some r
    /\ (answers_within get ->
        forall fetched, r = inl fetched ->
                        len fetched <= Z.max 0 (maxProfiles_of max_profiles)).
Proof.
  destruct (fetch_profiles_returns get max_profiles) as (r & Hr).
  exists r. split; [exact Hr |].
  intros Hper fetched ->.
  eapply walk_within; [exact Hper | | exact Hr].
  unfold len; cbn [List.length]. lia.
Qed.

(** X10: with a cap of zero or less the walk asks the upstream for nothing, and
    the tool, once it has the property, answers that there are no search
    profiles, whatever the upstream holds. *)
Theorem no_cap_no_request
        (unwrapNumber : option float -> option float) (toLowerCase : string -> string)
        (p : PropstackProperty) (cap : Z) :
  cap <= 0 ->
  fetch_profiles get (Some cap) = Some (inl [])
  /\ match_contacts_to_property unwrapNumber toLowerCase (inl p) get (Some cap)
     = Some (textResult NoProfiles).
Proof.
  intros Hcap.
  assert (Hfetch : fetch_profiles get (Some cap) = Some (inl [])).
  { unfold fetch_profiles, enough, maxProfiles_of. cbn [nullish walk].
    assert (Hstop : (len (@nil PropstackSearchProfile) <? cap) = false)
      by (apply Z.ltb_ge; unfold len; cbn; lia).
    now rewrite Hstop. }
  split; [exact Hfetch |].
  unfold match_contacts_to_property. now rewrite Hfetch.
Qed.

End ProfileWalkMore.


Section HonestUpstream.

Import Property SearchProfile Match Scenario Walks.

Lemma honest_profile_rounds (items : list PropstackSearchProfile) (c : nat) :
  forall fuel k hasMore,
    (k <= c)%nat ->
    (c - k + 2 <= fuel)%nat ->
    (hasMore = true -> (100 * k < List.length items)%nat \/ k = 0%nat) ->
    (hasMore = false -> firstn (100 * k) items = firstn (100 * c) items) ->
    walk (upstream items) fuel (100 * Z.of_nat c) (firstn (100 * k) items)
         (Z.of_nat k + 1) hasMore
    = Some (inl (firstn (100 * c) items)).
Proof.
  induction fuel as [|fuel IH]; intros k hasMore Hk Hfuel Hmore Hdone; [lia |].
  cbn [walk]. rewrite len_firstn.
  destruct (hasMore && (Z.min (Z.of_nat (100 * k)) (len items) <? 100 * Z.of_nat c)) eqn:Hgo.
  - apply Bool.andb_true_iff in Hgo. destruct Hgo as [-> Hlt]. apply Z.ltb_lt in Hlt.
    assert (Hkc : (k < c)%nat).
    { destruct (Hmore eq_refl) as [Hn | ->]; unfold len in *; lia. }
    replace (Z.min 100 (100 * Z.of_nat c - Z.min (Z.of_nat (100 * k)) (len items)))
      with 100 by lia.
    unfold upstream at 1. cbn [data meta nullish].
    replace (Z.to_nat ((Z.of_nat k + 1 - 1) * 100)) with (100 * k)%nat by lia.
    change (Z.to_nat 100) with 100%nat.
    destruct (firstn 100 (skipn (100 * k) items)) as [|x more] eqn:Hwin.
    + destruct fuel as [|fuel']; [lia |]. cbn [walk andb].
      apply window_empty in Hwin.
      f_equal. f_equal. apply firstn_beyond; lia.
    + rewrite <- Hwin, firstn_window.
      replace (100 * k + 100)%nat with (100 * S k)%nat by lia.
      replace (Z.of_nat k + 1 + 1) with (Z.of_nat (S k) + 1) by lia.
      apply IH; [lia | lia | |].
      * intros H. apply Bool.andb_true_iff in H. destruct H as [H _].
        apply Z.ltb_lt in H. rewrite len_firstn in H. unfold len in H. left. lia.
      * intros H. apply Bool.andb_false_iff in H. rewrite !len_firstn in H.
        destruct H as [H | H]; apply Z.ltb_ge in H; unfold len in H.
        -- apply firstn_beyond; lia.
        -- f_equal. lia.
  - f_equal. f_equal.
    destruct hasMore; [| now apply Hdone].
    cbn [andb] in Hgo. apply Z.ltb_ge in Hgo. unfold len in Hgo.
    destruct (Hmore eq_refl) as [Hn | ->]; f_equal; lia.
Qed.

(** X11: against an upstream that serves its profiles in windows and reports their
    number, a cap that is a multiple of 100 makes the walk gather the first
    [cap] profiles, each once and in order (all of them when there are fewer);
    so does the default cap of 1000. *)
Theorem honest_profile_walk (items : list PropstackSearchProfile) (c : nat) :
  fetch_profiles (upstream items) (Some (100 * Z.of_nat c))
  = Some (inl (firstn (100 * c) items))
  /\ fetch_profiles (upstream items) None = Some (inl (firstn 1000 items)).
Proof.
  split.
  - unfold fetch_profiles, enough, maxProfiles_of. cbn [nullish].
    apply (honest_profile_rounds items c _ 0%nat true); [lia | lia | auto | discriminate].
  - unfold fetch_profiles, enough, maxProfiles_of. cbn [nullish].
    apply (honest_profile_rounds items 10 _ 0%nat true); [lia | lia | auto | discriminate].
Qed.

End HonestUpstream.

Section DealWalkMore.

Import Deal Pipeline Scenario Walks.

Lemma honest_deal_rounds (items : list PropstackDeal) :
  forall fuel k,
    (k < 20)%nat ->
    (20 - k <= fuel)%nat ->
    exists page,
      Pipeline.walk (fun page => upstream items page 100) fuel
                    (firstn (100 * k) items) (Z.of_nat k + 1)
      = Some (inl (mkWalked (firstn 2000 items) (Some (len items)) page)).
Proof.
  induction fuel as [|fuel IH]; intros k Hk Hfuel; [lia |].
  cbn [Pipeline.walk]. unfold upstream at 1. cbn [data meta nullish].
  replace (Z.to_nat ((Z.of_nat k + 1 - 1) * 100)) with (100 * k)%nat by lia.
  change (Z.to_nat 100) with 100%nat.
  assert (Hall : match firstn 100 (skipn (100 * k) items) with
                 | d :: more => firstn (100 * k) items ++ d :: more
                 | [] => firstn (100 * k) items
                 end = firstn (100 * S k) items).
  { destruct (firstn 100 (skipn (100 * k) items)) as [|d more] eqn:Hwin.
    - apply window_empty in Hwin. apply firstn_beyond; lia.
    - rewrite <- Hwin, firstn_window. f_equal. lia. }
  rewrite Hall. rewrite len_firstn.
  destruct ((Z.min (Z.of_nat (100 * S k)) (len items) <? len items)
            && (Z.min (Z.of_nat (100 * S k)) (len items) <? maxDeals)) eqn:Hgo.
  - apply Bool.andb_true_iff in Hgo. destruct Hgo as [Hn Hcap].
    apply Z.ltb_lt in Hn, Hcap. unfold maxDeals in Hcap.
    replace (Z.of_nat k + 1 + 1) with (Z.of_nat (S k) + 1) by lia.
    apply IH; unfold len in *; lia.
  - eexists. f_equal. f_equal. f_equal.
    apply Bool.andb_false_iff in Hgo. unfold maxDeals in Hgo.
    destruct Hgo as [H | H]; apply Z.ltb_ge in H; unfold len in H.
    + apply firstn_beyond; lia.
    + f_equal. lia.
Qed.

(** X12: against an upstream that serves its deals in pages of 100 and reports
    their number, the deal walk gathers the first 2000 deals, each once and in
    order (all of them when there are fewer), within twenty requests, and
    pushes its warning exactly when the upstream holds more than 2000. *)
Theorem honest_deal_walk (items : list PropstackDeal) (fuel : nat) :
  (20 <= fuel)%nat ->
  exists w,
    Pipeline.walk (fun page => upstream items page 100) fuel [] 1 = Some (inl w)
    /\ allDeals w = firstn 2000 items
    /\ totalCount w = Some (len items)
    /\ warnings_of w
       = if 2000 <? len items then [Capped 2000 (len items)] else [].
Proof.
  intros Hfuel.
  destruct (honest_deal_rounds items fuel 0%nat) as (page & Hwalk); [lia | lia |].
  change (firstn (100 * 0) items) with (@nil PropstackDeal) in Hwalk.
  change (Z.of_nat 0 + 1) with 1 in Hwalk.
  eexists. split; [exact Hwalk |].
  split; [reflexivity |]. split; [reflexivity |].
  unfold warnings_of. cbn [totalCount allDeals]. rewrite len_firstn. unfold maxDeals.
  destruct (Z.ltb_spec 2000 (len items)) as [Hbig | Hsmall].
  - replace (2000 <=? Z.min (Z.of_nat 2000) (len items)) with true
      by (symmetry; apply Z.leb_le; lia).
    reflexivity.
  - now rewrite Bool.andb_false_r.
Qed.

Variable get : Z -> PropstackPaginatedResponse PropstackDeal + error.

(** X13: when every page comes back empty while reporting a positive total, the
    [do ... while] loop never ends: no number of rounds is enough. *)
Theorem stalled_deal_walk_never_ends (fuel : nat) :
  stalls get -> Pipeline.walk get fuel [] 1 = None.
Proof.
  intros Hstall.
  assert (Hany : forall fuel page, Pipeline.walk get fuel [] page = None).
  { clear fuel. induction fuel as [|fuel IH]; intros page; [reflexivity |].
    cbn [Pipeline.walk].
    destruct (Hstall page) as (res & total & -> & Hdata & -> & Hpos).
    assert (Hsame : match data res with
                    | Some (d :: more) => [] ++ d :: more
                    | _ => []
                    end = @nil PropstackDeal)
      by (destruct Hdata as [-> | ->]; reflexivity).
    rewrite Hsame. cbn [nullish].
    replace (len (@nil PropstackDeal) <? total) with true
      by (symmetry; apply Z.ltb_lt; unfold len; cbn; lia).
    replace (len (@nil PropstackDeal) <? maxDeals) with true by reflexivity.
    cbn [andb]. apply IH. }
  apply Hany.
Qed.

(** X14: the cap of the deal walk is soft: when no page holds more than [k] deals,
    the walk gathers fewer than [maxDeals + k]. *)
Theorem deal_walk_soft_cap (k : Z) (fuel : nat) (w : walked) :
  0 <= k ->
  pages_hold get k ->
  Pipeline.walk get fuel [] 1 = Some (inl w) ->
  len (allDeals w) < maxDeals + Z.max k 1.
Proof.
  intros Hk Hpages.
  assert (Hany : forall fuel acc page,
             len acc < maxDeals ->
             Pipeline.walk get fuel acc page = Some (inl w) ->
             len (allDeals w) < maxDeals + Z.max k 1).
  { clear fuel. induction fuel as [|fuel IH]; intros acc page Hacc Hwalk; [discriminate |].
    cbn [Pipeline.walk] in Hwalk.
    destruct (get page) as [res|e] eqn:Hget; [| discriminate].
    set (acc' := match data res with
                 | Some (d :: more) => acc ++ d :: more
                 | _ => acc
                 end) in *.
    assert (Hacc' : len acc' <= len acc + k).
    { subst acc'. destruct (data res) as [[|d more]|] eqn:Hdata; try lia.
      pose proof (Hpages _ _ _ Hget Hdata). rewrite len_app. lia. }
    destruct ((len acc' <? nullish (meta res) 0) && (len acc' <? maxDeals)) eqn:Hgo.
    - apply Bool.andb_true_iff in Hgo. destruct Hgo as [_ Hlt]. apply Z.ltb_lt in Hlt.
      eapply IH; eassumption.
    - injection Hwalk as <-. cbn [allDeals]. lia. }
  apply Hany. reflexivity.
Qed.

End DealWalkMore.


(* ------------------------------------------------------------------------- *)
(** ** The stage table *)

Section BucketFacts.

Import Deal Pipeline Buckets.

Variable unwrapNumber : option float -> option float.
Variable getTime : string -> option Z.
Variable now : Z.
Variable names : list (Z * string).

Local Abbreviation step := (Pipeline.step unwrapNumber getTime now names).
Local Abbreviation aggregated := (Pipeline.aggregated unwrapNumber getTime now names).
Local Abbreviation run := (Pipeline.run unwrapNumber getTime now names).

Lemma aggregated_snoc l d : aggregated (l ++ [d]) = step (aggregated l) d.
Proof. unfold Pipeline.aggregated. now rewrite fold_left_app. Qed.

Lemma has_key_in {V : Type} key (props : list (string * V)) :
  has_key key props = true <-> In key (map fst props).
Proof.
  unfold has_key. rewrite existsb_exists, in_map_iff. split.
  - intros (kv & Hin & Hk). apply String.eqb_eq in Hk. eauto.
  - intros (kv & Hk & Hin). exists kv. split; [exact Hin | now apply String.eqb_eq].
Qed.

Lemma entry_of_absent key table :
  has_key key table = false -> entry_of key table = None.
Proof.
  unfold entry_of, has_key.
  induction table as [|kv rest IH]; cbn [existsb find]; [reflexivity |].
  destruct (String.eqb (fst kv) key); [discriminate | exact IH].
Qed.

Lemma keys_of_touch key price d table :
  map fst (touch key price d table) = map fst table.
Proof.
  induction table as [|[k st] rest IH]; cbn [touch]; [reflexivity |].
  destruct (String.eqb k key); cbn [map fst]; [reflexivity | now rewrite IH].
Qed.

Lemma keys_of_place {V : Type} key (v : V) props k :
  In k (map fst (place key v props)) <-> k = key \/ In k (map fst props).
Proof.
  induction props as [|kv rest IH]; cbn [place map fst In].
  - split; [intros [H | []]; auto | intros [H | []]; auto].
  - destruct (comes_before key (fst kv)); cbn [map fst In].
    + split; [intros [H | H]; auto | intros [H | H]; auto].
    + rewrite IH. split; [intros [H | [H | H]]; auto | intros [H | [H | H]]; auto].
Qed.

Lemma keys_of_place_nodup {V : Type} key (v : V) props :
  ~ In key (map fst props) ->
  NoDup (map fst props) -> NoDup (map fst (place key v props)).
Proof.
  induction props as [|kv rest IH]; cbn [place map fst]; intros Hnew Hnd.
  - repeat constructor. intros [].
  - destruct (comes_before key (fst kv)); cbn [map fst].
    + constructor; assumption.
    + inversion Hnd as [|? ? Hnot Hrest]; subst.
      constructor.
      * rewrite keys_of_place. cbn [In] in Hnew. intros [H | H]; [| contradiction].
        apply Hnew. now left.
      * apply IH; [| assumption]. cbn [In] in Hnew. tauto.
Qed.

Lemma entry_of_touch_same key price d table :
  entry_of key (touch key price d table)
  = option_map (touched price d) (entry_of key table).
Proof.
  unfold entry_of.
  induction table as [|[k st] rest IH]; cbn [touch find fst]; [reflexivity |].
  destruct (String.eqb k key) eqn:Hk; cbn [find fst]; rewrite Hk; [reflexivity | exact IH].
Qed.

Lemma entry_of_touch_other key key' price d table :
  key' <> key -> entry_of key' (touch key price d table) = entry_of key' table.
Proof.
  intros Hne. unfold entry_of.
  induction table as [|[k st] rest IH]; cbn [touch find fst]; [reflexivity |].
  destruct (String.eqb_spec k key) as [-> | Hk]; cbn [find fst].
  - destruct (String.eqb_spec key key'); [congruence | reflexivity].
  - destruct (String.eqb k key'); [reflexivity | exact IH].
Qed.

Lemma entry_of_place_same key st table :
  has_key key table = false -> entry_of key (place key st table) = Some st.
Proof.
  unfold entry_of, has_key.
  induction table as [|kv rest IH]; cbn [place existsb find fst].
  - now rewrite String.eqb_refl.
  - destruct (String.eqb (fst kv) key) eqn:Hk; [discriminate |]. cbn [orb]. intros Hrest.
    destruct (comes_before key (fst kv)); cbn [find fst].
    + now rewrite String.eqb_refl.
    + rewrite Hk. now apply IH.
Qed.

Lemma entry_of_place_other key key' st table :
  key' <> key -> entry_of key' (place key st table) = entry_of key' table.
Proof.
  intros Hne. unfold entry_of.
  induction table as [|kv rest IH]; cbn [place find fst].
  - destruct (String.eqb_spec key key'); [congruence | reflexivity].
  - destruct (comes_before key (fst kv)); cbn [find fst].
    + destruct (String.eqb_spec key key'); [congruence | reflexivity].
    + destruct (String.eqb (fst kv) key'); [reflexivity | exact IH].
Qed.

Lemma entry_of_present key table :
  has_key key table = true -> exists st, entry_of key table = Some st.
Proof.
  unfold entry_of, has_key.
  induction table as [|kv rest IH]; cbn [existsb find]; [discriminate |].
  destruct (String.eqb (fst kv) key); [eexists; reflexivity | exact IH].
Qed.

Lemma entry_of_bump_same key price d table :
  entry_of key (bump key price d table)
  = Some match entry_of key table with
         | Some st => mkStats (count st + 1) (PrimFloat.add (value st) price)
                              (deals st ++ [d])
         | None => mkStats 1 (PrimFloat.add 0%float price) [d]
         end.
Proof.
  unfold bump. destruct (has_key key table) eqn:Hk.
  - rewrite entry_of_touch_same.
    destruct (entry_of_present key table Hk) as (st & ->). reflexivity.
  - rewrite (entry_of_place_same key _ table Hk), (entry_of_absent key table Hk).
    reflexivity.
Qed.

Lemma entry_of_bump_other key key' price d table :
  key' <> key -> entry_of key' (bump key price d table) = entry_of key' table.
Proof.
  intros Hne. unfold bump. destruct (has_key key table).
  - now apply entry_of_touch_other.
  - now apply entry_of_place_other.
Qed.

Lemma keys_of_bump key price d table k :
  In k (map fst (bump key price d table)) <-> k = key \/ In k (map fst table).
Proof.
  unfold bump. destruct (has_key key table) eqn:Hk.
  - rewrite keys_of_touch. apply has_key_in in Hk.
    split; [auto | intros [-> | H]; assumption].
  - apply keys_of_place.
Qed.

Lemma keys_of_bump_nodup key price d table :
  NoDup (map fst table) -> NoDup (map fst (bump key price d table)).
Proof.
  intros Hnd. unfold bump. destruct (has_key key table) eqn:Hk.
  - now rewrite keys_of_touch.
  - apply keys_of_place_nodup; [| exact Hnd].
    intros Hin. apply has_key_in in Hin. congruence.
Qed.

Lemma entry_of_in key st table :
  NoDup (map fst table) -> In (key, st) table -> entry_of key table = Some st.
Proof.
  unfold entry_of.
  induction table as [|[k0 st0] rest IH]; intros Hnd Hin; [destruct Hin |].
  inversion Hnd as [|? ? Hnot Hrest]; subst. cbn [find fst].
  destruct Hin as [[= -> ->] | Hin].
  - now rewrite String.eqb_refl.
  - destruct (String.eqb_spec k0 key) as [-> | _]; [| now apply IH].
    exfalso. apply Hnot. apply (in_map fst) in Hin. exact Hin.
Qed.

Lemma entry_of_some key st table :
  entry_of key table = Some st -> In (key, st) table.
Proof.
  unfold entry_of.
  induction table as [|[k0 st0] rest IH]; cbn [find fst]; [discriminate |].
  destruct (String.eqb_spec k0 key) as [-> | _].
  - intros [= ->]. now left.
  - intros H. right. now apply IH.
Qed.

Lemma sum_counts_place key st table :
  sum_counts (place key st table) = count st + sum_counts table.
Proof.
  induction table as [|kv rest IH]; cbn [place sum_counts fold_right snd].
  - reflexivity.
  - destruct (comes_before key (fst kv)); cbn [sum_counts fold_right snd].
    + reflexivity.
    + fold (sum_counts (place key st rest)). fold (sum_counts rest). lia.
Qed.

Lemma sum_counts_touch key price d table :
  has_key key table = true ->
  sum_counts (touch key price d table) = sum_counts table + 1.
Proof.
  unfold has_key.
  induction table as [|[k0 st] rest IH]; cbn [existsb touch sum_counts fold_right snd fst];
    [discriminate |].
  destruct (String.eqb k0 key); cbn [orb sum_counts fold_right snd touched count].
  - intros _. lia.
  - intros Hrest. fold (sum_counts (touch key price d rest)). fold (sum_counts rest).
    specialize (IH Hrest). lia.
Qed.

Lemma sum_counts_bump key price d table :
  sum_counts (bump key price d table) = sum_counts table + 1.
Proof.
  unfold bump. destruct (has_key key table) eqn:Hk.
  - now apply sum_counts_touch.
  - rewrite sum_counts_place. cbn [touched count]. lia.
Qed.

Lemma of_stage_snoc key l d :
  of_stage names key (l ++ [d])
  = if String.eqb (stageName names d) key
    then of_stage names key l ++ [d]
    else of_stage names key l.
Proof.
  unfold of_stage. rewrite filter_app. cbn [filter].
  destruct (String.eqb (stageName names d) key); [reflexivity | apply app_nil_r].
Qed.

(** The table the loop has built after the deals of [l]. *)
Lemma table_after l :
  let a := aggregated l in
  NoDup (map fst (stageStats a))
  /\ (forall key,
        match entry_of key (stageStats a) with
        | Some st =>
            deals st = of_stage names key l /\ count st = len (deals st) /\ deals st <> []
        | None => of_stage names key l = []
        end)
  /\ sum_counts (stageStats a) = len l
  /\ totalDeals a = len l.
Proof.
  induction l as [|d l IH] using rev_ind; cbv zeta.
  - split; [constructor |]. split; [intros key; reflexivity |]. split; reflexivity.
  - destruct IH as (Hnd & Hentries & Hsum & Htotal).
    rewrite aggregated_snoc. cbn [Pipeline.step stageStats totalDeals].
    split; [now apply keys_of_bump_nodup |].
    split; [| split].
    + intros key. rewrite of_stage_snoc. specialize (Hentries key).
      destruct (String.eqb_spec (stageName names d) key) as [<- | Hne].
      * rewrite entry_of_bump_same.
        destruct (entry_of (stageName names d) (stageStats (aggregated l))) as [st|];
          cbn [deals count].
        -- destruct Hentries as (Hd & Hc & _). rewrite <- Hd.
           repeat split.
           ++ rewrite Hc. unfold len. rewrite length_app. cbn [List.length]. lia.
           ++ intros H. apply app_eq_nil in H. destruct H as [_ H]. discriminate.
        -- rewrite Hentries. repeat split. discriminate.
      * rewrite entry_of_bump_other by congruence. exact Hentries.
    + rewrite sum_counts_bump, Hsum. unfold len. rewrite length_app. cbn [List.length]. lia.
    + rewrite Htotal. unfold len. rewrite length_app. cbn [List.length]. lia.
Qed.

(** X15: when no stage is called like a member of [Object.prototype], the loop
    runs through and leaves a stage table that sorts the deals: each stage
    once, each entry holding exactly the deals of its stage in their order and
    counting them, every deal in the entry of its stage; the counts add up to
    the number of deals, which is [totalDeals]. *)
Theorem stage_table_sorts_the_deals (dealList : list PropstackDeal) :
  (forall d, In d dealList -> inherited (stageName names d) = false) ->
  run (Pipeline.empty) dealList = inl (aggregated dealList)
  /\ sorts names dealList (stageStats (aggregated dealList))
  /\ sum_counts (stageStats (aggregated dealList)) = len dealList
  /\ totalDeals (aggregated dealList) = len dealList.
Proof.
  intros Hclean.
  split; [now apply run_is_fold |].
  destruct (table_after dealList) as (Hnd & Hentries & Hsum & Htotal).
  split; [| split; assumption].
  split; [exact Hnd |]. split.
  - intros key st Hin.
    specialize (Hentries key). now rewrite (entry_of_in key st _ Hnd Hin) in Hentries.
  - intros d Hd.
    specialize (Hentries (stageName names d)).
    destruct (entry_of (stageName names d) (stageStats (aggregated dealList))) as [st|] eqn:He.
    + apply entry_of_some in He. apply (in_map fst) in He. exact He.
    + exfalso.
      assert (Hin : In d (of_stage names (stageName names d) dealList)).
      { unfold of_stage. apply filter_In. split; [exact Hd | apply String.eqb_refl]. }
      rewrite Hentries in Hin. destruct Hin.
Qed.

(** X16: a line of the stale list never shows less than 14 days: a stale deal with
    an [updated_at] is shown with the whole days since then, at least 14, and
    a deal that is stale by its [created_at] alone is shown with "?". *)
Theorem stale_deals_show_their_age (d : PropstackDeal) :
  is_stale getTime now d = true ->
  match updated_at d with
  | Some s =>
      exists t n,
        getTime s = Some t
        /\ daysStale getTime now d = Days n
        /\ 14 <= n
        /\ n * 86400000 <= now - t < (n + 1) * 86400000
  | None => daysStale getTime now d = QuestionMark
  end.
Proof.
  unfold is_stale, lastUpdate, daysStale, daysBetween, staleThresholdMs.
  destruct (updated_at d) as [s|]; [| reflexivity].
  intros H. apply Bool.andb_true_iff in H. destruct H as [Htruthy Hold].
  rewrite Htruthy.
  destruct (getTime s) as [t|]; [| discriminate].
  apply Z.ltb_lt in Hold.
  exists t, ((now - t) / (1000 * 60 * 60 * 24)).
  split; [reflexivity |]. split; [reflexivity |].
  change (1000 * 60 * 60 * 24) with 86400000.
  pose proof (Z.div_mod (now - t) 86400000 ltac:(lia)) as Hdm.
  pose proof (Z.mod_pos_bound (now - t) 86400000 ltac:(lia)) as Hmod.
  lia.
Qed.

End BucketFacts.

Section SummaryFacts.

Import Deal Pipeline Buckets.

Variable unwrapNumber : option float -> option float.
Variable getTime : string -> option Z.
Variable now : Z.

(** X17: a stage called like a member of [Object.prototype] (a pipeline stage named
    "constructor", say) makes the loop throw at the first deal of that stage:
    the tool answers with an error and the summary is lost. *)
Theorem inherited_stage_name_throws
        (pipelines : list DealPipeline.PropstackDealPipeline)
        (get : Z -> PropstackPaginatedResponse PropstackDeal + error)
        (fuel : nat) (w : walked) (d : PropstackDeal) :
  Pipeline.walk get fuel [] 1 = Some (inl w) ->
  In d (allDeals w) ->
  inherited (stageName (stageNames pipelines) d) = true ->
  exists e,
    Pipeline.pipeline_summary unwrapNumber getTime now (inl pipelines) get fuel
    = Some (errorResult "Pipeline summary" e).
Proof.
  intros Hwalk Hin Hd.
  unfold Pipeline.pipeline_summary. rewrite Hwalk.
  destruct (run_throws unwrapNumber getTime now (stageNames pipelines) (allDeals w)
              Pipeline.empty) as (e & ->);
    eauto.
Qed.

End SummaryFacts.

(* ------------------------------------------------------------------------- *)
(** ** The lead intake *)

Section IntakeFacts.

Import FanOut Intake Intake.Args.

Variable get_contacts :
  list (string * string) -> PropstackPaginatedResponse Contact.PropstackContact + error.
Variable put_contact : Z -> list (string * field) -> Contact.PropstackContact + error.
Variable post_contact : list (string * field) -> Contact.PropstackContact + error.
Variable post_task : TaskBody.task -> Task.PropstackTask + error.
Variable get_deal_pipelines : list PositionedPipeline.PropstackDealPipeline + error.
Variable post_client_property :
  ClientProperty.client_property -> Deal.PropstackDeal + error.
Variable tomorrow : string.
Variable early : bool.

Local Abbreviation smart_lead_intake :=
  (smart_lead_intake get_contacts put_contact post_contact post_task
                     get_deal_pipelines post_client_property tomorrow early).

Local Abbreviation failed_with :=
  (failed_with get_contacts put_contact post_contact post_task
               get_deal_pipelines post_client_property).

Local Abbreviation position_of s := (nullish (PositionedStage.position s) 0).

(** Every branch of the handler, one at a time. *)
Ltac branches :=
  unfold Intake.smart_lead_intake, intake, dedup, write_contact, log_note, open_deal,
    bind, await, push, all_settled, thrown, ret;
  repeat (cbn [fst snd app log pending answer unhandled hd_error];
          match goal with
          | |- context [match ?x with _ => _ end] =>
              lazymatch x with
              | context [match _ with _ => _ end] => fail
              | _ => destruct x eqn:?
              end
          end);
  cbn [fst snd app log pending answer unhandled hd_error].

Ltac accounted :=
  split;
  [ reflexivity
  | split;
    [ reflexivity
    | split; intros c Hin; cbn [In] in Hin;
      repeat match type of Hin with
        | _ \/ _ => destruct Hin as [Hin | Hin]
        | False => destruct Hin
        end;
      subst c; auto ] ].

Ltac pick H :=
  cbn [In] in H;
  repeat match type of H with
    | _ \/ _ => destruct H as [H | H]
    | False => destruct H
    end;
  try discriminate H.

Lemma sort_first_is_lowest (stages : list PositionedStage.PropstackDealStage) :
  forall s rest,
    Match.sort by_position stages = s :: rest ->
    exists before after,
      stages = before ++ s :: after
      /\ (forall s', In s' before -> position_of s < position_of s')
      /\ (forall s', In s' after -> position_of s <= position_of s').
Proof.
  induction stages as [|x l IH]; intros s rest Hsort; [discriminate |].
  unfold Match.sort in Hsort. cbn [fold_right] in Hsort.
  fold (Match.sort by_position l) in Hsort.
  destruct (Match.sort by_position l) as [|y sorted] eqn:Hl.
  - assert (l = []) as ->.
    { destruct l as [|z l']; [reflexivity |].
      unfold Match.sort in Hl. cbn [fold_right] in Hl.
      destruct (fold_right (Match.insert by_position) [] l'); cbn in Hl;
        [discriminate | destruct (by_position z p <=? 0); discriminate]. }
    cbn in Hsort. injection Hsort as <- <-.
    exists [], []. repeat split; intros s' [].
  - destruct (IH y sorted eq_refl) as (before & after & -> & Hbefore & Hafter).
    cbn [Match.insert] in Hsort. unfold by_position in Hsort.
    destruct (Z.leb_spec (position_of x - position_of y) 0) as [Hle | Hgt];
      injection Hsort as <- <-.
    + exists [], (before ++ y :: after). repeat split; [intros s' [] |].
      intros s' Hin. apply in_app_or in Hin. destruct Hin as [Hin | [<- | Hin]].
      * specialize (Hbefore _ Hin). lia.
      * lia.
      * specialize (Hafter _ Hin). lia.
    + exists (x :: before), after. repeat split; [| exact Hafter].
      intros s' [<- | Hin]; [lia | now apply Hbefore].
Qed.

Lemma deal_body_at_first_stage (a : args) (cp : ClientProperty.client_property)
      (pipelines : list PositionedPipeline.PropstackDealPipeline)
      (p : PositionedPipeline.PropstackDealPipeline)
      (s : PositionedStage.PropstackDealStage) (contactId : Z) :
  firstStage pipelines = Some (p, s) ->
  truthy_number (property_id a) = true ->
  cp = deal_body a contactId p s ->
  exists firstPipeline others stages before stage after,
    (inl pipelines : _ + error) = inl (firstPipeline :: others)
    /\ PositionedPipeline.deal_stages firstPipeline = Some stages
    /\ stages = before ++ stage :: after
    /\ (forall s, In s before -> position_of stage < position_of s)
    /\ (forall s, In s after -> position_of stage <= position_of s)
    /\ ClientProperty.deal_pipeline_id cp = PositionedPipeline.id firstPipeline
    /\ ClientProperty.deal_stage_id cp = PositionedStage.id stage
    /\ property_id a = Some (ClientProperty.property_id cp)
    /\ ClientProperty.property_id cp <> 0.
Proof.
  intros Hfirst Hprop ->.
  unfold firstStage in Hfirst.
  destruct pipelines as [|firstPipeline others]; [discriminate |].
  destruct (PositionedPipeline.deal_stages firstPipeline) as [stages|] eqn:Hstages;
    [| discriminate].
  destruct (Match.sort by_position stages) as [|stage sorted] eqn:Hsort;
    [discriminate |].
  injection Hfirst as <- <-.
  destruct (sort_first_is_lowest stages stage sorted Hsort)
    as (before & after & Heq & Hbefore & Hafter).
  exists firstPipeline, others, stages, before, stage, after.
  unfold deal_body. cbn [ClientProperty.deal_pipeline_id ClientProperty.deal_stage_id
                           ClientProperty.property_id].
  destruct (property_id a) as [n|]; [| discriminate].
  cbn in Hprop. cbn [nullish].
  repeat (split; [assumption || reflexivity |]).
  intros ->. discriminate Hprop.
Qed.

(** X18: when the tool opens a deal, it is for the property named in the
    arguments, in the first pipeline the API lists, at the stage of that
    pipeline with the lowest [position] ([null] counting as 0), the earliest
    such stage where several share it. *)
Theorem deal_opens_at_first_stage (a : args) (cp : ClientProperty.client_property) :
  In (PostClientProperty cp) (snd (smart_lead_intake a)) ->
  exists firstPipeline others stages before stage after,
    get_deal_pipelines = inl (firstPipeline :: others)
    /\ PositionedPipeline.deal_stages firstPipeline = Some stages
    /\ stages = before ++ stage :: after
    /\ (forall s, In s before -> position_of stage < position_of s)
    /\ (forall s, In s after -> position_of stage <= position_of s)
    /\ ClientProperty.deal_pipeline_id cp = PositionedPipeline.id firstPipeline
    /\ ClientProperty.deal_stage_id cp = PositionedStage.id stage
    /\ property_id a = Some (ClientProperty.property_id cp)
    /\ ClientProperty.property_id cp <> 0.
Proof.
  branches; intros Hin; pick Hin;
    injection Hin as Hin; symmetry in Hin;
    eapply deal_body_at_first_stage; eassumption.
Qed.



(** X21: a text answer accounts for what was done: the contact was written
    once, before any post; every post is linked to that contact; the last call
    is the post of the reminder, and the report holds what became of it; a
    note was posted exactly when there was something to note. *)
Theorem text_answers_account_for_the_calls (a : args) (r : report) :
  answer (fst (smart_lead_intake a)) = Some (textResult r) ->
  (exists before write after,
      snd (smart_lead_intake a)
      = before ++ write :: after
        ++ [PostTask (reminder_task tomorrow a (contact r))]
      /\ is_contact_write write = true
      /\ (forall c, In c before -> is_contact_write c = false /\ is_post c = false)
      /\ (forall c, In c after -> is_contact_write c = false))
  /\ (forall c, In c (snd (smart_lead_intake a)) ->
                is_post c = true -> linked_contacts c = [contact r])
  /\ reminder r = settle (post_task (reminder_task tomorrow a (contact r)))
  /\ note r = (if truthy_string (noteBody a)
               then Some (settle (post_task (note_task a (contact r)))) else None).
Proof.
  branches; intros Hres; try discriminate Hres;
    try match goal with
        | H : truthy_number None = true |- _ => discriminate H
        end;
    injection Hres as <-; cbn [contact reminder note];
    (split;
     [ first
         [ eexists [], _, []; accounted
         | eexists [], _, [_]; accounted
         | eexists [], _, [_; _]; accounted
         | eexists [], _, [_; _; _]; accounted
         | eexists [_], _, []; accounted
         | eexists [_], _, [_]; accounted
         | eexists [_], _, [_; _]; accounted
         | eexists [_], _, [_; _; _]; accounted ]
     | split;
       [ intros c Hin Hpost; pick Hin; subst c; try discriminate Hpost; reflexivity
       | split; cbn [nullish];
         repeat match goal with
                | H : post_task _ = _ |- _ => cbn [nullish] in H; rewrite ?H; clear H
                end;
         reflexivity ] ]).
Qed.

(** X22: the contact is updated only when the dedup search found one, and
    then it is the first contact found that is updated, with no contact
    created; without a phone number and an email address there is no search
    and the contact is created. *)
Theorem update_only_what_the_search_found (a : args) :
  (forall contactId client,
      In (PutContact contactId client) (snd (smart_lead_intake a)) ->
      client = contactData a
      /\ contactId <> 0
      /\ (exists page found others,
             get_contacts (searchParams a) = inl page
             /\ data page = Some (found :: others)
             /\ Contact.id found = contactId)
      /\ forall client', ~ In (PostContact client') (snd (smart_lead_intake a)))
  /\ (truthy_ostring (phone a) = false ->
      truthy_ostring (email a) = false ->
      exists rest, snd (smart_lead_intake a) = PostContact (contactData a) :: rest).
Proof.
  split.
  - intros contactId client.
    branches; intros Hin; pick Hin;
      injection Hin as <- <-;
      match goal with
      | Htruthy : truthy_number _ = true |- _ =>
          cbn [truthy_number] in Htruthy; try discriminate Htruthy;
          cbn [nullish];
          (split; [reflexivity |]);
          (split; [intros Hzero; rewrite Hzero in Htruthy; discriminate Htruthy |]);
          (split;
           [ eexists _, _, _; repeat split; eassumption
           | intros client' Hin'; pick Hin' ])
      end.
  - intros Hphone Hemail.
    unfold Intake.smart_lead_intake, intake, dedup. rewrite Hphone, Hemail.
    cbn [orb]. unfold bind at 1 2. unfold ret at 1. cbn [fst].
    unfold write_contact. cbn [truthy_number].
    unfold bind at 1 2. unfold await at 1.
    cbn [app].
    destruct (post_contact (contactData a)) as [made | e]; [| eexists; reflexivity].
    branches; eexists; reflexivity.
Qed.

End IntakeFacts.

(* ------------------------------------------------------------------------- *)
(** ** Contact names *)

Section NameFacts.

Lemma fmt_cases (value : option string) (fallback : string) :
  (fmt value fallback = fallback /\ truthy_ostring value = false)
  \/ (exists s, value = Some s /\ s <> EmptyString /\ fmt value fallback = s).
Proof.
  destruct value as [s|]; [| left; split; reflexivity].
  unfold fmt, truthy_ostring, truthy_string.
  destruct (String.eqb_spec s EmptyString) as [-> | Hne].
  - left. split; reflexivity.
  - right. exists s. repeat split; assumption.
Qed.

(** X23: [contactName] never answers with the empty string; it is the [name]
    of the contact when that is neither empty nor the word "none", and a
    contact with nothing to go by is "Unknown". *)
Theorem contactName_is_never_empty (c : Contact.PropstackContact) :
  contactName c <> EmptyString
  /\ (forall n, Contact.name c = Some n -> n <> EmptyString -> n <> "none"%string ->
                contactName c = n)
  /\ (truthy_ostring (Contact.name c) = false ->
      truthy_ostring (Contact.first_name c) = false ->
      truthy_ostring (Contact.last_name c) = false ->
      contactName c = "Unknown"%string).
Proof.
  unfold contactName. split; [| split].
  - destruct (String.eqb_spec (fmt (Contact.name c) "none") "none") as [Hnone | Hnamed];
      cbn [negb].
    + match goal with
      | |- (if truthy_string ?j then _ else _) <> _ =>
          unfold truthy_string; destruct (String.eqb_spec j EmptyString) as [He | Hne];
          cbn [negb]; [discriminate | exact Hne]
      end.
    + destruct (fmt_cases (Contact.name c) "none") as [[Hf _] | (s & _ & Hs & ->)];
        [contradiction | exact Hs].
  - intros n Hname Hne Hnone. rewrite Hname. unfold fmt.
    destruct (String.eqb_spec n EmptyString) as [| _]; [contradiction |].
    destruct (String.eqb_spec n "none") as [| _]; [contradiction |].
    reflexivity.
  - intros Hname Hfirst Hlast.
    destruct (fmt_cases (Contact.name c) "none") as [[-> _] | (s & Hs & Hne & _)].
    + destruct (fmt_cases (Contact.first_name c) EmptyString)
        as [[-> _] | (s & Hs & Hne & _)].
      * destruct (fmt_cases (Contact.last_name c) EmptyString)
          as [[-> _] | (s & Hs & Hne & _)]; [reflexivity |].
        rewrite Hs in Hlast. cbn in Hlast. unfold truthy_string in Hlast.
        destruct (String.eqb_spec s EmptyString); [contradiction | discriminate].
      * rewrite Hs in Hfirst. cbn in Hfirst. unfold truthy_string in Hfirst.
        destruct (String.eqb_spec s EmptyString); [contradiction | discriminate].
    + rewrite Hs in Hname. cbn in Hname. unfold truthy_string in Hname.
      destruct (String.eqb_spec s EmptyString); [contradiction | discriminate].
Qed.

End NameFacts.

(* ------------------------------------------------------------------------- *)
(** ** IDs in paths and the messages built from them *)

Section PathFacts.

Import Helpers.

Lemma is_slash_iff (c : ascii) : is_slash c = true <-> c = "/"%char.
Proof. unfold is_slash. apply Ascii.eqb_eq. Qed.

Lemma slash_is_no_digit (c : ascii) : is_slash c = true -> is_digit c = false.
Proof. intros H. apply is_slash_iff in H. subst c. reflexivity. Qed.

Lemma digits_split (s : string) :
  s = (fst (digits s) ++ snd (digits s))%string
  /\ all_digits (fst (digits s)) = true.
Proof.
  induction s as [|c s [IHs IHd]]; [split; reflexivity |].
  cbn [digits]. destruct (is_digit c) eqn:Hc; cbn [fst snd]; [| split; reflexivity].
  split.
  - cbn [String.append]. f_equal. exact IHs.
  - cbn [all_digits]. rewrite Hc, IHd. reflexivity.
Qed.

Lemma digits_of_run (ds post : string) :
  all_digits ds = true ->
  at_boundary post = true ->
  digits (ds ++ post) = (ds, post).
Proof.
  intros Hds Hpost. induction ds as [|c ds IH].
  - cbn [String.append]. destruct post as [|c post]; [reflexivity |].
    cbn [digits]. cbn [at_boundary] in Hpost.
    rewrite (slash_is_no_digit c Hpost). reflexivity.
  - cbn [all_digits] in Hds. apply Bool.andb_true_iff in Hds. destruct Hds as [Hc Hds].
    cbn [String.append digits]. rewrite Hc, (IH Hds). reflexivity.
Qed.

Lemma no_digits_ahead (s : string) :
  starts_without_digit s = true -> fst (digits s) = EmptyString.
Proof.
  destruct s as [|c s]; [reflexivity |]. cbn [starts_without_digit digits].
  intros H. apply Bool.negb_true_iff in H. rewrite H. reflexivity.
Qed.

Lemma match_here_without_digit (c : ascii) (s : string) :
  starts_without_digit s = true -> match_here (String c s) = None.
Proof.
  intros H. cbn [match_here]. rewrite (no_digits_ahead s H).
  destruct (is_slash c); reflexivity.
Qed.

Lemma skip_without_digits (pre t : string) :
  no_digit pre = true ->
  starts_without_digit t = true ->
  extractIdFromPath (pre ++ t) = extractIdFromPath t.
Proof.
  intros Hpre Ht. induction pre as [|c pre IH]; [reflexivity |].
  cbn [no_digit] in Hpre. apply Bool.andb_true_iff in Hpre. destruct Hpre as [Hc Hpre].
  cbn [String.append extractIdFromPath].
  rewrite match_here_without_digit; [exact (IH Hpre) |].
  destruct pre as [|c' pre]; [exact Ht |].
  cbn [String.append starts_without_digit]. cbn [no_digit] in Hpre.
  apply Bool.andb_true_iff in Hpre. tauto.
Qed.

Lemma no_slash_no_id (s : string) :
  (forall c, In c (list_ascii_of_string s) -> is_slash c = false) ->
  extractIdFromPath s = None.
Proof.
  induction s as [|c s IH]; intros Hs; [reflexivity |].
  cbn [extractIdFromPath match_here].
  rewrite (Hs c) by (cbn; auto).
  apply IH. intros c' Hin. apply Hs. cbn. auto.
Qed.

(** X24: the ID [extractIdFromPath] answers with is a non-empty run of digits
    that stands in the path between a slash and either a slash or the end. *)
Theorem extractIdFromPath_is_a_numeric_segment (path id : string) :
  extractIdFromPath path = Some id ->
  id <> EmptyString
  /\ all_digits id = true
  /\ exists before after,
       path = (before ++ "/" ++ id ++ after)%string
       /\ at_boundary after = true.
Proof.
  induction path as [|c path IH]; intros Hid; [discriminate |].
  cbn [extractIdFromPath] in Hid.
  destruct (match_here (String c path)) as [found|] eqn:Hhere.
  - injection Hid as ->. cbn [match_here] in Hhere.
    destruct (is_slash c) eqn:Hc; [| discriminate].
    destruct (truthy_string (fst (digits path)) && at_boundary (snd (digits path)))
      eqn:Hrun; [| discriminate].
    injection Hhere as <-.
    apply Bool.andb_true_iff in Hrun. destruct Hrun as [Hsome Hend].
    destruct (digits_split path) as [Hsplit Hdigits].
    split; [| split; [exact Hdigits |]].
    + intros He. rewrite He in Hsome. discriminate.
    + exists EmptyString, (snd (digits path)). split; [| exact Hend].
      apply is_slash_iff in Hc. subst c. cbn [String.append]. f_equal. exact Hsplit.
  - destruct (IH Hid) as (Hne & Hdigits & before & after & -> & Hend).
    split; [exact Hne | split; [exact Hdigits |]].
    exists (String c before), after. split; [reflexivity | exact Hend].
Qed.

(** X25: in a path whose first numeric segment comes after text without
    digits, that segment is the ID: what follows it, another numeric segment
    too, is not looked at. *)
Theorem extractIdFromPath_takes_the_first_numeric_segment (before id after : string) :
  no_digit before = true ->
  id <> EmptyString ->
  all_digits id = true ->
  at_boundary after = true ->
  extractIdFromPath (before ++ "/" ++ id ++ after) = Some id.
Proof.
  intros Hbefore Hne Hdigits Hend.
  rewrite skip_without_digits by (assumption || reflexivity).
  cbn [String.append extractIdFromPath match_here].
  change (is_slash "/") with true. cbv iota.
  rewrite (digits_of_run id after Hdigits Hend). cbn [fst snd].
  rewrite Hend. unfold truthy_string.
  destruct (String.eqb_spec id EmptyString) as [| _]; [contradiction |].
  reflexivity.
Qed.

Lemma append_empty_r (s : string) : (s ++ EmptyString)%string = s.
Proof. induction s as [|c s IH]; cbn [String.append]; congruence. Qed.

Lemma digits_of_all (ds : string) :
  all_digits ds = true -> digits ds = (ds, EmptyString).
Proof.
  intros Hds. rewrite <- (append_empty_r ds) at 1.
  now apply digits_of_run.
Qed.

Lemma string_of_uint_digits (d : Decimal.uint) :
  all_digits (NilEmpty.string_of_uint d) = true.
Proof.
  induction d; cbn [NilEmpty.string_of_uint all_digits]; try reflexivity;
    rewrite IHd; reflexivity.
Qed.

Lemma string_of_uint_not_empty (d : Decimal.uint) :
  d <> Decimal.Nil -> NilEmpty.string_of_uint d <> EmptyString.
Proof. destruct d; intros H; [contradiction | discriminate ..]. Qed.

Lemma NilZero_string_of_uint_digits (d : Decimal.uint) :
  all_digits (NilZero.string_of_uint d) = true
  /\ NilZero.string_of_uint d <> EmptyString.
Proof.
  destruct d; cbn [NilZero.string_of_uint]; split;
    solve [ reflexivity | discriminate | apply string_of_uint_digits ].
Qed.

Lemma decimal_digits (n : Z) :
  0 <= n -> all_digits (decimal n) = true /\ decimal n <> EmptyString.
Proof.
  intros Hn. unfold decimal. destruct n as [|p|p]; [| | lia];
    cbn [Z.to_int NilZero.string_of_int]; apply NilZero_string_of_uint_digits.
Qed.

Lemma digit_is_no_slash (c : ascii) : is_digit c = true -> is_slash c = false.
Proof.
  intros Hd. destruct (is_slash c) eqn:Hs; [| reflexivity].
  rewrite (slash_is_no_digit c Hs) in Hd. discriminate.
Qed.

Lemma all_digits_no_slash (s : string) :
  all_digits s = true ->
  forall c, In c (list_ascii_of_string s) -> is_slash c = false.
Proof.
  induction s as [|c s IH]; intros Hs c' Hin; [destruct Hin |].
  cbn [all_digits] in Hs. apply Bool.andb_true_iff in Hs. destruct Hs as [Hc Hs].
  destruct Hin as [<- | Hin]; [now apply digit_is_no_slash | now apply IH].
Qed.

Variable parse422 : string -> string.
Variable toLowerCase : string -> string.

(** X26: for the paths the tools ask for, [/contacts/123] and the like, a 404
    is answered by naming the entity and the ID; a negative ID never shows in
    the message. *)
Theorem not_found_names_the_id (entity base statusText detail : string) (id : Z) :
  no_digit base = true ->
  (0 <= id ->
   errorResult parse422 toLowerCase entity
     (APropstackError 404 statusText detail (base ++ "/" ++ decimal id))
   = ((entity ++ " not found. No " ++ toLowerCase entity ++ " with ID "
       ++ decimal id ++ " exists.")%string, false)
   /\ formatError parse422
        (APropstackError 404 statusText detail (base ++ "/" ++ decimal id))
      = ("Not found. The resource with ID " ++ decimal id ++ " does not exist ("
         ++ (base ++ "/" ++ decimal id) ++ ").")%string)
  /\ (id < 0 ->
      errorResult parse422 toLowerCase entity
        (APropstackError 404 statusText detail (base ++ "/" ++ decimal id))
      = ((entity ++ " not found.")%string, false)).
Proof.
  intros Hbase. split.
  - intros Hid. destruct (decimal_digits id Hid) as [Hdigits Hne].
    assert (Hfound : extractIdFromPath (base ++ "/" ++ decimal id) = Some (decimal id)).
    { rewrite skip_without_digits by (assumption || reflexivity).
      cbn [String.append extractIdFromPath match_here].
      change (is_slash "/") with true. cbv iota.
      rewrite (digits_of_all (decimal id) Hdigits).
      cbn [fst snd at_boundary]. unfold truthy_string.
      destruct (String.eqb_spec (decimal id) EmptyString) as [| _]; [contradiction |].
      reflexivity. }
    assert (Htruthy : truthy_string (decimal id) = true).
    { unfold truthy_string.
      destruct (String.eqb_spec (decimal id) EmptyString); [contradiction | reflexivity]. }
    unfold errorResult, formatError. change (404 =? 401) with false.
    change (404 =? 403) with false. change (404 =? 404) with true. cbv iota.
    rewrite Hfound. cbn [truthy_ostring nullish]. rewrite Htruthy. split; reflexivity.
  - intros Hid.
    assert (Hnone : extractIdFromPath (base ++ "/" ++ decimal id) = None).
    { rewrite skip_without_digits by (assumption || reflexivity).
      unfold decimal. destruct id as [|p|p]; [lia | lia |].
      cbn [Z.to_int NilZero.string_of_int String.append extractIdFromPath].
      rewrite match_here_without_digit by reflexivity.
      change (match_here (String "-" (NilZero.string_of_uint (Pos.to_uint p))))
        with (@None string).
      apply no_slash_no_id, all_digits_no_slash, NilZero_string_of_uint_digits. }
    unfold errorResult. change (404 =? 401) with false.
    change (404 =? 403) with false. change (404 =? 404) with true. cbv iota.
    rewrite Hnone. reflexivity.
Qed.

End PathFacts.

(* ------------------------------------------------------------------------- *)
(** ** Error answers *)

Section MessageFacts.

Import Helpers.

Variable parse422 : string -> string.
Variable toLowerCase : string -> string.

(** X27: [errorResult] and [formatError] word a [PropstackError] alike,
    except for a 404, where [errorResult] names the entity; and an answer to a
    [PropstackError] is never flagged [isError], while every other error is. *)
Theorem errorResult_agrees_with_formatError (entity : string) (err : caught) :
  (forall status statusText detail path,
      err = APropstackError status statusText detail path ->
      snd (errorResult parse422 toLowerCase entity err) = false
      /\ (status <> 404 ->
          fst (errorResult parse422 toLowerCase entity err) = formatError parse422 err))
  /\ ((forall status statusText detail path,
          err <> APropstackError status statusText detail path) ->
      errorResult parse422 toLowerCase entity err
      = (("Error: " ++ formatError parse422 err)%string, true)).
Proof.
  split.
  - intros status statusText detail path ->. unfold errorResult, formatError.
    split.
    + repeat match goal with
        | |- context [if ?c then _ else _] => destruct c
        end; reflexivity.
    + intros H404.
      destruct (Z.eqb_spec status 404) as [| _]; [contradiction |].
      repeat match goal with
        | |- context [if ?c then _ else _] => destruct c
        end; reflexivity.
  - intros Hother. destruct err as [status statusText detail path | m | m | s];
      [exfalso; exact (Hother _ _ _ _ eq_refl) | reflexivity ..].
Qed.

End MessageFacts.

(* ------------------------------------------------------------------------- *)
(** ** The query string *)

Section QueryFacts.

Import Url.

Lemma string_length_append (s t : string) :
  String.length (s ++ t) = (String.length s + String.length t)%nat.
Proof. induction s as [|c s IH]; cbn [String.append String.length Nat.add]; congruence. Qed.

Lemma append_cancel_r (s1 s2 t : string) :
  (s1 ++ t)%string = (s2 ++ t)%string -> s1 = s2.
Proof.
  revert s2. induction s1 as [|c1 s1 IH]; intros [|c2 s2] H.
  - reflexivity.
  - apply (f_equal String.length) in H. cbn [String.append String.length] in H.
    rewrite string_length_append in H. lia.
  - apply (f_equal String.length) in H. cbn [String.append String.length] in H.
    rewrite string_length_append in H. lia.
  - cbn [String.append] in H. injection H as -> H. f_equal. now apply IH.
Qed.

Lemma getAll_app (q q' : query) (n : string) :
  getAll (q ++ q') n = getAll q n ++ getAll q' n.
Proof. unfold getAll. now rewrite filter_app, map_app. Qed.

Lemma getAll_appended (k n : string) (items : list string) :
  forall q,
    getAll (fold_left (fun q item => append q k item) items q) n
    = getAll q n ++ (if String.eqb k n then items else []).
Proof.
  induction items as [|item items IH]; intros q; cbn [fold_left].
  - destruct (String.eqb k n); now rewrite app_nil_r.
  - rewrite IH. unfold append. rewrite getAll_app. unfold getAll at 2.
    cbn [filter fst]. destruct (String.eqb k n); cbn [map snd app];
      rewrite <- app_assoc; reflexivity.
Qed.

Lemma getAll_delete_same (q : query) (n : string) : getAll (delete q n) n = [].
Proof.
  unfold getAll, delete. induction q as [|kv q IH]; [reflexivity |].
  cbn [filter]. destruct (String.eqb (fst kv) n) eqn:Hkv; cbn [negb]; [exact IH |].
  cbn [filter]. rewrite Hkv. exact IH.
Qed.

Lemma getAll_delete_other (q : query) (n n' : string) :
  n <> n' -> getAll (delete q n) n' = getAll q n'.
Proof.
  intros Hne. unfold getAll, delete. induction q as [|kv q IH]; [reflexivity |].
  cbn [filter]. destruct (String.eqb_spec (fst kv) n) as [Hkv | Hkv]; cbn [negb].
  - destruct (String.eqb_spec (fst kv) n') as [Hkv' | _]; [congruence | exact IH].
  - cbn [filter]. destruct (String.eqb (fst kv) n'); cbn [map]; now rewrite IH.
Qed.

Lemma getAll_set_same (q : query) (n v : string) : getAll (set q n v) n = [v].
Proof.
  induction q as [|kv q IH]; cbn [set].
  - unfold getAll. cbn [filter fst]. now rewrite String.eqb_refl.
  - destruct (String.eqb (fst kv) n) eqn:Hkv.
    + unfold getAll. cbn [filter fst]. rewrite Hkv. cbn [map snd]. f_equal.
      apply getAll_delete_same.
    + unfold getAll. cbn [filter]. rewrite Hkv. exact IH.
Qed.

Lemma getAll_set_other (q : query) (n n' v : string) :
  n <> n' -> getAll (set q n v) n' = getAll q n'.
Proof.
  intros Hne. induction q as [|kv q IH]; cbn [set].
  - unfold getAll. cbn [filter fst].
    destruct (String.eqb_spec n n'); [contradiction | reflexivity].
  - destruct (String.eqb_spec (fst kv) n) as [Hkv | Hkv].
    + unfold getAll. cbn [filter fst].
      destruct (String.eqb_spec (fst kv) n') as [Hkv' | _]; [congruence |].
      now apply getAll_delete_other.
    + unfold getAll. cbn [filter].
      destruct (String.eqb (fst kv) n'); cbn [map]; unfold getAll in IH;
        now rewrite IH.
Qed.

Lemma add_param_elsewhere (q : query) (entry : string * value) (n : string) :
  target entry <> Some n -> getAll (add_param q entry) n = getAll q n.
Proof.
  unfold target, add_param. destruct (snd entry) as [| shown | items]; intros Hn.
  - reflexivity.
  - apply getAll_set_other. congruence.
  - rewrite getAll_appended.
    destruct (String.eqb_spec (fst entry ++ "[]") n) as [He | _]; [congruence |].
    now rewrite app_nil_r.
Qed.

Lemma params_elsewhere (entries : list (string * value)) (n : string) :
  (forall entry, In entry entries -> target entry <> Some n) ->
  forall q, getAll (fold_left add_param entries q) n = getAll q n.
Proof.
  induction entries as [|entry entries IH]; intros Hn q; [reflexivity |].
  cbn [fold_left]. rewrite IH by (intros e He; apply Hn; now right).
  apply add_param_elsewhere, Hn. now left.
Qed.

Lemma NoDup_keys_split (entries before after : list (string * value))
      (k : string) (v : value) :
  NoDup (map fst entries) ->
  entries = before ++ (k, v) :: after ->
  forall entry, In entry (before ++ after) -> fst entry <> k.
Proof.
  intros Hnodup -> entry Hin Hk.
  rewrite map_app in Hnodup. cbn [map fst] in Hnodup.
  apply NoDup_remove_2 in Hnodup. apply Hnodup.
  rewrite <- map_app, <- Hk. now apply in_map.
Qed.

(** X3: a parameter with one value ends up in the query under its name with
    that value alone, replacing what the path had under that name. *)
Theorem scalar_param_is_set_once (searchParams : query)
        (entries : list (string * value)) (key shown : string) :
  NoDup (map fst entries) ->
  In (key, Scalar shown) entries ->
  (forall key' items, In (key', Array items) entries -> (key' ++ "[]")%string <> key) ->
  getAll (buildUrl searchParams (Some entries)) key = [shown].
Proof.
  intros Hnodup Hin Halias.
  destruct (in_split _ _ Hin) as (before & after & Hsplit).
  pose proof (NoDup_keys_split entries before after key (Scalar shown) Hnodup Hsplit)
    as Hkeys.
  cbn [buildUrl]. rewrite Hsplit, fold_left_app. cbn [fold_left].
  rewrite params_elsewhere.
  - unfold add_param. cbn [snd fst]. apply getAll_set_same.
  - intros [key' v] Hafter. unfold target. cbn [snd fst].
    destruct v as [| shown' | items]; [discriminate | |].
    + intros [= He]. apply (Hkeys (key', Scalar shown')); [| exact He].
      apply in_or_app. now right.
    + intros [= He]. apply (Halias key' items); [| exact He].
      rewrite Hsplit. apply in_or_app. right. now right.
Qed.

(** X4: the items of an array parameter are appended under the name of the
    parameter followed by [[]], in their order, after what the path had under
    that name. *)
Theorem array_param_items_are_appended (searchParams : query)
        (entries : list (string * value)) (key : string) (items : list string) :
  NoDup (map fst entries) ->
  In (key, Array items) entries ->
  (forall shown, ~ In ((key ++ "[]")%string, Scalar shown) entries) ->
  getAll (buildUrl searchParams (Some entries)) (key ++ "[]")
  = getAll searchParams (key ++ "[]") ++ items.
Proof.
  intros Hnodup Hin Halias.
  destruct (in_split _ _ Hin) as (before & after & Hsplit).
  pose proof (NoDup_keys_split entries before after key (Array items) Hnodup Hsplit)
    as Hkeys.
  assert (Helse : forall entry, In entry (before ++ after) ->
                                target entry <> Some (key ++ "[]")%string).
  { intros [key' v] Hentry. unfold target. cbn [snd fst].
    destruct v as [| shown' | items']; [discriminate | |].
    - intros [= He]. subst key'. apply (Halias shown').
      rewrite Hsplit. apply in_app_or in Hentry. apply in_or_app.
      destruct Hentry; [now left | right; now right].
    - intros [= He]. apply append_cancel_r in He.
      exact (Hkeys _ Hentry He). }
  cbn [buildUrl]. rewrite Hsplit, fold_left_app. cbn [fold_left].
  rewrite params_elsewhere by (intros e He; apply Helse, in_or_app; now right).
  unfold add_param at 1. cbn [snd fst]. rewrite getAll_appended, String.eqb_refl.
  rewrite params_elsewhere by (intros e He; apply Helse, in_or_app; now left).
  reflexivity.
Qed.

End QueryFacts.

(* ------------------------------------------------------------------------- *)
(** ** Worked examples *)

Lemma thrown_errors_stem_from_attempts_witness :
  exists n,
    (n <= 3)%nat
    /\ ((exists m, Scenario.not_found n = Client.NetworkFailure m
                   /\ PropstackError 404 "Not Found" "" "/units/7" = JsError m)
        \/ (exists res,
               Scenario.not_found n = Client.Responded res /\ Client.ok res = false
               /\ PropstackError 404 "Not Found" "" "/units/7"
                  = PropstackError (Client.status res) (Client.statusText res)
                                   (Client.text res) "/units/7")
        \/ (exists res m,
               Scenario.not_found n = Client.Responded res /\ Client.ok res = true
               /\ Client.status res <> 204
               /\ Client.json res = inr m
               /\ PropstackError 404 "Not Found" "" "/units/7" = JsError m)).
Proof.
  apply (thrown_errors_stem_from_attempts string Scenario.Number "/units/7"%string
           Scenario.not_found).
  reflexivity.
Defined.

Lemma waiting_is_bounded_witness :
  nth_error (Client.delays (snd (Client.request string Scenario.Number "/contacts/1"
                                                Scenario.rate_limited_once))) 0
  = Some 0
  /\ Client.slept (snd (Client.request string Scenario.Number "/contacts/1"
                                       Scenario.rate_limited_once))
     <= 7000 + 5000 + 0 + 0.
Proof.
  destruct (waiting_is_bounded string Scenario.Number "/contacts/1"%string
              Scenario.rate_limited_once) as (Hfirst & Hsum & _).
  split; [exact Hfirst | exact Hsum].
Defined.

Lemma results_are_explained_witness :
  Match.score
    (Verdict.result_of Scenario.plain lower_ascii Scenario.reference Scenario.buyer)
  = 8
  /\ Match.maxScore
       (Verdict.result_of Scenario.plain lower_ascii Scenario.reference Scenario.buyer)
     <= 15.
Proof.
  destruct (results_are_explained Scenario.plain lower_ascii Scenario.reference
              [Scenario.buyer; Scenario.renter]
              (Verdict.result_of Scenario.plain lower_ascii Scenario.reference
                 Scenario.buyer))
    as (Hscore & _ & Hmax & _).
  - vm_compute. left. reflexivity.
  - split; [exact Hscore | exact Hmax].
Defined.

Lemma city_matches_by_substring_witness :
  Match.t_score
    (Match.city_block lower_ascii Scenario.reference Scenario.buyer Match.start)
  = Match.t_score Match.start + 3.
Proof.
  destruct (city_matches_by_substring lower_ascii Scenario.reference Scenario.buyer
              Match.start
              "Berlin"%string ["Potsdam"%string] "Berlin"%string)
    as (Hiff & _).
  - reflexivity.
  - reflexivity.
  - discriminate.
  - apply Hiff. exists "Berlin"%string. split; [left; reflexivity |].
    exists EmptyString, EmptyString. reflexivity.
Defined.

Lemma profile_walk_ends_within_cap_witness :
  exists r,
    Match.fetch_profiles (Scenario.upstream (Scenario.crowd 5)) (Some 3) = Some r
    /\ forall fetched, r = inl fetched -> len fetched <= 3.
Proof.
  destruct (profile_walk_ends_within_cap (Scenario.upstream (Scenario.crowd 5)) (Some 3))
    as (r & Hr & Hcap).
  exists r. split; [exact Hr |]. apply Hcap.
  intros page per_page res l Hpos Hget Hdata.
  unfold Scenario.upstream in Hget. injection Hget as <-. cbn [data] in Hdata.
  injection Hdata as <-. rewrite len_firstn. lia.
Defined.

Lemma no_cap_no_request_witness :
  Match.match_contacts_to_property Scenario.plain lower_ascii (inl Scenario.reference)
    (Scenario.upstream (Scenario.crowd 5)) (Some 0)
  = Some (textResult Match.NoProfiles).
Proof.
  apply (no_cap_no_request (Scenario.upstream (Scenario.crowd 5)) Scenario.plain
           lower_ascii Scenario.reference 0).
  lia.
Defined.

Lemma honest_deal_walk_witness :
  exists w,
    Pipeline.walk (fun page => Scenario.upstream (Scenario.herd 250) page 100) 20 [] 1
    = Some (inl w)
    /\ Pipeline.allDeals w = firstn 2000 (Scenario.herd 250)
    /\ Pipeline.totalCount w = Some (len (Scenario.herd 250)).
Proof.
  destruct (honest_deal_walk (Scenario.herd 250) 20) as (w & Hwalk & Hdeals & Htotal & _).
  - lia.
  - exists w. split; [exact Hwalk | split; [exact Hdeals | exact Htotal]].
Defined.

Lemma stalled_deal_walk_never_ends_witness :
  Pipeline.walk Walks.hollow 1000 [] 1 = None.
Proof.
  apply (stalled_deal_walk_never_ends Walks.hollow 1000).
  intros page. exists (mkPage (Some []) (Some 5)), 5.
  split; [reflexivity | split; [right; reflexivity | split; [reflexivity | lia]]].
Defined.

Lemma deal_walk_soft_cap_witness :
  len (Pipeline.allDeals
         (Pipeline.mkWalked (firstn 100 (Scenario.herd 250)) None 2))
  < Pipeline.maxDeals + Z.max 100 1.
Proof.
  apply (deal_walk_soft_cap (Scenario.untold 250) 100 5).
  - lia.
  - intros page res l Hget Hdata.
    unfold Scenario.untold in Hget. injection Hget as <-.
    change (Some (firstn 100 (skipn (Z.to_nat ((page - 1) * 100)) (Scenario.herd 250)))
            = Some l) in Hdata.
    assert (Hl : firstn 100 (skipn (Z.to_nat ((page - 1) * 100)) (Scenario.herd 250)) = l)
      by congruence.
    rewrite <- Hl, len_firstn. lia.
  - vm_compute. reflexivity.
Defined.

Lemma stage_table_sorts_the_deals_witness :
  Buckets.sum_counts
    (Pipeline.stageStats
       (Pipeline.aggregated Scenario.plain Scenario.getTime Scenario.now
          (Pipeline.stageNames Scenario.pipelines)
          (Scenario.three_deals "2026-10-13T12:00:00.000Z" "2026-11-01T12:00:00.000Z")))
  = len (Scenario.three_deals "2026-10-13T12:00:00.000Z" "2026-11-01T12:00:00.000Z").
Proof.
  apply (stage_table_sorts_the_deals Scenario.plain Scenario.getTime Scenario.now
           (Pipeline.stageNames Scenario.pipelines)
           (Scenario.three_deals "2026-10-13T12:00:00.000Z" "2026-11-01T12:00:00.000Z")).
  intros d [<- | [<- | [<- | []]]]; reflexivity.
Defined.

Lemma stale_deals_show_their_age_witness :
  exists t n,
    Scenario.getTime "2026-10-13T12:00:00.000Z" = Some t
    /\ Buckets.daysStale Scenario.getTime Scenario.now
         (Scenario.first_deal "2026-10-13T12:00:00.000Z") = Buckets.Days n
    /\ 14 <= n
    /\ n * 86400000 <= Scenario.now - t < (n + 1) * 86400000.
Proof.
  apply (stale_deals_show_their_age Scenario.getTime Scenario.now
           (Scenario.first_deal "2026-10-13T12:00:00.000Z")).
  reflexivity.
Defined.

Lemma inherited_stage_name_throws_witness :
  exists e,
    Pipeline.pipeline_summary Scenario.plain Scenario.getTime Scenario.now
      (inl Examples.odd_pipelines) Examples.one_deal 3
    = Some (errorResult "Pipeline summary" e).
Proof.
  apply (inherited_stage_name_throws Scenario.plain Scenario.getTime Scenario.now
           Examples.odd_pipelines Examples.one_deal 3
           (Pipeline.mkWalked [Scenario.first_deal "2026-10-13T12:00:00.000Z"] (Some 1) 2)
           (Scenario.first_deal "2026-10-13T12:00:00.000Z")).
  - reflexivity.
  - left. reflexivity.
  - reflexivity.
Defined.

Lemma deal_opens_at_first_stage_witness :
  exists firstPipeline others stages before stage after,
    (inl [Examples.sales] : list PositionedPipeline.PropstackDealPipeline + error)
    = inl (firstPipeline :: others)
    /\ PositionedPipeline.deal_stages firstPipeline = Some stages
    /\ stages = before ++ stage :: after
    /\ (forall s, In s before ->
                  nullish (PositionedStage.position stage) 0
                  < nullish (PositionedStage.position s) 0)
    /\ (forall s, In s after ->
                  nullish (PositionedStage.position stage) 0
                  <= nullish (PositionedStage.position s) 0)
    /\ 1 = PositionedPipeline.id firstPipeline
    /\ 6 = PositionedStage.id stage
    /\ Intake.Args.property_id Examples.caller = Some 71
    /\ 71 <> 0.
Proof.
  apply (deal_opens_at_first_stage Examples.nobody Examples.updates Examples.creates
           Examples.files (inl [Examples.sales]) Examples.opens Examples.tomorrow
           false Examples.caller (Intake.ClientProperty.mk 9 71 6 1 (Some 4))).
  vm_compute. right. right. right. right. left. reflexivity.
Defined.



Lemma text_answers_account_for_the_calls_witness :
  FanOut.fulfilled (Task.mk 31)
  = FanOut.settle
      (Examples.files (Intake.reminder_task Examples.tomorrow Examples.caller 9))
  /\ Some (FanOut.fulfilled (Task.mk 31))
     = Some (FanOut.settle (Examples.files (Intake.note_task Examples.caller 9))).
Proof.
  destruct (text_answers_account_for_the_calls Examples.nobody Examples.updates
              Examples.creates Examples.files (inl [Examples.sales]) Examples.opens
              Examples.tomorrow false Examples.caller
              (Intake.mkReport Intake.created 9
                 (Some (FanOut.fulfilled (Task.mk 31)))
                 (Some (FanOut.fulfilled
                          (Deal.mk 77 (Some 9) (Some 71) (Some 6) None None None None)))
                 (FanOut.fulfilled (Task.mk 31))))
    as (_ & _ & Hreminder & Hnote).
  - reflexivity.
  - split; [exact Hreminder | exact Hnote].
Defined.

Lemma update_only_what_the_search_found_witness :
  exists page found others,
    Examples.known (Intake.searchParams Examples.caller) = inl page
    /\ data page = Some (found :: others)
    /\ Contact.id found = 12.
Proof.
  destruct (update_only_what_the_search_found Examples.known Examples.updates
              Examples.creates Examples.files (inl [Examples.sales]) Examples.opens
              Examples.tomorrow false Examples.caller) as (Hput & _).
  destruct (Hput 12 (Intake.contactData Examples.caller)) as (_ & _ & Hfound & _).
  - vm_compute. right. left. reflexivity.
  - exact Hfound.
Defined.

Lemma extractIdFromPath_is_a_numeric_segment_witness :
  Helpers.all_digits "123" = true
  /\ exists before after,
       "/contacts/123/notes"%string = (before ++ "/" ++ "123" ++ after)%string
       /\ Helpers.at_boundary after = true.
Proof.
  apply (extractIdFromPath_is_a_numeric_segment "/contacts/123/notes" "123").
  reflexivity.
Defined.

Lemma extractIdFromPath_takes_the_first_numeric_segment_witness :
  Helpers.extractIdFromPath "/contacts/12/deals/34" = Some "12"%string.
Proof.
  apply (extractIdFromPath_takes_the_first_numeric_segment "/contacts" "12" "/deals/34").
  - reflexivity.
  - discriminate.
  - reflexivity.
  - reflexivity.
Defined.

Lemma not_found_names_the_id_witness :
  Helpers.errorResult (fun detail => detail) lower_ascii "Contact"
    (Helpers.APropstackError 404 "Not Found" "" ("/contacts" ++ "/" ++ decimal 123))
  = (("Contact" ++ " not found. No " ++ lower_ascii "Contact" ++ " with ID "
      ++ decimal 123 ++ " exists.")%string, false).
Proof.
  apply (not_found_names_the_id (fun detail => detail) lower_ascii "Contact" "/contacts"
           "Not Found" "" 123).
  - reflexivity.
  - lia.
Defined.

Lemma errorResult_agrees_with_formatError_witness :
  fst (Helpers.errorResult (fun detail => detail) lower_ascii "Contact"
         (Helpers.APropstackError 429 "Too Many Requests" "" "/contacts"))
  = Helpers.formatError (fun detail => detail)
      (Helpers.APropstackError 429 "Too Many Requests" "" "/contacts").
Proof.
  apply (errorResult_agrees_with_formatError (fun detail => detail) lower_ascii "Contact"
           (Helpers.APropstackError 429 "Too Many Requests" "" "/contacts"))
    with (status := 429) (statusText := "Too Many Requests"%string)
         (detail := EmptyString) (path := "/contacts"%string).
  - reflexivity.
  - discriminate.
Defined.

Lemma scalar_param_is_set_once_witness :
  Url.getAll (Url.buildUrl [("page", "1")]%string (Some Examples.search_params)) "page"
  = ["2"%string].
Proof.
  apply (scalar_param_is_set_once [("page", "1")]%string Examples.search_params
           "page" "2").
  - repeat constructor; cbn; intuition discriminate.
  - left. reflexivity.
  - intros key' items [H | [H | [H | []]]]; [discriminate H | | discriminate H].
    injection H as <- _. discriminate.
Defined.

Lemma array_param_items_are_appended_witness :
  Url.getAll (Url.buildUrl [("page", "1")]%string (Some Examples.search_params))
             ("status" ++ "[]")
  = Url.getAll [("page", "1")]%string ("status" ++ "[]") ++ ["new"; "won"]%string.
Proof.
  apply (array_param_items_are_appended [("page", "1")]%string Examples.search_params
           "status" ["new"; "won"]%string).
  - repeat constructor; cbn; intuition discriminate.
  - right. left. reflexivity.
  - intros shown [H | [H | [H | []]]]; discriminate H.
Defined.
